(** * Exam portal, QR attendance scanner and AI advisory service

    A shallow embedding of the three units of the education portal:

    - [ExamPortal]      the React component that lists exams, opens the
                        exam-taking flow and records submissions;
    - [QRCodeScanner]   the React component that drives an [Html5Qrcode]
                        camera scanner and validates the decoded payload;
    - [GeminiService]   the request/response functions over the hosted model.

    React state ([useState]), references ([useRef]) and effects ([useEffect])
    are modelled by explicit state passing: a handler maps the component's
    state to its next state and to the calls it makes on the host's callbacks.
    Code that can throw lives in the exception monad [JS.Exc]; [try]/[catch]
    is [JS.tryCatch]. Numbers are doubles, held as the rationals they denote,
    and arithmetic rounds to the nearest double. What the source takes from
    the JavaScript platform ([atob], [JSON.parse], the coercion of strings
    and objects to numbers) is collected in [JS.Platform]; the theorems hold
    for every platform, and [Browser.platform] is an executable one used to
    run concrete inputs.

    Two more modules follow the components further: [ScanSession] reads the
    phases of a scan session off the state of [QRCodeScanner], with the table
    of their transitions, and [Advisory] is the analysis of the attendance
    records that three functions of the service make before they write their
    prompt, over the plain objects of [PlainObject]. *)

From Stdlib Require Import ZArith QArith Qround Qpower Qabs String Ascii List Bool Lia.
From Stdlib Require Import DecimalString.
From Stdlib Require Import Floats.SpecFloat.
From stdpp Require Import base option gmap strings list sorting.

#[local] Set Warnings "-register-all".
#[local] Open Scope string_scope.

(* ===================================================================== *)
(** ** JavaScript values and the operations the components apply to them *)
(* ===================================================================== *)

Module JS.

(** A thrown value: the error's [name] and [message]. *)
Record Error := mkError { name : string; message : string }.

(** The outcome of evaluating code that may throw. An awaited promise is
    read the same way: resolved is [Ok], rejected is [Throw]. *)
Inductive Exc (A : Type) : Type :=
| Ok (a : A)
| Throw (e : Error).
Arguments Ok {A} a.
Arguments Throw {A} e.

#[global] Instance Exc_ret : MRet Exc := @Ok.
#[global] Instance Exc_bind : MBind Exc :=
  λ A B f m, match m with Ok a => f a | Throw e => Throw e end.
#[global] Instance Exc_fmap : FMap Exc :=
  λ A B f m, match m with Ok a => Ok (f a) | Throw e => Throw e end.

(** [try { body } catch (e) { handler e }] *)
Definition tryCatch {A} (body : Exc A) (handler : Error → Exc A) : Exc A :=
  match body with
  | Ok a => Ok a
  | Throw e => handler e
  end.

Definition TypeError (msg : string) : Error := mkError "TypeError" msg.

(** Numbers. The source computes with IEEE-754 doubles. The model keeps
    the three special values and represents every other double by the
    rational it denotes; an arithmetic operation rounds its exact result to
    the nearest double, ties to even, as the standard prescribes. Negative
    zero is identified with zero (the components never divide by a value
    that can be zero, so the two behave alike). *)
Inductive number :=
| NaN
| Infinity (negative : bool)
| Finite (q : Q).

Definition Qlt_bool (x y : Q) : bool := negb (Qle_bool y x).

(** [2^e], for any integer [e]. *)
Definition pow2 (e : Z) : Q := (2 ^ e)%Q.

(** The integer part of the binary logarithm of a positive rational. *)
Definition Qlog2 (x : Q) : Z :=
  let d := (Z.log2 (Qnum x) - Z.log2 (Zpos (Qden x)))%Z in
  if Qle_bool (pow2 d) x then d else (d - 1)%Z.

(** The nearest integer, ties to the even one. *)
Definition nearestEven (m : Q) : Z :=
  let f := Qfloor m in
  match (m - inject_Z f ?= 1 # 2)%Q with
  | Lt => f
  | Gt => (f + 1)%Z
  | Eq => if Z.even f then f else (f + 1)%Z
  end.

(** The double nearest to a positive rational: 53 significant bits, the
    exponent of the last bit no lower than -1074, overflow to infinity from
    [2^1024] on. *)
Definition roundPositive (x : Q) : number :=
  let e := Z.max (Qlog2 x - 52) (-1074) in
  let v := (inject_Z (nearestEven (x / pow2 e)) * pow2 e)%Q in
  if Qle_bool (pow2 1024) v then Infinity false else Finite (Qred v).

(** [-a] *)
Definition neg (a : number) : number :=
  match a with
  | NaN => NaN
  | Infinity s => Infinity (negb s)
  | Finite q => Finite (- q)
  end.

(** The double nearest to a rational. *)
Definition round (x : Q) : number :=
  match (x ?= 0)%Q with
  | Eq => Finite 0
  | Gt => roundPositive x
  | Lt => neg (roundPositive (- x))
  end.

(** An integer as a number; it is a double when below [2^53] in
    magnitude, as [Date.now()], 1000 and 60 are. *)
Definition ofZ (z : Z) : number := Finite (inject_Z z).

(** [a - b] *)
Definition sub (a b : number) : number :=
  match a, b with
  | NaN, _ | _, NaN => NaN
  | Infinity s, Infinity t => if Bool.eqb s t then NaN else Infinity s
  | Infinity s, Finite _ => Infinity s
  | Finite _, Infinity t => Infinity (negb t)
  | Finite x, Finite y => round (x - y)
  end.

(** [a / b] *)
Definition div (a b : number) : number :=
  match a, b with
  | NaN, _ | _, NaN => NaN
  | Infinity _, Infinity _ => NaN
  | Infinity s, Finite y => Infinity (xorb s (Qlt_bool y 0))
  | Finite _, Infinity _ => Finite 0
  | Finite x, Finite y =>
      if Qeq_bool y 0
      then (if Qeq_bool x 0 then NaN else Infinity (Qlt_bool x 0))
      else round (x / y)
  end.

(** [a > b]: false as soon as one side is [NaN]. *)
Definition gt (a b : number) : bool :=
  match a, b with
  | NaN, _ | _, NaN => false
  | Infinity s, Infinity t => negb s && t
  | Infinity s, Finite _ => negb s
  | Finite _, Infinity t => t
  | Finite x, Finite y => Qlt_bool y x
  end.

(** A number is at most, or at least, a rational. *)
Definition atMost (a : number) (y : Q) : Prop :=
  match a with
  | NaN => False
  | Infinity s => s = true
  | Finite v => (v <= y)%Q
  end.

Definition atLeast (a : number) (y : Q) : Prop :=
  match a with
  | NaN => False
  | Infinity s => s = false
  | Finite v => (y <= v)%Q
  end.

(** [y] is the value [k * 2^f] of a positive double. *)
Definition Double (y : Q) (k f : Z) : Prop :=
  (0 < k < 2 ^ 53)%Z ∧ (-1074 ≤ f)%Z ∧
  (y == inject_Z k * pow2 f)%Q ∧ (y < pow2 1024)%Q.

(** Values: what [JSON.parse] can return, and [undefined] for an absent
    property. An object is the finite map of its own properties. *)
Inductive Value :=
| JUndefined
| JNull
| JBool (b : bool)
| JNumber (n : number)
| JString (s : string)
| JArray (items : list Value)
| JObject (props : gmap string Value).

(** [!!v] *)
Definition ToBoolean (v : Value) : bool :=
  match v with
  | JUndefined | JNull => false
  | JBool b => b
  | JNumber NaN => false
  | JNumber (Infinity _) => true
  | JNumber (Finite q) => negb (Qeq_bool q 0)
  | JString s => negb (String.eqb s "")
  | JArray _ | JObject _ => true
  end.

(** [v[key]] for a [key] that no built-in prototype defines, such as
    [studentId] and [timestamp]: an own property of an object, [undefined]
    on every other value that has properties, a [TypeError] on [undefined]
    and [null] (this is what the destructuring [const { key } = v] does). *)
Definition getField (v : Value) (key : string) : Exc Value :=
  match v with
  | JUndefined | JNull =>
      Throw (TypeError "Cannot destructure property of undefined or null")
  | JObject props => Ok (default JUndefined (props !! key))
  | JBool _ | JNumber _ | JString _ | JArray _ => Ok JUndefined
  end.

(** The part of the platform the components call. *)
Record Platform := {
  (** [atob]: forgiving base64 decoding, throws [InvalidCharacterError]. *)
  atob : string → Exc string;
  (** [JSON.parse], throws [SyntaxError]. *)
  JSON_parse : string → Exc Value;
  (** The abstract operation StringToNumber. *)
  StringToNumber : string → number;
  (** ToNumber of an array or object: ToPrimitive with hint number, then
      ToNumber of the result. Throws [TypeError] when the value shadows
      its conversion methods with values that cannot be called. *)
  ObjectToNumber : Value → Exc number;
}.

(** The abstract operation ToNumber, applied by the binary [-]. *)
Definition ToNumber (P : Platform) (v : Value) : Exc number :=
  match v with
  | JUndefined => Ok NaN
  | JNull => Ok (ofZ 0)
  | JBool b => Ok (ofZ (if b then 1 else 0))
  | JNumber n => Ok n
  | JString s => Ok (StringToNumber P s)
  | JArray _ | JObject _ => ObjectToNumber P v
  end.

(** White space and line terminators among the first 256 code units. *)
Definition isWhiteSpace (c : ascii) : bool :=
  let n := nat_of_ascii c in
  bool_decide (n = 9 ∨ n = 10 ∨ n = 11 ∨ n = 12 ∨ n = 13 ∨ n = 32 ∨ n = 160)%nat.

Fixpoint trimStart (s : string) : string :=
  match s with
  | String c s' => if isWhiteSpace c then trimStart s' else s
  | EmptyString => EmptyString
  end.

(** [s.trim()] *)
Definition trim (s : string) : string :=
  String.rev (trimStart (String.rev (trimStart s))).

End JS.

(* ===================================================================== *)
(** ** Doubles as the standard library specifies them *)
(* ===================================================================== *)

(** The binary64 operations of the standard library's specification of
    floating point numbers, to compare the arithmetic of [JS.number]
    against: the rounding of quotients, and the age test of the scanner.
    The comparisons are made further down. *)
Module Binary64.
#[local] Open Scope Z_scope.

Definition prec : Z := 53.
Definition emax : Z := 1024.

(** The double nearest to an integer. *)
Definition ofZ (z : Z) : spec_float := binary_normalize prec emax z 0 false.

(** The number a double denotes. *)
Definition toNumber (x : spec_float) : JS.number :=
  match x with
  | S754_zero _ => JS.Finite 0
  | S754_infinity s => JS.Infinity s
  | S754_nan => JS.NaN
  | S754_finite s m e =>
      JS.Finite ((if s then -1 else 1) * inject_Z (Z.pos m) * JS.pow2 e)
  end.

Definition same (a b : JS.number) : bool :=
  match a, b with
  | JS.NaN, JS.NaN => true
  | JS.Infinity s, JS.Infinity t => Bool.eqb s t
  | JS.Finite x, JS.Finite y => Qeq_bool x y
  | _, _ => false
  end.

(** [JS.round] of the exact quotient of two doubles is their binary64
    quotient. *)
Definition quotientAgrees (x y : spec_float) : bool :=
  match toNumber x, toNumber y with
  | JS.Finite a, JS.Finite b =>
      same (JS.round (a / b)) (toNumber (SFdiv prec emax x y))
  | _, _ => false
  end.

(** Doubles to try: integers, one of them filling the 53 bits, and the
    same divided by [2^1000] and multiplied by [2^970], so that the
    quotients reach into the subnormal range and past the overflow
    threshold. *)
Definition integers : list Z :=
  [1; 3; 1000; 60001; 2 ^ 53 - 1; -7].

Definition samples : list spec_float :=
  map ofZ integers
  ++ map (λ z, SFdiv prec emax (ofZ z) (ofZ (2 ^ 1000))) integers
  ++ map (λ z, SFmul prec emax (ofZ z) (ofZ (2 ^ 970))) integers.

(** [(now - timestamp) / 1000 > 60] on doubles. *)
Definition tooOld (now timestamp : Z) : bool :=
  SFltb (ofZ 60)
    (SFdiv prec emax (SFsub prec emax (ofZ now) (ofZ timestamp)) (ofZ 1000)).

(** The same test in the arithmetic of [JS.number]. *)
Definition tooOldModel (now timestamp : Z) : bool :=
  JS.gt (JS.div (JS.sub (JS.ofZ now) (JS.ofZ timestamp)) (JS.ofZ 1000)) (JS.ofZ 60).

(** The integers from [start], [len] of them. *)
Fixpoint zrange (start : Z) (len : nat) : list Z :=
  match len with
  | O => []
  | S len => start :: zrange (start + 1) len
  end.

Definition agreeOn (now : Z) (ages : list Z) : bool :=
  forallb (λ age, Bool.eqb (tooOld now (now - age)) (tooOldModel now (now - age))) ages.

End Binary64.

(* ===================================================================== *)
(** ** ExamPortal *)
(* ===================================================================== *)

Module ExamPortal.

(** ['Completed' | 'Blocked'] *)
Inductive Status := Completed | Blocked.

#[global] Instance Status_eq_dec : EqDecision Status.
Proof. solve_decision. Defined.

(** Modelled from the spec: the types module is not part of the sources.
    An exam has an identifier, a title, a subject, an ordered sequence of
    questions and a duration in minutes. The portal only counts the
    questions ([exam.questions?.length || 0]), so a question is represented
    by its identifier and the sequence may be absent. *)
Module Exam.
Record t := mk {
  id : string;
  title : string;
  subject : string;
  questions : option (list string);
  durationMinutes : Z;
}.
End Exam.

(** Modelled from the spec: the types module is not part of the sources.
    A submission has an identifier, the exam and the student it belongs to,
    the answers by question identifier, the submission timestamp, a status
    and a numeric score; [handleSubmit] leaves [id], [score] and
    [studentName] to the host. *)
Module ExamSubmission.
Record t := mk {
  id : string;
  examId : string;
  studentId : string;
  studentName : string;
  answers : gmap string string;
  submittedAt : Z;
  status : Status;
  score : Z;
}.
End ExamSubmission.

(** [Omit<ExamSubmission, 'id' | 'score' | 'studentName'>], the argument of
    [onSubmitExam]. *)
Module NewSubmission.
Record t := mk {
  examId : string;
  studentId : string;
  answers : gmap string string;
  submittedAt : Z;
  status : Status;
}.
End NewSubmission.

(** The props other than the callback [onSubmitExam], whose calls the
    handlers below return. *)
Record Props := {
  studentId : string;
  exams : list Exam.t;
  submissions : list ExamSubmission.t;
}.

(** [new Map(submissions.map(s => [s.examId, s]))]: the entries are set in
    order, so of two submissions for one exam the later one stays. *)
Definition studentSubmissionsMap (submissions : list ExamSubmission.t)
  : gmap string ExamSubmission.t :=
  foldl (λ m s, <[ExamSubmission.examId s := s]> m) ∅ submissions.

(** What a handler did: its calls of [onSubmitExam], and the value of the
    state variable [takingExam] after it. *)
Record Outcome := {
  submitted : list NewSubmission.t;
  takingExam' : option Exam.t;
}.

(** [handleSubmit], closed over the [takingExam] of the render that passed
    it to the exam taker; [now] is what [Date.now()] returns. *)
Definition handleSubmit (props : Props) (takingExam : option Exam.t) (now : Z)
    (answers : gmap string string) (status : Status) : Outcome :=
  match takingExam with
  | None => {| submitted := []; takingExam' := takingExam |}
  | Some exam =>
      {| submitted :=
           [ NewSubmission.mk (Exam.id exam) (studentId props) answers now status ];
         takingExam' := None |}
  end.

(** The body of an exam's card. *)
Inductive CardBody :=
| ResultBox (isBlocked : bool) (label : string) (score : Z)
    (* the bordered box: red when blocked, green otherwise *)
| TakeExamButton (onClick : Exam.t)
    (* [onClick] is the exam that [setTakingExam] receives *).

Record Card := {
  key : string;
  delay : Z;
  redBorder : bool;
  heading : string;
  subheading : string;
  questionCount : nat;
  duration : Z;
  body : CardBody;
}.

(** What the component returns. *)
Inductive View :=
| ExamBlocked                  (* the message with the Go Back button *)
| ExamTaker (exam : Exam.t)    (* the exam-taking flow *)
| Catalog (cards : list Card)
| NoExams.

(** The callback of [exams.map]. *)
Definition card (m : gmap string ExamSubmission.t) (index : nat) (exam : Exam.t)
  : Card :=
  let submission := m !! Exam.id exam in
  let isBlocked :=
    match submission with
    | Some s => bool_decide (ExamSubmission.status s = Blocked)
    | None => false
    end in
  {| key := Exam.id exam;
     delay := Z.of_nat index * 100;
     redBorder := isBlocked;
     heading := Exam.title exam;
     subheading := Exam.subject exam;
     questionCount :=
       match Exam.questions exam with Some qs => length qs | None => 0%nat end;
     duration := Exam.durationMinutes exam;
     body :=
       match submission with
       | Some s =>
           ResultBox isBlocked (if isBlocked then "Blocked" else "Completed")
             (ExamSubmission.score s)
       | None => TakeExamButton exam
       end |}.

(** The component's render function, for the current [takingExam]. *)
Definition render (props : Props) (takingExam : option Exam.t) : View :=
  let m := studentSubmissionsMap (submissions props) in
  match takingExam with
  | Some exam =>
      match m !! Exam.id exam with
      | Some existingSubmission =>
          if bool_decide (ExamSubmission.status existingSubmission = Blocked)
          then ExamBlocked
          else ExamTaker exam
      | None => ExamTaker exam
      end
  | None =>
      if bool_decide (0 < length (exams props))%nat
      then Catalog (imap (card m) (exams props))
      else NoExams
  end.

(** The user's actions and the exam taker's callbacks. *)
Inductive Action :=
| ClickTakeExam (exam : Exam.t)     (* [setTakingExam(exam)] *)
| ClickGoBack                       (* [setTakingExam(null)], blocked screen *)
| Close                             (* [onClose], the exam taker *)
| Submit (now : Z) (answers : gmap string string) (status : Status).
                                    (* [onSubmit], the exam taker *)

Definition step (props : Props) (takingExam : option Exam.t) (a : Action)
  : Outcome :=
  match a with
  | ClickTakeExam exam => {| submitted := []; takingExam' := Some exam |}
  | ClickGoBack | Close => {| submitted := []; takingExam' := None |}
  | Submit now answers status => handleSubmit props takingExam now answers status
  end.

(** The words a card's body shows: the label of the box, or the text of
    the button. *)
Definition caption (b : CardBody) : string :=
  match b with
  | ResultBox _ label _ => label
  | TakeExamButton _ => "Take Exam"
  end.

(** The display variant of the spec, read off a card's body. *)
Inductive Variant :=
| VTake
| VCompleted (score : Z)
| VBlocked.

Definition variant (b : CardBody) : Variant :=
  match b with
  | TakeExamButton _ => VTake
  | ResultBox true _ _ => VBlocked
  | ResultBox false _ score => VCompleted score
  end.

End ExamPortal.

(* ===================================================================== *)
(** ** QRCodeScanner *)
(* ===================================================================== *)

Module QRCodeScanner.
Import JS.

(** *** The scanner object of the html5-qrcode library

    The component reaches the library through [declare var Html5Qrcode: any].
    The object is modelled by the state the library documents: not started,
    scanning, or paused. [isScanning] is true from a successful [start]
    until [stop], paused or not; [pause] is legal only while scanning and
    [resume] only while paused (they throw otherwise). *)
Inductive ScannerState := NOT_STARTED | SCANNING | PAUSED.

#[global] Instance ScannerState_eq_dec : EqDecision ScannerState.
Proof. solve_decision. Defined.

Record Html5Qrcode := {
  state : ScannerState;
  (** [start] was called and its promise has not settled yet *)
  starting : bool;
  (** the success callback given to [start] is a closure: this is the
      value of [scanResult] in the render whose effect created the scanner *)
  seenScanResult : option string;
}.

Definition withState (s : Html5Qrcode) (st : ScannerState) : Html5Qrcode :=
  {| state := st; starting := false; seenScanResult := seenScanResult s |}.

Definition isScanning (s : Html5Qrcode) : bool :=
  negb (bool_decide (state s = NOT_STARTED)).

Definition pause (s : Html5Qrcode) : Exc Html5Qrcode :=
  match state s with
  | SCANNING => Ok (withState s PAUSED)
  | _ => Throw (mkError "Error" "Cannot pause, scanner is not scanning.")
  end.

Definition resume (s : Html5Qrcode) : Exc Html5Qrcode :=
  match state s with
  | PAUSED => Ok (withState s SCANNING)
  | _ => Throw (mkError "Error" "Cannot resume, scanner is not paused.")
  end.

Definition stop (s : Html5Qrcode) : Html5Qrcode := withState s NOT_STARTED.

(** *** The component *)

(** The component's state: the state variable, the reference, every
    scanner object constructed so far (a reference is an index into this
    list), what React remembers about the effect, and the calls made on
    [onScanSuccess]. Each scanner is constructed and started by the same run
    of the effect, so [scanners] also lists the device acquisitions. *)
Record Component := {
  (** [scanResult]: the message of the error shown, or [null] *)
  scanResult : option string;
  (** [scannerRef.current] *)
  scannerRef : option nat;
  scanners : list Html5Qrcode;
  (** the last run of the effect returned its cleanup function *)
  hasCleanup : bool;
  (** a dependency of the effect changed since its last run *)
  depsChanged : bool;
  (** arguments of the calls of [onScanSuccess], oldest first *)
  notified : list Value;
}.

Definition initial : Component :=
  {| scanResult := None; scannerRef := None; scanners := [];
     hasCleanup := false; depsChanged := true; notified := [] |}.

Definition expiredMessage : string :=
  "Expired QR Code. Please ask the student to generate a new one.".
Definition formatMessage : string :=
  "Invalid or unreadable QR code format.".
Definition cameraMessage : string :=
  "Could not start camera. Please check permissions.".

(** [setScanResult(v)]. An error is a fresh object each time, so the
    dependency array sees a change unless [null] replaces [null]. *)
Definition setScanResult (v : option string) (c : Component) : Component :=
  {| scanResult := v; scannerRef := scannerRef c; scanners := scanners c;
     hasCleanup := hasCleanup c;
     depsChanged :=
       depsChanged c || bool_decide (is_Some v ∨ is_Some (scanResult c));
     notified := notified c |}.

Definition setScanners (l : list Html5Qrcode) (c : Component) : Component :=
  {| scanResult := scanResult c; scannerRef := scannerRef c; scanners := l;
     hasCleanup := hasCleanup c; depsChanged := depsChanged c;
     notified := notified c |}.

(** [onScanSuccess(v)]: the host's callback, taken not to throw. *)
Definition onScanSuccess (v : Value) (c : Component) : Component :=
  {| scanResult := scanResult c; scannerRef := scannerRef c;
     scanners := scanners c; hasCleanup := hasCleanup c;
     depsChanged := depsChanged c; notified := notified c ++ [v] |}.

(** The scanner that [scannerRef.current] holds. *)
Definition current (c : Component) : option Html5Qrcode :=
  h ← scannerRef c; scanners c !! h.

(** [scannerRef.current.m()] for a library method [m]. *)
Definition onCurrent (m : Html5Qrcode → Exc Html5Qrcode) (c : Component)
  : Exc Component :=
  match scannerRef c with
  | None => Throw (TypeError "Cannot read properties of null")
  | Some h =>
      match scanners c !! h with
      | None => Throw (TypeError "Cannot read properties of null")
      | Some s => s' ← m s; mret (setScanners (<[h := s']> (scanners c)) c)
      end
  end.

(** How the [try] block of the success callback ends when it does not
    throw: at the [return] that follows the expiry error, or after
    [onScanSuccess(studentId)]. *)
Inductive Verdict :=
| Expired
| Success (studentId : Value).

(** [JSON.parse(atob(decodedText))] *)
Definition decode (P : Platform) (decodedText : string) : Exc Value :=
  binary ← atob P decodedText; JSON_parse P binary.

(** The [try] block of [qrCodeSuccessCallback]; [now] is [Date.now()]. *)
Definition validate (P : Platform) (now : Z) (decodedText : string)
  : Exc Verdict :=
  decodedData ← decode P decodedText;
  studentId ← getField decodedData "studentId";
  timestamp ← getField decodedData "timestamp";
  if negb (ToBoolean studentId) || negb (ToBoolean timestamp)
  then Throw (mkError "Error" "Invalid QR code data.")
  else
    t ← ToNumber P timestamp;
    let timeDiffSeconds := div (sub (ofZ now) t) (ofZ 1000) in
    if gt timeDiffSeconds (ofZ 60)
    then mret Expired
    else mret (Success studentId).

(** [qrCodeSuccessCallback], as the closure that saw [seen] for
    [scanResult]. The call of [pause] stands before the [try]: when it
    throws, the callback is left with nothing changed. *)
Definition qrCodeSuccessCallback (P : Platform) (seen : option string)
    (now : Z) (decodedText : string) (c : Component) : Component :=
  match seen with
  | Some _ => c
  | None =>
      match onCurrent pause c with
      | Throw _ => c
      | Ok c1 =>
          match validate P now decodedText with
          | Ok Expired => setScanResult (Some expiredMessage) c1
          | Ok (Success studentId) => onScanSuccess studentId c1
          | Throw _ => setScanResult (Some formatMessage) c1
          end
      end
  end.

(** [handleRetry]. When [resume] throws, the handler is left after the
    state update it has already requested. *)
Definition handleRetry (c : Component) : Component :=
  let c1 := setScanResult None c in
  match scannerRef c1 with
  | None => c1
  | Some _ =>
      match onCurrent resume c1 with
      | Ok c2 => c2
      | Throw _ => c1
      end
  end.

(** The function the effect returns. *)
Definition cleanup (c : Component) : Component :=
  match scannerRef c with
  | None => c
  | Some h =>
      match scanners c !! h with
      | None => c
      | Some s =>
          if isScanning s
          then {| scanResult := scanResult c; scannerRef := None;
                  scanners := <[h := stop s]> (scanners c);
                  hasCleanup := hasCleanup c; depsChanged := depsChanged c;
                  notified := notified c |}
          else c
      end
  end.

(** The body of the effect. The element that [readerRef] points to is
    rendered unconditionally, so [readerRef.current] is set whenever an
    effect runs; the guard then only reads [scannerRef.current]. *)
Definition effect (c : Component) : Component :=
  match scannerRef c with
  | Some _ =>
      {| scanResult := scanResult c; scannerRef := scannerRef c;
         scanners := scanners c; hasCleanup := false;
         depsChanged := false; notified := notified c |}
  | None =>
      let html5QrCode :=
        {| state := NOT_STARTED; starting := true;
           seenScanResult := scanResult c |} in
      {| scanResult := scanResult c;
         scannerRef := Some (length (scanners c));
         scanners := scanners c ++ [html5QrCode];
         hasCleanup := true; depsChanged := false; notified := notified c |}
  end.

(** React after a render: the effect depends on
    [[onScanSuccess, scanResult]], so when one of the two has changed the
    cleanup of the previous run is called, if it returned one, and the
    effect runs again. *)
Definition commit (c : Component) : Component :=
  if depsChanged c
  then effect (if hasCleanup c then cleanup c else c)
  else c.

(** What happens to a mounted component. *)
Inductive Event :=
| StartResolved (h : nat)   (* the camera of scanner [h] is on *)
| StartRejected (h : nat)   (* the camera of scanner [h] could not start *)
| Decoded (h : nat) (now : Z) (decodedText : string)
                            (* scanner [h] has read a QR code *)
| ClickScanAgain            (* the button of the error overlay *)
| NewOnScanSuccess.         (* the host renders the component again and
                               passes another function for [onScanSuccess] *)

(** The render in which [onScanSuccess] is another function than in the
    last one: the first dependency of the effect has changed. *)
Definition newOnScanSuccess (c : Component) : Component :=
  {| scanResult := scanResult c; scannerRef := scannerRef c;
     scanners := scanners c; hasCleanup := hasCleanup c;
     depsChanged := true; notified := notified c |}.

Definition handle (P : Platform) (c : Component) (e : Event) : Component :=
  match e with
  | StartResolved h =>
      match scanners c !! h with
      | Some s =>
          if starting s
          then setScanners (<[h := withState s SCANNING]> (scanners c)) c
          else c
      | None => c
      end
  | StartRejected h =>
      match scanners c !! h with
      | Some s =>
          if starting s
          then setScanResult (Some cameraMessage)
                 (setScanners (<[h := withState s NOT_STARTED]> (scanners c)) c)
          else c
      | None => c
      end
  | Decoded h now decodedText =>
      match scanners c !! h with
      | Some s =>
          if bool_decide (state s = SCANNING)
          then qrCodeSuccessCallback P (seenScanResult s) now decodedText c
          else c
      | None => c
      end
  | ClickScanAgain =>
      match scanResult c with
      | Some _ => handleRetry c
      | None => c
      end
  | NewOnScanSuccess => newOnScanSuccess c
  end.

Definition step (P : Platform) (c : Component) (e : Event) : Component :=
  commit (handle P c e).

(** The component after mounting: the first run of the effect. *)
Definition mounted : Component := commit initial.

Definition run (P : Platform) (es : list Event) : Component :=
  foldl (step P) mounted es.

(** The session is scanning: no error is shown and the scanner that the
    reference holds is capturing. *)
Definition Scanning (c : Component) : Prop :=
  scanResult c = None ∧ state <$> current c = Some SCANNING.

End QRCodeScanner.


(* ===================================================================== *)
(** ** The scan session as a state machine *)
(* ===================================================================== *)

(** The phases that a mounted [QRCodeScanner] goes through while the host
    keeps its callback, read off its state, and the table of their
    transitions. The properties further down show that the component
    follows the table. *)
Module ScanSession.
Import JS QRCodeScanner.

(** React when the component is removed (the host closes the modal): the
    cleanup that the last run of the effect returned is called, if it
    returned one. *)
Definition unmount (c : Component) : Component :=
  if hasCleanup c then cleanup c else c.

Inductive Phase :=
| Acquiring        (* no error; the camera of the scanner held is starting *)
| Live             (* no error; the scanner held is capturing and listens *)
| Done             (* the host was notified; the scanner held is paused *)
| ErrorAcquiring   (* error shown; the camera of a re-created scanner is starting *)
| ErrorLive        (* error shown; the re-created scanner is capturing *)
| CameraFailed     (* error shown; the camera of the scanner held did not start *)
| Dead             (* no error; the scanner held never started and never will *)
| StaleAcquiring   (* no error; starting a scanner whose callback saw an error *)
| StaleLive.       (* no error; capturing with a callback that saw an error *)

#[global] Instance Phase_eq_dec : EqDecision Phase.
Proof. solve_decision. Defined.

(** The phase a component is in: by the error shown, whether the last run
    of the effect returned a cleanup, the state of the scanner held, the
    [scanResult] its callback saw, and the notifications made. *)
Definition phase (c : Component) : option Phase :=
  s ← current c;
  match scanResult c, hasCleanup c, state s, starting s, seenScanResult s, notified c with
  | None, true, NOT_STARTED, true, None, [] => Some Acquiring
  | None, true, SCANNING, false, None, [] => Some Live
  | None, true, PAUSED, false, None, [_] => Some Done
  | Some _, true, NOT_STARTED, true, Some _, [] => Some ErrorAcquiring
  | Some _, true, SCANNING, false, Some _, [] => Some ErrorLive
  | Some _, false, NOT_STARTED, false, _, [] => Some CameraFailed
  | None, false, NOT_STARTED, false, _, [] => Some Dead
  | None, false, NOT_STARTED, true, Some _, [] => Some StaleAcquiring
  | None, false, SCANNING, false, Some _, [] => Some StaleLive
  | _, _, _, _, _, _ => None
  end.

(** What an event means to the session. *)
Inductive Input :=
| CameraOn          (* the camera of the scanner held has started *)
| CameraRefused     (* the camera of the scanner held could not start *)
| Accepted          (* the scanner held read a code that validates *)
| Rejected          (* the scanner held read a code that does not *)
| ScanAgain         (* the button of the error overlay *)
| NewCallback       (* the host has passed another [onScanSuccess] *)
| Other.            (* an event of a scanner that is no longer held *)

#[global] Instance Input_eq_dec : EqDecision Input.
Proof. solve_decision. Defined.

Definition input (P : Platform) (c : Component) (e : Event) : Input :=
  match e with
  | StartResolved h => if decide (scannerRef c = Some h) then CameraOn else Other
  | StartRejected h => if decide (scannerRef c = Some h) then CameraRefused else Other
  | Decoded h now decodedText =>
      if decide (scannerRef c = Some h)
      then match validate P now decodedText with
           | Ok (Success _) => Accepted
           | _ => Rejected
           end
      else Other
  | ClickScanAgain => ScanAgain
  | NewOnScanSuccess => NewCallback
  end.

(** The transitions. Another [onScanSuccess] makes the effect run again:
    a capturing scanner is replaced by a new one; in three phases this takes
    the component out of the nine phases ([None]): the effect finds the
    reference set while a camera is starting and registers no cleanup, or
    starts a scanner anew after the host was notified. Every other input
    leaves the phase as it is. *)
Definition next (p : Phase) (i : Input) : option Phase :=
  match p, i with
  | Acquiring, CameraOn => Some Live
  | Acquiring, CameraRefused => Some CameraFailed
  | Live, Accepted => Some Done
  | Live, Rejected => Some ErrorAcquiring
  | ErrorAcquiring, CameraOn => Some ErrorLive
  | ErrorAcquiring, CameraRefused => Some CameraFailed
  | ErrorAcquiring, ScanAgain => Some StaleAcquiring
  | ErrorLive, ScanAgain => Some Acquiring
  | CameraFailed, ScanAgain => Some Dead
  | StaleAcquiring, CameraOn => Some StaleLive
  | StaleAcquiring, CameraRefused => Some CameraFailed
  | Live, NewCallback => Some Acquiring
  | ErrorLive, NewCallback => Some ErrorAcquiring
  | (Acquiring | ErrorAcquiring | Done), NewCallback => None
  | _, _ => Some p
  end.

(** The host passes the same function for [onScanSuccess] in every
    render. *)
Definition stableCallback (es : list Event) : Prop :=
  Forall (λ e, e ≠ NewOnScanSuccess) es.

(** No scanner other than the one held is capturing, paused or
    starting. *)
Definition othersOff (c : Component) : Prop :=
  ∀ h s, scanners c !! h = Some s → scannerRef c ≠ Some h →
         state s = NOT_STARTED ∧ starting s = false.

(** No effect is pending, and no scanner other than the one held is
    capturing or starting. *)
Definition Settled (c : Component) : Prop :=
  depsChanged c = false ∧ othersOff c.

(** The phases without a way back to [Live]: the host is never notified
    from them. *)
Definition deaf (p : Phase) : bool :=
  match p with
  | CameraFailed | Dead | StaleAcquiring | StaleLive => true
  | _ => false
  end.

(** The phases in which the error overlay is shown. *)
Definition errorShown (p : Phase) : bool :=
  match p with
  | ErrorAcquiring | ErrorLive | CameraFailed => true
  | _ => false
  end.

(** Every camera is off: no scanner is capturing, paused or starting. *)
Definition camerasOff (c : Component) : Prop :=
  ∀ h s, scanners c !! h = Some s → state s = NOT_STARTED ∧ starting s = false.

End ScanSession.

(* ===================================================================== *)
(** ** Plain objects *)
(* ===================================================================== *)

(** An object created by the literal [{}] and filled by assignments
    [o[k] = v]: its own properties in the order of their creation. Reading
    a key that is not an own property goes to [Object.prototype]. *)
Module PlainObject.

Abbreviation t V := (list (string * V)) (only parsing).

(** The property names of the standard [Object.prototype]. Each of them
    reads as a function, but [__proto__], which reads as the prototype
    itself: all truthy. *)
Definition prototypeKeys : list string :=
  [ "constructor"; "hasOwnProperty"; "isPrototypeOf"; "propertyIsEnumerable";
    "toLocaleString"; "toString"; "valueOf"; "__proto__";
    "__defineGetter__"; "__defineSetter__"; "__lookupGetter__"; "__lookupSetter__" ].

Definition inherited (k : string) : bool := bool_decide (k ∈ prototypeKeys).

(** The text that a template literal makes of an inherited value. For a
    built-in function it is its source text, which the standard gives as
    [function name() { [native code] }] up to white space; it is written here
    as V8 and JavaScriptCore write it. [__proto__] reads as
    [Object.prototype] itself, whose text is [[object Object]]. *)
Definition inheritedText (k : string) : string :=
  if String.eqb k "__proto__" then "[object Object]"
  else "function " ++ (if String.eqb k "constructor" then "Object" else k)
       ++ "() { [native code] }".

(** The own property [k], if there is one. *)
Fixpoint get {V} (o : t V) (k : string) : option V :=
  match o with
  | [] => None
  | (k', v) :: o' => if String.eqb k' k then Some v else get o' k
  end.

(** [o[k] = v]: an own property keeps its place, a new one comes last. *)
Fixpoint set {V} (o : t V) (k : string) (v : V) : t V :=
  match o with
  | [] => [(k, v)]
  | (k', v') :: o' =>
      if String.eqb k' k then (k', v) :: o' else (k', v') :: set o' k v
  end.

(** [o[k].p = f(o[k].p)]: the value of the own property [k] is changed
    in place. *)
Fixpoint modify {V} (o : t V) (k : string) (f : V → V) : t V :=
  match o with
  | [] => []
  | (k', v) :: o' =>
      if String.eqb k' k then (k', f v) :: o' else (k', v) :: modify o' k f
  end.

(** A key is an array index when it is the canonical text of an integer
    from 0 to [2^32 - 2]. *)
Definition arrayIndex (k : string) : option N :=
  let l := list_ascii_of_string k in
  let digit (c : ascii) := (48 <=? N_of_ascii c)%N && (N_of_ascii c <=? 57)%N in
  match l with
  | [] => None
  | c :: r =>
      if forallb digit l && (negb (N_of_ascii c =? 48)%N || bool_decide (r = []))
      then let n := foldl (λ n d, 10 * n + (N_of_ascii d - 48))%N 0%N l in
           if (n <? 2 ^ 32 - 1)%N then Some n else None
      else None
  end.

Fixpoint insertIndex {A} (n : N) (x : A) (l : list (N * A)) : list (N * A) :=
  match l with
  | [] => [(n, x)]
  | (m, y) :: r => if (n <? m)%N then (n, x) :: l else (m, y) :: insertIndex n x r
  end.

(** [Object.entries(o)], and the order in which [for (k in o)] visits the
    own properties: the array indices in ascending order, then the other
    keys in the order of their creation. *)
Definition entries {V} (o : t V) : list (string * V) :=
  map snd
    (foldr (λ e acc, match arrayIndex e.1 with
                     | Some n => insertIndex n e acc
                     | None => acc
                     end) [] o)
  ++ filter (λ e, arrayIndex e.1 = None) o.

(** [Object.keys(o)] *)
Definition keys {V} (o : t V) : list string := map fst (entries o).

End PlainObject.

(* ===================================================================== *)
(** ** GeminiService *)
(* ===================================================================== *)

Module GeminiService.
Import JS.

(** What the hosted model's client resolves to; [text] may be undefined. *)
Record GenerateContentResponse := { text : option string }.

Inductive Part :=
| TextPart (text : string)
| InlineData (mimeType data : string).

(** The five [responseSchema] literals. *)
Inductive Schema :=
| learningPathSchema
| predictionSchema
| insightsSchema
| suggestionsSchema
| faceMatchSchema.

(** The argument of [ai.models.generateContent]. *)
Record Request := {
  model : string;
  contents : list Part;
  responseMimeType : string;
  responseSchema : Schema;
}.

(** The prompt that each function interpolates from its arguments before
    it sends the request. The arguments are the caller's untyped objects;
    evaluating the interpolation throws when an argument lacks the shape
    its type annotation promises. *)
Record Prompts := {
  personalizedLearningPathPrompt : Value → Exc string;
  studentInitiatedLearningPathPrompt : Value → string → Exc string;
  performancePredictionPrompt : Value → Exc string;
  progressInsightsPrompt : Value → string → Exc string;
  activitySuggestionsPrompt : Value → Exc string;
  faceMatchPrompt : string;
}.

(** The hosted model: how it settles a request, and a message sent on the
    chat session with a given index. *)
Record Remote := {
  generateContent : Request → Exc GenerateContentResponse;
  sendMessage : nat → string → Exc GenerateContentResponse;
}.

Definition jsonRequest (prompt : list Part) (schema : Schema) : Request :=
  {| model := "gemini-2.5-flash"; contents := prompt;
     responseMimeType := "application/json"; responseSchema := schema |}.

(** [JSON.parse(response.text.trim())] *)
Definition parseResponse (P : Platform) (response : GenerateContentResponse)
  : Exc Value :=
  match text response with
  | None => Throw (TypeError "Cannot read properties of undefined")
  | Some t => JSON_parse P (trim t)
  end.

(** The [catch] block of the five structured functions: it logs the
    error and returns [null]. *)
Definition returnNull (error : Error) : Exc Value := mret JNull.

Definition generatePersonalizedLearningPath (P : Platform) (T : Prompts)
    (R : Remote) (student : Value) : Exc Value :=
  tryCatch
    (prompt ← personalizedLearningPathPrompt T student;
     response ← generateContent R (jsonRequest [TextPart prompt] learningPathSchema);
     parseResponse P response)
    returnNull.

Definition generateStudentInitiatedLearningPath (P : Platform) (T : Prompts)
    (R : Remote) (formData : Value) (studentName : string) : Exc Value :=
  tryCatch
    (prompt ← studentInitiatedLearningPathPrompt T formData studentName;
     response ← generateContent R (jsonRequest [TextPart prompt] learningPathSchema);
     parseResponse P response)
    returnNull.

Definition predictStudentPerformance (P : Platform) (T : Prompts)
    (R : Remote) (student : Value) : Exc Value :=
  tryCatch
    (prompt ← performancePredictionPrompt T student;
     response ← generateContent R (jsonRequest [TextPart prompt] predictionSchema);
     parseResponse P response)
    returnNull.

Definition generateProgressInsights (P : Platform) (T : Prompts)
    (R : Remote) (progressData : Value) (studentName : string) : Exc Value :=
  tryCatch
    (prompt ← progressInsightsPrompt T progressData studentName;
     response ← generateContent R (jsonRequest [TextPart prompt] insightsSchema);
     parseResponse P response)
    returnNull.

Definition generateActivitySuggestions (P : Platform) (T : Prompts)
    (R : Remote) (student : Value) : Exc Value :=
  tryCatch
    (prompt ← activitySuggestionsPrompt T student;
     response ← generateContent R (jsonRequest [TextPart prompt] suggestionsSchema);
     parseResponse P response)
    returnNull.

Definition verifyFaceMatch (P : Platform) (T : Prompts) (R : Remote)
    (registeredImageBase64 liveImageBase64 : string) : Exc Value :=
  tryCatch
    (let registeredImagePart := InlineData "image/png" registeredImageBase64 in
     let liveImagePart := InlineData "image/png" liveImageBase64 in
     let textPart := TextPart (faceMatchPrompt T) in
     response ← generateContent R
       (jsonRequest [textPart; registeredImagePart; liveImagePart] faceMatchSchema);
     parseResponse P response)
    returnNull.

(** The five structured operations and their arguments, to speak of all
    of them at once. *)
Inductive Operation :=
| PersonalizedLearningPath (student : Value)
| StudentInitiatedLearningPath (formData : Value) (studentName : string)
| StudentPerformance (student : Value)
| ProgressInsights (progressData : Value) (studentName : string)
| ActivitySuggestions (student : Value)
| FaceMatch (registeredImageBase64 liveImageBase64 : string).

Definition invoke (P : Platform) (T : Prompts) (R : Remote) (op : Operation)
  : Exc Value :=
  match op with
  | PersonalizedLearningPath student =>
      generatePersonalizedLearningPath P T R student
  | StudentInitiatedLearningPath formData studentName =>
      generateStudentInitiatedLearningPath P T R formData studentName
  | StudentPerformance student => predictStudentPerformance P T R student
  | ProgressInsights progressData studentName =>
      generateProgressInsights P T R progressData studentName
  | ActivitySuggestions student => generateActivitySuggestions P T R student
  | FaceMatch registered live => verifyFaceMatch P T R registered live
  end.

(** The request an operation sends, once its prompt is built. *)
Definition requestOf (T : Prompts) (op : Operation) : Exc Request :=
  match op with
  | PersonalizedLearningPath student =>
      prompt ← personalizedLearningPathPrompt T student;
      mret (jsonRequest [TextPart prompt] learningPathSchema)
  | StudentInitiatedLearningPath formData studentName =>
      prompt ← studentInitiatedLearningPathPrompt T formData studentName;
      mret (jsonRequest [TextPart prompt] learningPathSchema)
  | StudentPerformance student =>
      prompt ← performancePredictionPrompt T student;
      mret (jsonRequest [TextPart prompt] predictionSchema)
  | ProgressInsights progressData studentName =>
      prompt ← progressInsightsPrompt T progressData studentName;
      mret (jsonRequest [TextPart prompt] insightsSchema)
  | ActivitySuggestions student =>
      prompt ← activitySuggestionsPrompt T student;
      mret (jsonRequest [TextPart prompt] suggestionsSchema)
  | FaceMatch registered live =>
      mret (jsonRequest [TextPart (faceMatchPrompt T);
                         InlineData "image/png" registered;
                         InlineData "image/png" live] faceMatchSchema)
  end.

(** *** The chat *)

(** Modelled from the spec: the types module is not part of the sources.
    A chat message as [getChatbotResponse] reads it. *)
Record ChatMessage := { sender : string; messageText : string }.

Record Content := { role : string; parts : list string }.

(** The argument of [ai.chats.create]; the session it returns is referred
    to by its index among the sessions created. *)
Record Chat := {
  chatModel : string;
  systemInstruction : string;
  chatHistory : list Content;
}.

(** The module's state: the cache [chatHistories] and the sessions that
    [ai.chats.create] has returned so far. *)
Record Service := {
  chatHistories : gmap string nat;
  chats : list Chat;
}.

Definition fresh : Service := {| chatHistories := ∅; chats := [] |}.

Definition historyKey (lang context : string) : string :=
  "chat-session-" ++ lang ++ "-" ++ String.substring 0 20 context.

(** The lookup in the object literal, with its default, as the text that
    the template makes of it. A tag that names a property of
    [Object.prototype] reads as that property, which is truthy. *)
Definition languageName (lang : string) : string :=
  if String.eqb lang "en-IN" then "English (Indian accent)"
  else if String.eqb lang "hi-IN" then "Hindi"
  else if String.eqb lang "mr-IN" then "Marathi"
  else if PlainObject.inherited lang then PlainObject.inheritedText lang
  else "English".

Definition instruction (languageName context : string) : string :=
  "You are a helpful AI assistant for a smart education platform. Your primary role is to assist students, teachers, and parents.
                --- IMPORTANT INSTRUCTION ---
                You MUST reply in the " ++ languageName ++ " language.
                Current context: " ++ context ++ ".
                Base your answers on this context whenever relevant.
                Keep your responses concise and helpful.
                If you don't know the answer, say that you don't have enough information.".

Definition newChat (history : list ChatMessage) (context lang : string) : Chat :=
  {| chatModel := "gemini-2.5-flash";
     systemInstruction := instruction (languageName lang) context;
     chatHistory :=
       map (λ msg, {| role := if String.eqb (sender msg) "user"
                              then "user" else "model";
                      parts := [messageText msg] |}) history |}.

(** Lines 20 to 49 of [getChatbotResponse]: the session the call talks
    to, and the state after the lookup. Constructing a session sends
    nothing and is taken not to throw. *)
Definition obtainChat (history : list ChatMessage) (context lang : string)
    (st : Service) : nat * Service :=
  match chatHistories st !! historyKey lang context with
  | Some chat => (chat, st)
  | None =>
      let chat := length (chats st) in
      (chat, {| chatHistories := <[historyKey lang context := chat]> (chatHistories st);
                chats := chats st ++ [newChat history context lang] |})
  end.

Definition noResponseText : string :=
  "I'm sorry, I couldn't generate a response. Please try again.".
Definition troubleText : string :=
  "Sorry, I'm having trouble connecting to my brain right now. Please try again later.".

Definition getChatbotResponse (R : Remote) (prompt : string)
    (history : list ChatMessage) (context lang : string) (st : Service)
  : Exc string * Service :=
  let '(chat, st') := obtainChat history context lang st in
  (tryCatch
     (result ← sendMessage R chat prompt;
      match text result with
      | None => mret noResponseText
      | Some responseText =>
          if String.eqb responseText "" then mret noResponseText
          else mret responseText
      end)
     (λ error, mret troubleText),
   st').

(** One call of [getChatbotResponse], and the state after a sequence. *)
Record Call := {
  callPrompt : string;
  callHistory : list ChatMessage;
  callContext : string;
  callLang : string;
}.

(** The cache key of a call. *)
Definition keyOf (c : Call) : string := historyKey (callLang c) (callContext c).

Definition call (R : Remote) (st : Service) (c : Call) : Exc string * Service :=
  getChatbotResponse R (callPrompt c) (callHistory c) (callContext c) (callLang c) st.

Definition serve (R : Remote) (cs : list Call) (st : Service) : Service :=
  foldl (λ st c, snd (call R st c)) st cs.

(** The session a call talks to in a given state. *)
Definition sessionOf (c : Call) (st : Service) : nat :=
  fst (obtainChat (callHistory c) (callContext c) (callLang c) st).

End GeminiService.

(* ===================================================================== *)
(** ** More of JavaScript: arithmetic, number formatting, plain objects *)
(* ===================================================================== *)

(** The built-in operations that the advisory functions apply to the
    student's data. *)
Module Builtins.
Import JS.

(** [a * b] *)
Definition mul (a b : number) : number :=
  match a, b with
  | NaN, _ | _, NaN => NaN
  | Infinity s, Infinity t => Infinity (xorb s t)
  | Infinity s, Finite y =>
      if Qeq_bool y 0 then NaN else Infinity (xorb s (Qlt_bool y 0))
  | Finite x, Infinity t =>
      if Qeq_bool x 0 then NaN else Infinity (xorb (Qlt_bool x 0) t)
  | Finite x, Finite y => round (x * y)
  end.

(** [a < b]: false as soon as one side is [NaN]. *)
Definition lt (a b : number) : bool := gt b a.

(** A number other than [NaN] and the infinities. *)
Definition finite (n : number) : Prop := ∃ q, n = Finite q.

(** The decimal digits of a natural number. *)
Definition decimal (n : Z) : string := NilZero.string_of_uint (N.to_uint (Z.to_N n)).

(** The text of [n] tenths: the digits of [n], with a point before the
    last one and a zero before the point when there is one digit only. *)
Definition tenths (n : Z) : string :=
  decimal (n / 10) ++ "." ++ decimal (n mod 10).

(** [x.toFixed(1)]. The standard takes the integer [n] for which [n / 10]
    is nearest to the exact value of [x], the larger one of two, and writes
    it as tenths. From [10^21] on the result is the exponent notation of
    [ToString], which is left out here: [None]. *)
Definition toFixed1 (x : number) : option string :=
  match x with
  | NaN => Some "NaN"
  | Infinity s => Some (if s then "-Infinity" else "Infinity")
  | Finite q =>
      let s := if Qlt_bool q 0 then "-" else "" in
      let x := Qabs q in
      if Qle_bool (inject_Z (10 ^ 21)) x then None
      else Some (s ++ tenths (Qfloor (x * 10 + (1 # 2))))
  end.

(** [items.join(separator)] *)
Fixpoint join (separator : string) (items : list string) : string :=
  match items with
  | [] => ""
  | [x] => x
  | x :: rest => x ++ separator ++ join separator rest
  end.

End Builtins.

(* ===================================================================== *)
(** ** The analysis of the student's data in the advisory functions *)
(* ===================================================================== *)

(** What [generatePersonalizedLearningPath], [predictStudentPerformance]
    and [generateActivitySuggestions] compute from their argument before
    they interpolate the prompt, for an argument of the declared type. *)
Module Advisory.
Import JS Builtins.

(** Modelled from the spec: the types module is not part of the sources.
    The spec names the student record and the academic progress as inputs of
    the service; the records below have the fields that the functions read,
    each with the type that its use shows. *)
Module AttendanceRecord.
Record t := mk { subject : string; status : string }.
End AttendanceRecord.

Module SubjectProgress.
Record t := mk {
  subjectName : string;
  overallGrade : string;
  teacherFeedback : string;
}.
End SubjectProgress.

Module LearningPath.
Record t := mk { overall_summary : string }.
End LearningPath.

Module Student.
Record t := mk {
  id : string;
  name : string;
  attendance : list AttendanceRecord.t;
  progress : list SubjectProgress.t;
  learningPath : option LearningPath.t;
}.
End Student.

(** [{ present, total }]; the counts are integers far below [2^53], on
    which [++] is exact. *)
Record Stat := { present : Z; total : Z }.

(** [record.status === 'Present'] *)
Definition isPresent (record : AttendanceRecord.t) : bool :=
  String.eqb (AttendanceRecord.status record) "Present".

(** The callback of [student.attendance.forEach]. A subject that names a
    property of [Object.prototype] reads as that property, which is truthy:
    no entry is created, and the two increments land on the inherited value,
    out of the sight of [subjectStats]. (For [__proto__] they land on
    [Object.prototype] itself; the two properties this creates are visited by
    [for ... in] with the percentage [NaN], which no comparison keeps, and
    read as falsy where a subject is looked up.) *)
Definition count (subjectStats : PlainObject.t Stat) (record : AttendanceRecord.t)
  : PlainObject.t Stat :=
  let subject := AttendanceRecord.subject record in
  if PlainObject.inherited subject then subjectStats
  else
    let subjectStats :=
      match PlainObject.get subjectStats subject with
      | None => PlainObject.set subjectStats subject {| present := 0; total := 0 |}
      | Some _ => subjectStats
      end in
    let subjectStats :=
      if isPresent record
      then PlainObject.modify subjectStats subject
             (λ s, {| present := present s + 1; total := total s |})
      else subjectStats in
    PlainObject.modify subjectStats subject
      (λ s, {| present := present s; total := total s + 1 |}).

Definition subjectStats (attendance : list AttendanceRecord.t) : PlainObject.t Stat :=
  foldl count [] attendance.

(** [(subjectStats[subject].present / subjectStats[subject].total) * 100] *)
Definition percentage (s : Stat) : number :=
  mul (div (ofZ (present s)) (ofZ (total s))) (ofZ 100).

(** The four variables of the search for the weakest and the strongest
    subject. *)
Record Extremes := {
  weakestSubject : string;
  strongestSubject : string;
  minPercentage : number;
  maxPercentage : number;
}.

(** The body of [for (const subject in subjectStats)]. *)
Definition compare (e : Extremes) (entry : string * Stat) : Extremes :=
  let '(subject, s) := entry in
  let percentage := percentage s in
  let e :=
    if lt percentage (minPercentage e)
    then {| weakestSubject := subject; strongestSubject := strongestSubject e;
            minPercentage := percentage; maxPercentage := maxPercentage e |}
    else e in
  if gt percentage (maxPercentage e)
  then {| weakestSubject := weakestSubject e; strongestSubject := subject;
          minPercentage := minPercentage e; maxPercentage := percentage |}
  else e.

(** The loop, from the initial values [101] and [-1]; [none] is the name
    both subjects start with. *)
Definition extremes (none : string) (subjectStats : PlainObject.t Stat) : Extremes :=
  foldl compare
    {| weakestSubject := none; strongestSubject := none;
       minPercentage := ofZ 101; maxPercentage := ofZ (-1) |}
    (PlainObject.entries subjectStats).

(** [totalAttendance > 0 ? (presentCount / totalAttendance) * 100 : 100] *)
Definition attendancePercentage (attendance : list AttendanceRecord.t) : number :=
  let totalAttendance := Z.of_nat (length attendance) in
  let presentCount := Z.of_nat (length (filter (λ a, isPresent a = true) attendance)) in
  if (0 <? totalAttendance)%Z
  then mul (div (ofZ presentCount) (ofZ totalAttendance)) (ofZ 100)
  else ofZ 100.

(** *** [generatePersonalizedLearningPath], lines 70 to 112 *)

(** An element of [subject_performance]: [{ subject, score }]. *)
Record SubjectPerformance := { performanceSubject : string; score : string }.

Record InputData := {
  student_id : string;
  attendance_percentage : string;
  subject_performance : list SubjectPerformance;
  weakest_subject : string;
  strongest_subject : string;
}.

Definition subjectPerformance (entry : string * Stat) : option SubjectPerformance :=
  text ← toFixed1 (percentage entry.2);
  Some {| performanceSubject := entry.1; score := text ++ "% attendance" |}.

Definition inputData (student : Student.t) : option InputData :=
  let stats := subjectStats (Student.attendance student) in
  let e := extremes "General Studies" stats in
  overall ← toFixed1 (attendancePercentage (Student.attendance student));
  performance ← mapM subjectPerformance (PlainObject.entries stats);
  Some {| student_id := Student.id student;
          attendance_percentage := overall;
          subject_performance := performance;
          weakest_subject := weakestSubject e;
          strongest_subject := strongestSubject e |}.

(** *** [predictStudentPerformance], lines 252 to 287 *)

(** What the prompt interpolates. *)
Record PredictionData := {
  overallAttendance : string;        (* [attendancePercentage.toFixed(1)] *)
  strongest : string;
  weakest : string;
  learningPathSummary : string;
}.

Definition quote : string := String (ascii_of_nat 34) EmptyString.
Definition newline : string := String (ascii_of_nat 10) EmptyString.

(** [weakestSubject] and [strongestSubject] after the guarded loop. *)
Definition predictionExtremes (subjectStats : PlainObject.t Stat) : string * string :=
  if bool_decide (0 < length (PlainObject.keys subjectStats))%nat
  then let e := extremes "N/A" subjectStats in (weakestSubject e, strongestSubject e)
  else ("N/A", "N/A").

Definition predictionData (student : Student.t) : option PredictionData :=
  let '(weakestSubject, strongestSubject) :=
    predictionExtremes (subjectStats (Student.attendance student)) in
  overall ← toFixed1 (attendancePercentage (Student.attendance student));
  Some {| overallAttendance := overall;
          strongest := strongestSubject;
          weakest := weakestSubject;
          learningPathSummary :=
            match Student.learningPath student with
            | Some path =>
                "The student has an active learning plan: " ++ quote
                ++ LearningPath.overall_summary path ++ quote
            | None =>
                "The student does not currently have an AI-generated learning plan."
            end |}.

(** *** [generateActivitySuggestions], lines 407 to 428 *)

(** A value of [highAttendanceSubjects]: a count, or the text that
    [+ 1] makes of an inherited function. *)
Inductive Tally :=
| Count (n : Z)
| Text.

(** The callback of [reduce]: [acc[curr.subject] = (acc[curr.subject] || 0) + 1].
    An inherited function is truthy and [+ 1] turns it into a text, which
    the assignment stores as an own property; the assignment of a text to
    [__proto__] is ignored. *)
Definition tally (acc : PlainObject.t Tally) (curr : AttendanceRecord.t)
  : PlainObject.t Tally :=
  let subject := AttendanceRecord.subject curr in
  match PlainObject.get acc subject with
  | Some (Count n) => PlainObject.set acc subject (Count (n + 1))
  | Some Text => PlainObject.set acc subject Text
  | None =>
      if PlainObject.inherited subject
      then if String.eqb subject "__proto__" then acc
           else PlainObject.set acc subject Text
      else PlainObject.set acc subject (Count 1)
  end.

Definition highAttendanceSubjects (attendance : list AttendanceRecord.t)
  : PlainObject.t Tally :=
  foldl tally [] (filter (λ a, isPresent a = true) attendance).

(** [(a, b) => b[1] - a[1]]; [None] is [NaN]. *)
Definition comparator (a b : string * Tally) : option Z :=
  match b.2, a.2 with
  | Count y, Count x => Some (y - x)%Z
  | _, _ => None
  end.

(** [a] is to come before [b]: the comparator is negative. *)
Definition sortsBefore (a b : string * Tally) : bool :=
  match comparator a b with
  | Some v => (v <? 0)%Z
  | None => false
  end.

Fixpoint insert (x : string * Tally) (l : list (string * Tally))
  : list (string * Tally) :=
  match l with
  | [] => [x]
  | y :: r => if sortsBefore y x then y :: insert x r else x :: l
  end.

(** [entries.sort(comparator)]. The sort of the standard is stable, which
    fixes its result whenever the comparator is consistent, as it is on
    counts; insertion gives that result. Where texts make the comparator
    [NaN] the standard leaves the order to the implementation. *)
Definition sort (l : list (string * Tally)) : list (string * Tally) :=
  foldr insert [] l.

Definition sortedSubjects (attendance : list AttendanceRecord.t)
  : list (string * Tally) :=
  sort (PlainObject.entries (highAttendanceSubjects attendance)).

Definition performanceSummary (student : Student.t) : string :=
  let performanceSummary :=
    "The student, " ++ Student.name student
    ++ ", has the following academic profile:" ++ newline in
  let performanceSummary :=
    if bool_decide (0 < length (Student.progress student))%nat
    then foldl (λ summary subject,
                  summary ++ "- In " ++ SubjectProgress.subjectName subject
                  ++ ", their overall grade is " ++ SubjectProgress.overallGrade subject
                  ++ ". Teacher feedback: " ++ quote
                  ++ SubjectProgress.teacherFeedback subject ++ quote ++ newline)
           performanceSummary (Student.progress student)
    else performanceSummary
         ++ "- No detailed academic progress data is available." ++ newline in
  let sortedSubjects := sortedSubjects (Student.attendance student) in
  if bool_decide (0 < length sortedSubjects)%nat
  then performanceSummary ++ "- They have high attendance in: "
       ++ join ", " (map fst (take 2 sortedSubjects)) ++ "." ++ newline
  else performanceSummary.

(** *** Notions to state the properties with *)

(** The records of a subject. *)
Definition recordsOf (k : string) (attendance : list AttendanceRecord.t)
  : list AttendanceRecord.t :=
  filter (λ r, AttendanceRecord.subject r = k) attendance.

(** The number of present records of a subject. *)
Definition presences (k : string) (attendance : list AttendanceRecord.t) : Z :=
  Z.of_nat (length (recordsOf k (filter (λ a, isPresent a = true) attendance))).

(** The count a value stands for; a text stands for none. *)
Definition countOf (x : string * Tally) : Z :=
  match x.2 with Count n => n | Text => 0%Z end.

Definition isCount (x : string * Tally) : Prop := ∃ n, x.2 = Count n.

(** The elements of a list, each at its first occurrence. *)
Definition firstOccurrences (l : list string) : list string :=
  foldl (λ seen k, if decide (k ∈ seen) then seen else (seen ++ [k])%list) [] l.

(** One pass of a loop that keeps the first best of a list: the loop of
    [compare] does it twice, for the least and for the greatest percentage. *)
Definition pick {A} (value : A → number) (better : number → number → bool)
    (best : string * number) (x : string * A) : string * number :=
  if better (value x.2) best.2 then (x.1, value x.2) else best.

End Advisory.

(* ===================================================================== *)
(** ** An executable platform *)
(* ===================================================================== *)

(** [atob], [JSON.parse] and the number coercions as the standards define
    them, over strings of 8-bit code units; a number literal denotes the
    double nearest to the rational it spells. They serve to run the
    components on concrete texts; no theorem about the components depends
    on how they are written. *)
Module Browser.
Import JS.

#[local] Open Scope N_scope.

Definition code (c : ascii) : N := N_of_ascii c.
Definition chars (s : string) : list ascii := list_ascii_of_string s.
Definition isDigit (c : ascii) : bool := (48 <=? code c) && (code c <=? 57).
Definition isCode (n : N) (c : ascii) : bool := code c =? n.

(** *** Forgiving base64 *)

Definition sextet (c : ascii) : option N :=
  let n := code c in
  if (65 <=? n) && (n <=? 90) then Some (n - 65)
  else if (97 <=? n) && (n <=? 122) then Some (n - 71)
  else if (48 <=? n) && (n <=? 57) then Some (n + 4)
  else if n =? 43 then Some 62
  else if n =? 47 then Some 63
  else None.

Definition isAsciiWhitespace (c : ascii) : bool :=
  isCode 9 c || isCode 10 c || isCode 12 c || isCode 13 c || isCode 32 c.

(** Drops one or two trailing [=] when the length is a multiple of four. *)
Definition stripPadding (l : list ascii) : list ascii :=
  if (N.of_nat (length l) mod 4 =? 0)
  then match rev l with
       | a :: b :: r =>
           if isCode 61 a then (if isCode 61 b then rev r else rev (b :: r)) else l
       | _ => l
       end
  else l.

Fixpoint sextets (l : list ascii) : option (list N) :=
  match l with
  | [] => Some []
  | c :: r => x ← sextet c; xs ← sextets r; Some (x :: xs)
  end.

Fixpoint octets (l : list N) : list N :=
  match l with
  | a :: b :: c :: d :: r =>
      let w := a * 262144 + b * 4096 + c * 64 + d in
      w / 65536 :: (w / 256) mod 256 :: w mod 256 :: octets r
  | [a; b; c] => let w := (a * 4096 + b * 64 + c) / 4 in [w / 256; w mod 256]
  | [a; b] => [(a * 64 + b) / 16]
  | _ => []
  end.

Definition InvalidCharacterError : Error :=
  mkError "InvalidCharacterError" "The string to be decoded is not correctly encoded.".

Definition atob (data : string) : Exc string :=
  let l := stripPadding (filter (λ c, negb (isAsciiWhitespace c)) (chars data)) in
  if (N.of_nat (length l) mod 4 =? 1) then Throw InvalidCharacterError
  else match sextets l with
       | None => Throw InvalidCharacterError
       | Some xs => Ok (string_of_list_ascii (map ascii_of_N (octets xs)))
       end.

(** *** Number literals *)

Fixpoint digits (l : list ascii) : list N * list ascii :=
  match l with
  | c :: r => if isDigit c
              then let '(ds, r') := digits r in (code c - 48 :: ds, r')
              else ([], l)
  | [] => ([], [])
  end.

Definition natural (ds : list N) : N := foldl (λ n d, 10 * n + d) 0 ds.

(** The rational [m * 10^e]. *)
Definition scale (m : N) (e : Z) : Q :=
  match e with
  | Zneg p => Z.of_N m # Pos.pow 10 p
  | _ => inject_Z (Z.of_N m * 10 ^ e)
  end.

(** An optional exponent part: its value and the rest. A lone [e] is no
    exponent part. *)
Definition exponent (l : list ascii) : Z * list ascii :=
  match l with
  | c :: r =>
      if isCode 101 c || isCode 69 c
      then let '(neg, r1) :=
             match r with
             | s :: r' => if isCode 45 s then (true, r')
                          else if isCode 43 s then (false, r') else (false, r)
             | [] => (false, r)
             end in
           match digits r1 with
           | ([], _) => (0%Z, l)
           | (ds, r2) => ((if neg then - Z.of_N (natural ds) else Z.of_N (natural ds))%Z, r2)
           end
      else (0%Z, l)
  | [] => (0%Z, l)
  end.

(** An unsigned decimal literal, generous as StrDecimalLiteral is:
    digits, digits with a fraction, or a fraction alone. *)
Definition decimal (l : list ascii) : option (Q * list ascii) :=
  let '(ip, r) := digits l in
  let '(fp, r1, dot) :=
    match r with
    | c :: r' => if isCode 46 c then let '(fp, r1) := digits r' in (fp, r1, true)
                 else ([], r, false)
    | [] => ([], r, false)
    end in
  match ip, fp with
  | [], [] => None
  | _, _ =>
      let '(e, r2) := exponent r1 in
      Some (scale (natural (ip ++ fp)) (e - Z.of_nat (length fp)), r2)
  end.

(** A JSON number: no sign but [-], no leading zero, digits on both sides
    of the point. *)
Definition jsonNumber (l : list ascii) : option (Q * list ascii) :=
  let '(neg, l1) :=
    match l with
    | c :: r => if isCode 45 c then (true, r) else (false, l)
    | [] => (false, l)
    end in
  let '(ip, r) := digits l1 in
  let wellFormed :=
    match ip with
    | [] => false
    | [_] => true
    | d :: _ => negb (d =? 0)
    end
    && match r with
       | c :: r' => if isCode 46 c
                    then match r' with d :: _ => isDigit d | [] => false end
                    else true
       | [] => true
       end in
  if wellFormed
  then '(q, rest) ← decimal l1; Some ((if neg then - q else q)%Q, rest)
  else None.

Fixpoint hexDigits (base : N) (l : list ascii) (acc : N) : option N :=
  match l with
  | [] => Some acc
  | c :: r =>
      let n := code c in
      let d := if isDigit c then Some (n - 48)
               else if (97 <=? n) && (n <=? 102) then Some (n - 87)
               else if (65 <=? n) && (n <=? 70) then Some (n - 55)
               else None in
      match d with
      | Some d => if d <? base then hexDigits base r (base * acc + d) else None
      | None => None
      end
  end.

(** StringToNumber. *)
Definition StringToNumber (s : string) : number :=
  let l := chars (trim s) in
  let unsigned (l : list ascii) : number :=
    if String.eqb (string_of_list_ascii l) "Infinity" then Infinity false
    else match decimal l with
         | Some (q, []) => JS.round q
         | _ => NaN
         end in
  match l with
  | [] => ofZ 0
  | c :: r =>
      if isCode 45 c
      then neg (unsigned r)
      else if isCode 43 c then unsigned r
      else match r with
           | x :: (_ :: _) as ds =>
               if isCode 48 c && (isCode 120 x || isCode 88 x)
               then from_option (λ n, JS.round (inject_Z (Z.of_N n))) NaN (hexDigits 16 ds 0)
               else if isCode 48 c && (isCode 111 x || isCode 79 x)
               then from_option (λ n, JS.round (inject_Z (Z.of_N n))) NaN (hexDigits 8 ds 0)
               else if isCode 48 c && (isCode 98 x || isCode 66 x)
               then from_option (λ n, JS.round (inject_Z (Z.of_N n))) NaN (hexDigits 2 ds 0)
               else unsigned l
           | _ => unsigned l
           end
  end.

(** *** JSON *)

Definition isJsonWhitespace (c : ascii) : bool :=
  isCode 9 c || isCode 10 c || isCode 13 c || isCode 32 c.

Fixpoint skip (l : list ascii) : list ascii :=
  match l with
  | c :: r => if isJsonWhitespace c then skip r else l
  | [] => []
  end.

Definition hexValue (c : ascii) : option N := hexDigits 16 [c] 0.

(** The characters of a string literal after its opening quote. Code
    units above 255 have no place in the 8-bit strings of the model, so the
    escapes that denote them are refused. *)
Fixpoint stringBody (fuel : nat) (l : list ascii) : option (list ascii * list ascii) :=
  match fuel with
  | O => None
  | S fuel =>
      match l with
      | [] => None
      | c :: r =>
          if isCode 34 c then Some ([], r)
          else if code c <? 32 then None
          else if isCode 92 c
          then match r with
               | e :: r1 =>
                   let simple (x : N) :=
                     '(s, r2) ← stringBody fuel r1; Some (ascii_of_N x :: s, r2) in
                   if isCode 34 e then simple 34
                   else if isCode 92 e then simple 92
                   else if isCode 47 e then simple 47
                   else if isCode 98 e then simple 8
                   else if isCode 102 e then simple 12
                   else if isCode 110 e then simple 10
                   else if isCode 114 e then simple 13
                   else if isCode 116 e then simple 9
                   else if isCode 117 e
                   then match r1 with
                        | a :: b :: x :: y :: r2 =>
                            hi ← hexDigits 16 [a; b] 0;
                            lo ← hexDigits 16 [x; y] 0;
                            if hi =? 0
                            then '(s, r3) ← stringBody fuel r2;
                                 Some (ascii_of_N lo :: s, r3)
                            else None
                        | _ => None
                        end
                   else None
               | [] => None
               end
          else '(s, r1) ← stringBody fuel r; Some (c :: s, r1)
      end
  end.

Definition startsWith (word : string) (l : list ascii) : option (list ascii) :=
  let w := chars word in
  if bool_decide (take (length w) l = w) then Some (drop (length w) l) else None.

Fixpoint value (fuel : nat) (l : list ascii) : option (Value * list ascii) :=
  match fuel with
  | O => None
  | S fuel =>
      match skip l with
      | [] => None
      | c :: r =>
          if isCode 123 c
          then match skip r with
               | d :: r' => if isCode 125 d then Some (JObject ∅, r')
                            else members fuel (d :: r') ∅
               | [] => None
               end
          else if isCode 91 c
          then match skip r with
               | d :: r' => if isCode 93 d then Some (JArray [], r')
                            else elements fuel (d :: r') []
               | [] => None
               end
          else if isCode 34 c
          then '(s, r') ← stringBody (length r) r;
               Some (JString (string_of_list_ascii s), r')
          else if isCode 116 c then r' ← startsWith "true" (c :: r); Some (JBool true, r')
          else if isCode 102 c then r' ← startsWith "false" (c :: r); Some (JBool false, r')
          else if isCode 110 c then r' ← startsWith "null" (c :: r); Some (JNull, r')
          else '(q, r') ← jsonNumber (c :: r); Some (JNumber (JS.round q), r')
      end
  end
with members (fuel : nat) (l : list ascii) (acc : gmap string Value)
  : option (Value * list ascii) :=
  match fuel with
  | O => None
  | S fuel =>
      match skip l with
      | q :: r =>
          if isCode 34 q
          then '(k, r1) ← stringBody (length r) r;
               match skip r1 with
               | colon :: r2 =>
                   if isCode 58 colon
                   then '(v, r3) ← value fuel r2;
                        let acc' := <[string_of_list_ascii k := v]> acc in
                        match skip r3 with
                        | d :: r4 =>
                            if isCode 44 d then members fuel r4 acc'
                            else if isCode 125 d then Some (JObject acc', r4)
                            else None
                        | [] => None
                        end
                   else None
               | [] => None
               end
          else None
      | [] => None
      end
  end
with elements (fuel : nat) (l : list ascii) (acc : list Value)
  : option (Value * list ascii) :=
  match fuel with
  | O => None
  | S fuel =>
      '(v, r) ← value fuel l;
      match skip r with
      | d :: r1 =>
          if isCode 44 d then elements fuel r1 (acc ++ [v])
          else if isCode 93 d then Some (JArray (acc ++ [v]), r1)
          else None
      | [] => None
      end
  end.

Definition SyntaxError : Error := mkError "SyntaxError" "Unexpected token in JSON".

Definition JSON_parse (text : string) : Exc Value :=
  let l := chars text in
  match value (S (length l)) l with
  | Some (v, rest) =>
      match skip rest with
      | [] => Ok v
      | _ => Throw SyntaxError
      end
  | None => Throw SyntaxError
  end.

(** *** ToNumber of arrays and objects *)

(** Converting the value to a string throws: an object whose own
    [toString] property shadows the inherited method, at any depth of
    nested arrays. *)
Fixpoint toStringThrows (v : Value) : bool :=
  match v with
  | JObject props => bool_decide (is_Some (props !! "toString"))
  | JArray items => existsb toStringThrows items
  | _ => false
  end.

(** An array converts through the string that joins its elements with
    commas, an object through the text of [Object.prototype.toString];
    a number element is read back as itself. *)
Fixpoint ObjectToNumber (v : Value) : Exc number :=
  match v with
  | JArray [] => Ok (ofZ 0)
  | JArray [x] =>
      match x with
      | JUndefined | JNull => Ok (ofZ 0)
      | JBool _ => Ok NaN
      | JNumber n => Ok n
      | JString s => Ok (StringToNumber s)
      | JArray _ | JObject _ => ObjectToNumber x
      end
  | _ =>
      if toStringThrows v
      then Throw (TypeError "Cannot convert object to primitive value")
      else Ok NaN
  end.

Definition platform : Platform :=
  {| JS.atob := atob; JS.JSON_parse := JSON_parse;
     JS.StringToNumber := StringToNumber; JS.ObjectToNumber := ObjectToNumber |}.

End Browser.


(* ===================================================================== *)
(** ** Concrete inputs *)
(* ===================================================================== *)

Module Examples.
Import JS.

(** *** A student's portal *)

Definition algebra : ExamPortal.Exam.t :=
  ExamPortal.Exam.mk "e1" "Algebra" "Mathematics" (Some ["q1"; "q2"]) 30.

Definition physics : ExamPortal.Exam.t :=
  ExamPortal.Exam.mk "e2" "Optics" "Physics" None 45.

Definition chemistry : ExamPortal.Exam.t :=
  ExamPortal.Exam.mk "e3" "Acids" "Chemistry" (Some []) 20.

Definition blockedAlgebra : ExamPortal.ExamSubmission.t :=
  ExamPortal.ExamSubmission.mk "s1" "e1" "stu1" "Asha" ∅ 1700000000000
    ExamPortal.Blocked 0.

Definition completedPhysics : ExamPortal.ExamSubmission.t :=
  ExamPortal.ExamSubmission.mk "s2" "e2" "stu1" "Asha" ∅ 1700000000000
    ExamPortal.Completed 80.

Definition portal : ExamPortal.Props :=
  {| ExamPortal.studentId := "stu1";
     ExamPortal.exams := [algebra; physics; chemistry];
     ExamPortal.submissions := [blockedAlgebra; completedPhysics] |}.

(** A submission for an exam that the catalog does not list. *)
Definition orphan : ExamPortal.ExamSubmission.t :=
  ExamPortal.ExamSubmission.mk "s9" "e9" "stu1" "Asha" ∅ 1600000000000
    ExamPortal.Completed 55.

Definition portalWithOrphan : ExamPortal.Props :=
  {| ExamPortal.studentId := "stu1";
     ExamPortal.exams := [algebra; physics; chemistry];
     ExamPortal.submissions := [blockedAlgebra; orphan; completedPhysics] |}.

(** *** Scanned texts: the base64 of the JSON text described *)

(** studentId the string S123, timestamp the number 1700000000000 *)
Definition goodText : string :=
  "eyJzdHVkZW50SWQiOiJTMTIzIiwidGltZXN0YW1wIjoxNzAwMDAwMDAwMDAwfQ==".

(** studentId the string S123, timestamp the number 0 *)
Definition zeroTimestampText : string :=
  "eyJzdHVkZW50SWQiOiJTMTIzIiwidGltZXN0YW1wIjowfQ==".

(** studentId the number 42, timestamp the number 1700000000000 *)
Definition numericIdText : string :=
  "eyJzdHVkZW50SWQiOjQyLCJ0aW1lc3RhbXAiOjE3MDAwMDAwMDAwMDB9".

(** studentId the string S123, timestamp the string soon *)
Definition wordTimestampText : string :=
  "eyJzdHVkZW50SWQiOiJTMTIzIiwidGltZXN0YW1wIjoic29vbiJ9".

(** studentId the empty string, timestamp the number 1700000000000 *)
Definition emptyIdText : string :=
  "eyJzdHVkZW50SWQiOiIiLCJ0aW1lc3RhbXAiOjE3MDAwMDAwMDAwMDB9".

(** only a timestamp, the number 1700000000000 *)
Definition missingIdText : string :=
  "eyJ0aW1lc3RhbXAiOjE3MDAwMDAwMDAwMDB9".

(** the text hello world, which is no JSON *)
Definition notJsonText : string := "aGVsbG8gd29ybGQ=".

(** no base64 at all *)
Definition notBase64Text : string := "not base64!".

(** The scanner component once its camera is on. *)
Definition scanning : QRCodeScanner.Component :=
  QRCodeScanner.run Browser.platform [QRCodeScanner.StartResolved 0].

(** *** The hosted model *)

Definition networkError : Error := mkError "TypeError" "Failed to fetch".

(** The service cannot be reached. *)
Definition unreachable : GeminiService.Remote :=
  {| GeminiService.generateContent := λ _, Throw networkError;
     GeminiService.sendMessage := λ _ _, Throw networkError |}.

(** The service answers every request with the same text. *)
Definition answering (text : string) : GeminiService.Remote :=
  {| GeminiService.generateContent :=
       λ _, Ok {| GeminiService.text := Some text |};
     GeminiService.sendMessage :=
       λ _ _, Ok {| GeminiService.text := Some text |} |}.

(** Prompts that interpolate nothing. *)
Definition plainPrompts : GeminiService.Prompts :=
  {| GeminiService.personalizedLearningPathPrompt := λ _, Ok "plan";
     GeminiService.studentInitiatedLearningPathPrompt := λ _ _, Ok "plan";
     GeminiService.performancePredictionPrompt := λ _, Ok "predict";
     GeminiService.progressInsightsPrompt := λ _ _, Ok "insights";
     GeminiService.activitySuggestionsPrompt := λ _, Ok "suggest";
     GeminiService.faceMatchPrompt := "compare" |}.

Definition aliceCall : GeminiService.Call :=
  {| GeminiService.callPrompt := "How is she doing?";
     GeminiService.callHistory := [];
     GeminiService.callContext := "Student dashboard for Alice";
     GeminiService.callLang := "en-IN" |}.

Definition bobCall : GeminiService.Call :=
  {| GeminiService.callPrompt := "How is he doing?";
     GeminiService.callHistory := [];
     GeminiService.callContext := "Student dashboard for Bob";
     GeminiService.callLang := "en-IN" |}.

Definition teacherCall : GeminiService.Call :=
  {| GeminiService.callPrompt := "Who was absent?";
     GeminiService.callHistory := [];
     GeminiService.callContext := "Teacher attendance view";
     GeminiService.callLang := "hi-IN" |}.

(** A first submission for algebra, before the blocked one. *)
Definition completedAlgebra : ExamPortal.ExamSubmission.t :=
  ExamPortal.ExamSubmission.mk "s0" "e1" "stu1" "Asha" ∅ 1690000000000
    ExamPortal.Completed 70.

(** *** Students *)

Definition present (subject : string) : Advisory.AttendanceRecord.t :=
  Advisory.AttendanceRecord.mk subject "Present".
Definition absent (subject : string) : Advisory.AttendanceRecord.t :=
  Advisory.AttendanceRecord.mk subject "Absent".

(** Three subjects with ordinary names. *)
Definition ravi : Advisory.Student.t :=
  Advisory.Student.mk "stu2" "Ravi"
    [ present "Math"; absent "Physics"; absent "Math"; present "Physics";
      present "Physics"; present "Art" ]
    [ Advisory.SubjectProgress.mk "Math" "B+" "Steady work" ]
    (Some (Advisory.LearningPath.mk "Revise algebra daily")).

(** A course number among the subjects, and a subject that names a
    method of every object. *)
Definition asha : Advisory.Student.t :=
  Advisory.Student.mk "stu1" "Asha"
    [ present "Math"; absent "101"; present "toString"; absent "Math" ]
    [] None.

(** One subject only. *)
Definition meera : Advisory.Student.t :=
  Advisory.Student.mk "stu3" "Meera" [ present "Math"; absent "Math" ] [] None.

End Examples.

(* ===================================================================== *)
(** ** Properties of the exam portal *)
(* ===================================================================== *)

Section ExamPortalProperties.
Import ExamPortal.
#[local] Open Scope list_scope.

Implicit Types (props : Props) (exam : Exam.t) (s : ExamSubmission.t).
Implicit Types (l : list ExamSubmission.t) (k : string).

Lemma studentSubmissionsMap_snoc l s :
  studentSubmissionsMap (l ++ [s])
  = <[ExamSubmission.examId s := s]> (studentSubmissionsMap l).
Proof. unfold studentSubmissionsMap. by rewrite foldl_app. Qed.

(** The map holds, for each exam, the last of its submissions. *)
Lemma studentSubmissionsMap_last l k :
  studentSubmissionsMap l !! k
  = last (filter (λ s, ExamSubmission.examId s = k) l).
Proof.
  induction l as [|s l IH] using rev_ind; [done|].
  rewrite studentSubmissionsMap_snoc, filter_app, filter_cons, filter_nil.
  destruct (decide (ExamSubmission.examId s = k)) as [->|Hne].
  - by rewrite lookup_insert_eq, last_snoc.
  - by rewrite lookup_insert_ne, app_nil_r.
Qed.

(** An entry of the map is a submission of the list, for that exam. *)
Lemma studentSubmissionsMap_Some l k s :
  studentSubmissionsMap l !! k = Some s →
  s ∈ l ∧ ExamSubmission.examId s = k.
Proof.
  rewrite studentSubmissionsMap_last. intros Hlast.
  assert (s ∈ filter (λ s, ExamSubmission.examId s = k) l) as Hin.
  { apply last_Some in Hlast as [l' ->]. set_solver. }
  by apply list_elem_of_filter in Hin as [? ?].
Qed.

(** No entry means no submission for the exam in the list. *)
Lemma studentSubmissionsMap_None l k :
  studentSubmissionsMap l !! k = None
  ↔ Forall (λ s, ExamSubmission.examId s ≠ k) l.
Proof.
  rewrite studentSubmissionsMap_last, last_None, Forall_forall.
  split.
  - intros Hnil s Hin Heq.
    by apply (filter_nil_not_elem_of _ _ s Hnil Heq).
  - intros Hall. destruct (filter _ l) as [|s l'] eqn:Hf; [done|].
    assert (s ∈ filter (λ s, ExamSubmission.examId s = k) l) as Hin
      by (rewrite Hf; set_solver).
    apply list_elem_of_filter in Hin as [Heq Hin]. by destruct (Hall s Hin).
Qed.

(** With at most one submission per exam, the entry is that submission. *)
Lemma studentSubmissionsMap_unique l s :
  s ∈ l →
  (∀ s', s' ∈ l → ExamSubmission.examId s' = ExamSubmission.examId s → s' = s) →
  studentSubmissionsMap l !! ExamSubmission.examId s = Some s.
Proof.
  intros Hin Huniq.
  destruct (studentSubmissionsMap l !! ExamSubmission.examId s) as [s'|] eqn:Hm.
  - apply studentSubmissionsMap_Some in Hm as [Hin' Heq]. f_equal. by apply Huniq.
  - apply studentSubmissionsMap_None in Hm. rewrite Forall_forall in Hm.
    by destruct (Hm s Hin).
Qed.

(** C1. For every exam catalog and submission set: when the submission map
    holds a Blocked entry for an exam, starting that exam (making it the
    selected one, from any state) renders the blocked screen; the exam
    taker is not rendered, for that exam or any other. *)
Theorem blocked_exam_never_opens props takingExam exam s :
  studentSubmissionsMap (submissions props) !! Exam.id exam = Some s →
  ExamSubmission.status s = Blocked →
  let selected := takingExam' (step props takingExam (ClickTakeExam exam)) in
  selected = Some exam ∧
  render props selected = ExamBlocked ∧
  ∀ e, render props selected ≠ ExamTaker e.
Proof.
  intros Hm Hblocked selected.
  assert (render props selected = ExamBlocked) as Hr.
  { subst selected. cbn [step takingExam' render].
    rewrite Hm, Hblocked. by rewrite bool_decide_eq_true_2. }
  rewrite Hr. by repeat split.
Qed.

(** C2. The rendering decision: with no exam selected and a catalog that
    is not empty, the component renders one card per exam, in order, and
    what it renders is a function of the catalog and the submission set
    alone. The card of an exam with no entry in the map (no submission for
    it in the set) offers to take it, the card of an exam whose entry is
    Completed shows Completed and the score, and the card of an exam whose
    entry is Blocked shows Blocked. Which of the three it shows depends only
    on the presence and the status of the entry, and the entry is a
    submission of the set for that exam. *)
Theorem card_variant_by_submission props index exam :
  exams props !! index = Some exam →
  let m := studentSubmissionsMap (submissions props) in
  ∃ c,
    render props None = Catalog (imap (card m) (exams props)) ∧
    (∀ props', exams props' = exams props →
               submissions props' = submissions props →
               render props' None = render props None) ∧
    imap (card m) (exams props) !! index = Some c ∧
    key c = Exam.id exam ∧
    (body c = match m !! Exam.id exam with
              | None => TakeExamButton exam
              | Some s =>
                  match ExamSubmission.status s with
                  | Completed => ResultBox false "Completed" (ExamSubmission.score s)
                  | Blocked => ResultBox true "Blocked" (ExamSubmission.score s)
                  end
              end) ∧
    (variant (body c) = match m !! Exam.id exam with
                        | None => VTake
                        | Some s =>
                            match ExamSubmission.status s with
                            | Completed => VCompleted (ExamSubmission.score s)
                            | Blocked => VBlocked
                            end
                        end) ∧
    (∀ (m' : gmap string ExamSubmission.t) index',
       ExamSubmission.status <$> m' !! Exam.id exam
         = ExamSubmission.status <$> m !! Exam.id exam →
       caption (body (card m' index' exam)) = caption (body c)) ∧
    (m !! Exam.id exam = None
     ↔ Forall (λ s, ExamSubmission.examId s ≠ Exam.id exam) (submissions props)) ∧
    (∀ s, m !! Exam.id exam = Some s →
          s ∈ submissions props ∧ ExamSubmission.examId s = Exam.id exam).
Proof.
  intros Hexam m. exists (card m index exam).
  assert (0 < length (exams props))%nat as Hlen
    by (apply lookup_lt_Some in Hexam; lia).
  split; [|split; [|split; [|split; [|split; [|split; [|split; [|split]]]]]]].
  - cbn [render]. by rewrite bool_decide_eq_true_2.
  - intros props' Hexams Hsubs. unfold render. by rewrite Hexams, Hsubs.
  - by rewrite list_lookup_imap, Hexam.
  - done.
  - cbn. destruct (m !! Exam.id exam) as [s|]; [|done].
    by destruct (ExamSubmission.status s).
  - cbn. destruct (m !! Exam.id exam) as [s|]; [|done].
    by destruct (ExamSubmission.status s).
  - intros m' index' Hsame. cbn.
    destruct (m' !! Exam.id exam) as [s'|], (m !! Exam.id exam) as [s|];
      try done.
    cbn in Hsame. injection Hsame as ->. done.
  - apply studentSubmissionsMap_None.
  - intros s. apply studentSubmissionsMap_Some.
Qed.

(** C7. Completing an exam: when an exam is selected, [handleSubmit] calls
    [onSubmitExam] exactly once, with the exam's identifier, the student's
    identifier, the given answers, the current time and the given status,
    and clears the selection; when none is selected it makes no call and
    leaves the selection empty. *)
Theorem completeExam_emits_once_and_clears props takingExam now answers status :
  let o := step props takingExam (Submit now answers status) in
  o = handleSubmit props takingExam now answers status ∧
  takingExam' o = None ∧
  submitted o =
    match takingExam with
    | Some exam =>
        [ {| NewSubmission.examId := Exam.id exam;
             NewSubmission.studentId := studentId props;
             NewSubmission.answers := answers;
             NewSubmission.submittedAt := now;
             NewSubmission.status := status |} ]
    | None => []
    end ∧
  (takingExam = None → takingExam' o = takingExam ∧ submitted o = []).
Proof.
  destruct takingExam as [exam|]; cbn; repeat split; done.
Qed.

(** Leaving the blocked screen or the exam taker clears the selection and
    submits nothing; with no exam selected it changes nothing. *)
Lemma cancel_clears_selection props takingExam :
  step props takingExam ClickGoBack = {| submitted := []; takingExam' := None |} ∧
  step props takingExam Close = {| submitted := []; takingExam' := None |} ∧
  takingExam' (step props None ClickGoBack) = None.
Proof. done. Qed.

(** A submission for an exam that is not in the catalog does not change
    what the catalog view shows. *)
Lemma orphan_submission_is_ignored props l1 l2 s :
  submissions props = l1 ++ s :: l2 →
  Forall (λ exam, Exam.id exam ≠ ExamSubmission.examId s) (exams props) →
  render props None
  = render {| studentId := studentId props; exams := exams props;
              submissions := l1 ++ l2 |} None.
Proof.
  intros Hsubs Horphan. unfold render. cbn [exams submissions].
  case_bool_decide; [|done]. f_equal.
  apply imap_ext. intros index exam Hexam. unfold card.
  assert (Exam.id exam ≠ ExamSubmission.examId s) as Hne.
  { rewrite Forall_forall in Horphan. apply Horphan.
    by eapply list_elem_of_lookup_2. }
  assert (studentSubmissionsMap (submissions props) !! Exam.id exam
          = studentSubmissionsMap (l1 ++ l2) !! Exam.id exam) as ->.
  { rewrite Hsubs, !studentSubmissionsMap_last, !filter_app, filter_cons.
    by rewrite decide_False. }
  done.
Qed.

End ExamPortalProperties.

Section ExamPortalExamples.
Import ExamPortal.

(** Witness of C1: algebra is blocked for this student. *)
Lemma blocked_exam_never_opens_witness :
  render Examples.portal (Some Examples.algebra) = ExamBlocked.
Proof.
  destruct (blocked_exam_never_opens Examples.portal None Examples.algebra
              Examples.blockedAlgebra) as (_ & Hblocked & _).
  - reflexivity.
  - reflexivity.
  - exact Hblocked.
Defined.

(** Witness of C2: the second card of this student's catalog shows the
    completed physics exam with its score. *)
Lemma card_variant_by_submission_witness :
  ∃ c, render Examples.portal None
       = Catalog (imap (card (studentSubmissionsMap (submissions Examples.portal)))
                    (exams Examples.portal)) ∧
       body c = ResultBox false "Completed" 80 ∧
       variant (body c) = VCompleted 80.
Proof.
  destruct (card_variant_by_submission Examples.portal 1 Examples.physics)
    as (c & Hrender & _ & _ & _ & Hbody & Hvariant & _).
  - reflexivity.
  - exists c. split; [exact Hrender|]. split; [exact Hbody | exact Hvariant].
Defined.

(** The three cards of this student's catalog. *)
Example portal_variants :
  render Examples.portal None
  = Catalog
      [ {| key := "e1"; delay := 0; redBorder := true; heading := "Algebra";
           subheading := "Mathematics"; questionCount := 2; duration := 30;
           body := ResultBox true "Blocked" 0 |};
        {| key := "e2"; delay := 100; redBorder := false; heading := "Optics";
           subheading := "Physics"; questionCount := 0; duration := 45;
           body := ResultBox false "Completed" 80 |};
        {| key := "e3"; delay := 200; redBorder := false; heading := "Acids";
           subheading := "Chemistry"; questionCount := 0; duration := 20;
           body := TakeExamButton Examples.chemistry |} ].
Proof. reflexivity. Qed.

(** The orphan submission changes nothing in the catalog view. *)
Lemma orphan_submission_witness :
  render Examples.portalWithOrphan None = render Examples.portal None.
Proof.
  apply (orphan_submission_is_ignored Examples.portalWithOrphan
           [Examples.blockedAlgebra] [Examples.completedPhysics] Examples.orphan).
  - reflexivity.
  - repeat constructor; discriminate.
Defined.

End ExamPortalExamples.

(* ===================================================================== *)
(** ** Properties of the arithmetic *)
(* ===================================================================== *)

Section Rounding.
Import JS.
#[local] Open Scope Q_scope.

Lemma pow2_pos (e : Z) : 0 < pow2 e.
Proof. by apply Qpower_0_lt. Qed.

Lemma pow2_plus (a b : Z) : pow2 (a + b) == pow2 a * pow2 b.
Proof. by apply Qpower_plus. Qed.

Lemma pow2_le (a b : Z) : (a ≤ b)%Z → pow2 a <= pow2 b.
Proof. intros H. by apply Qpower_le_compat_l. Qed.

Lemma pow2_Z (e : Z) : (0 ≤ e)%Z → pow2 e == inject_Z (2 ^ e).
Proof. intros H. unfold pow2. by rewrite Zpower_Qpower. Qed.

(** The logarithm is no overestimate. *)
Lemma Qlog2_le (x : Q) : 0 < x → pow2 (Qlog2 x) <= x.
Proof.
  intros Hx. unfold Qlog2.
  set (la := Z.log2 (Qnum x)). set (lb := Z.log2 (Z.pos (Qden x))).
  destruct (Qle_bool (pow2 (la - lb)) x) eqn:Htest.
  - by apply Qle_bool_iff.
  - assert (0 < Qnum x)%Z as Hnum.
    { unfold Qlt in Hx. cbn in Hx. lia. }
    assert (0 ≤ la)%Z as Hla by apply Z.log2_nonneg.
    assert (0 ≤ lb)%Z as Hlb by apply Z.log2_nonneg.
    assert (2 ^ la ≤ Qnum x)%Z as Ha by (apply Z.log2_spec; lia).
    assert (Z.pos (Qden x) < 2 ^ (lb + 1))%Z as Hb.
    { replace (lb + 1)%Z with (Z.succ lb) by lia. apply Z.log2_spec. lia. }
    replace (la - lb - 1)%Z with (la + - (lb + 1))%Z by lia.
    rewrite pow2_plus. unfold pow2 at 2. rewrite Qpower_opp.
    fold (pow2 (lb + 1)). rewrite !pow2_Z by lia.
    assert (0 < inject_Z (2 ^ (lb + 1))) as Hpos.
    { rewrite <- pow2_Z by lia. apply pow2_pos. }
    apply Qle_shift_div_r; [done|].
    destruct x as [a b]. cbn in *. unfold Qle, Qmult, inject_Z. cbn.
    nia.
Qed.

(** Rounding to the nearest integer does not cross an integer. *)
Lemma nearestEven_ge (m : Q) (K : Z) : inject_Z K <= m → (K ≤ nearestEven m)%Z.
Proof.
  intros HK. assert (K ≤ Qfloor m)%Z as Hf.
  { rewrite <- (Qfloor_Z K). by apply Qfloor_resp_le. }
  unfold nearestEven. destruct (_ ?= _); [destruct (Z.even _)| |]; lia.
Qed.

Lemma nearestEven_le (m : Q) (K : Z) : m <= inject_Z K → (nearestEven m ≤ K)%Z.
Proof.
  intros HK. pose proof (Qfloor_le m) as Hfloor.
  assert (Qfloor m ≤ K)%Z as Hf.
  { rewrite Zle_Qle. by apply Qle_trans with m. }
  unfold nearestEven.
  destruct (decide (Qfloor m = K)) as [Heq|Hne].
  - assert (m - inject_Z (Qfloor m) < 1 # 2) as Hlt.
    { rewrite Heq. apply Qle_lt_trans with 0; [|done].
      apply (Qplus_le_l _ _ (inject_Z K)). ring_simplify. done. }
    destruct (Qcompare_spec (m - inject_Z (Qfloor m)) (1 # 2)) as [He|_|Hgt].
    + rewrite He in Hlt. by apply Qlt_irrefl in Hlt.
    + lia.
    + exfalso. apply (Qlt_irrefl (1 # 2)). by apply Qlt_trans with (m - inject_Z (Qfloor m)).
  - destruct (_ ?= _); [destruct (Z.even _)| |]; lia.
Qed.

Lemma scaled_double (y : Q) (k f e : Z) :
  (e ≤ f)%Z → y == inject_Z k * pow2 f →
  y / pow2 e == inject_Z (k * 2 ^ (f - e)) ∧
  y == inject_Z (k * 2 ^ (f - e)) * pow2 e.
Proof.
  intros Hef Hy. pose proof (pow2_pos e) as Hpos.
  assert (pow2 f == inject_Z (2 ^ (f - e)) * pow2 e) as Hf.
  { rewrite <- pow2_Z by lia. rewrite <- pow2_plus. by replace (f - e + e)%Z with f by lia. }
  rewrite inject_Z_mult. split.
  - rewrite Hy, Hf. field. intros H0. rewrite H0 in Hpos. by apply Qlt_irrefl in Hpos.
  - rewrite Hy, Hf. ring.
Qed.

(** The exponent of the last bit: near the logarithm when it is above
    the subnormal one. *)
Lemma exponent_normal (x : Q) (f : Z) :
  0 < x → (-1074 ≤ f)%Z → (f < Z.max (Qlog2 x - 52) (-1074))%Z →
  pow2 (f + 53) <= pow2 (Z.max (Qlog2 x - 52) (-1074) + 52) ∧
  pow2 (Z.max (Qlog2 x - 52) (-1074) + 52) <= x.
Proof.
  intros Hx Hf Hlt. split.
  - apply pow2_le. lia.
  - replace (Z.max (Qlog2 x - 52) (-1074) + 52)%Z with (Qlog2 x) by lia.
    by apply Qlog2_le.
Qed.

Lemma roundPositive_le (x y : Q) (k f : Z) :
  0 < x → Double y k f → x <= y → atMost (roundPositive x) y.
Proof.
  intros Hx (Hk & Hf & Hy & Hmax) Hxy. unfold roundPositive.
  set (e := Z.max (Qlog2 x - 52) (-1074)).
  pose proof (pow2_pos e) as Hpos.
  destruct (decide (e ≤ f)%Z) as [Hef|Hef].
  - destruct (scaled_double y k f e Hef Hy) as [Hdiv Hmul].
    assert (nearestEven (x / pow2 e) ≤ k * 2 ^ (f - e))%Z as Hn.
    { apply nearestEven_le. rewrite <- Hdiv.
      apply Qmult_le_compat_r; [done|]. apply Qlt_le_weak, Qinv_lt_0_compat, Hpos. }
    assert (inject_Z (nearestEven (x / pow2 e)) * pow2 e <= y) as Hv.
    { rewrite Hmul. apply Qmult_le_compat_r; [|by apply Qlt_le_weak].
      by rewrite <- Zle_Qle. }
    destruct (Qle_bool _ _) eqn:Hover.
    + apply Qle_bool_iff in Hover. exfalso.
      apply (Qlt_irrefl y). eapply Qlt_le_trans; [exact Hmax|].
      by eapply Qle_trans.
    + cbn. by rewrite Qred_correct.
  - exfalso. destruct (exponent_normal x f Hx Hf) as [H1 H2]; [fold e; lia|].
    fold e in H1, H2. apply (Qlt_irrefl y).
    apply Qlt_le_trans with (pow2 (f + 53));
      [|by eapply Qle_trans; [exact H1|eapply Qle_trans; [exact H2|]]].
    rewrite Hy, pow2_plus, (Qmult_comm (pow2 f)).
    apply Qmult_lt_compat_r; [apply pow2_pos|].
    rewrite pow2_Z by lia. rewrite <- Zlt_Qlt. lia.
Qed.

Lemma roundPositive_ge (x y : Q) (k f : Z) :
  0 < x → Double y k f → y <= x → atLeast (roundPositive x) y.
Proof.
  intros Hx (Hk & Hf & Hy & Hmax) Hxy. unfold roundPositive.
  set (e := Z.max (Qlog2 x - 52) (-1074)).
  pose proof (pow2_pos e) as Hpos.
  assert (y <= inject_Z (nearestEven (x / pow2 e)) * pow2 e) as Hv.
  { destruct (decide (e ≤ f)%Z) as [Hef|Hef].
    - destruct (scaled_double y k f e Hef Hy) as [Hdiv Hmul].
      rewrite Hmul. apply Qmult_le_compat_r; [|by apply Qlt_le_weak].
      rewrite <- Zle_Qle. apply nearestEven_ge. rewrite <- Hdiv.
      apply Qmult_le_compat_r; [done|]. apply Qlt_le_weak, Qinv_lt_0_compat, Hpos.
    - destruct (exponent_normal x f Hx Hf) as [H1 H2]; [fold e; lia|].
      fold e in H1, H2.
      assert (2 ^ 52 ≤ nearestEven (x / pow2 e))%Z as Hn.
      { apply nearestEven_ge. rewrite <- pow2_Z by lia.
        apply Qle_shift_div_l; [done|]. rewrite <- pow2_plus.
        by replace (52 + e)%Z with (e + 52)%Z by lia. }
      apply Qlt_le_weak. apply Qlt_le_trans with (pow2 (f + 53)).
      + rewrite Hy, pow2_plus, (Qmult_comm (pow2 f)).
        apply Qmult_lt_compat_r; [apply pow2_pos|].
        rewrite pow2_Z by lia. rewrite <- Zlt_Qlt. lia.
      + eapply Qle_trans; [exact H1|]. rewrite pow2_plus, (Qmult_comm (pow2 e)).
        apply Qmult_le_compat_r; [|by apply Qlt_le_weak].
        rewrite pow2_Z by lia. by rewrite <- Zle_Qle. }
  destruct (Qle_bool _ _); cbn; [done|]. by rewrite Qred_correct.
Qed.

Lemma Double_pos (y : Q) (k f : Z) : Double y k f → 0 < y.
Proof.
  intros (Hk & _ & Hy & _). rewrite Hy.
  apply Qmult_lt_0_compat; [|apply pow2_pos].
  replace 0 with (inject_Z 0) by done. rewrite <- Zlt_Qlt. lia.
Qed.

Lemma roundPositive_nonneg (x : Q) : 0 < x → atLeast (roundPositive x) 0.
Proof.
  intros Hx. unfold roundPositive.
  set (e := Z.max (Qlog2 x - 52) (-1074)).
  pose proof (pow2_pos e) as Hpos.
  assert (0 <= inject_Z (nearestEven (x / pow2 e)) * pow2 e) as Hv.
  { apply Qmult_le_0_compat; [|by apply Qlt_le_weak].
    replace 0 with (inject_Z 0) by done. rewrite <- Zle_Qle.
    apply nearestEven_ge. cbn. apply Qlt_le_weak.
    apply Qlt_shift_div_l; [done|]. by rewrite Qmult_0_l. }
  destruct (Qle_bool _ _); cbn; [done|]. by rewrite Qred_correct.
Qed.

(** Rounding does not cross a double: it is monotone and leaves doubles
    alone. *)
Lemma round_le (x y : Q) (k f : Z) :
  Double y k f → x <= y → atMost (round x) y.
Proof.
  intros Hy Hxy. pose proof (Double_pos y k f Hy) as Hpos. unfold round.
  destruct (Qcompare_spec x 0) as [H0|Hneg|Hx].
  - cbn. by apply Qlt_le_weak.
  - assert (0 < - x) as Hx.
    { apply (Qplus_lt_l _ _ x). ring_simplify. done. }
    pose proof (roundPositive_nonneg (- x) Hx) as Hnn.
    destruct (roundPositive (- x)) as [|s|v]; cbn in *; [done|by subst|].
    apply Qle_trans with 0; [|by apply Qlt_le_weak].
    apply (Qplus_le_l _ _ v). ring_simplify. done.
  - by eapply roundPositive_le.
Qed.

Lemma round_ge (x y : Q) (k f : Z) :
  Double y k f → y <= x → atLeast (round x) y.
Proof.
  intros Hy Hxy. pose proof (Double_pos y k f Hy) as Hpos.
  assert (0 < x) as Hx by by apply Qlt_le_trans with y.
  unfold round. apply Qgt_alt in Hx. rewrite Hx. apply Qgt_alt in Hx.
  by eapply roundPositive_ge.
Qed.

(** A double is its own rounding. *)
Lemma round_Double (y : Q) (k f : Z) :
  Double y k f → ∃ v, round y = Finite v ∧ v == y.
Proof.
  intros Hy.
  pose proof (round_le y y k f Hy (Qle_refl y)) as Hle.
  pose proof (round_ge y y k f Hy (Qle_refl y)) as Hge.
  destruct (round y) as [|s|v]; cbn in *; [done|congruence|].
  exists v. split; [done|]. by apply Qle_antisym.
Qed.

Ltac double := repeat split; by vm_compute.

(** The age test on integers: rounding included, [(now - ts) / 1000 > 60]
    is [now - ts > 60000]. *)
Lemma age_test_integer (now ts : Z) :
  gt (div (sub (ofZ now) (ofZ ts)) (ofZ 1000)) (ofZ 60)
  = bool_decide (60000 < now - ts)%Z.
Proof.
  unfold ofZ, sub.
  assert (inject_Z now - inject_Z ts == inject_Z (now - ts)) as Hd.
  { unfold Zminus. rewrite inject_Z_plus, inject_Z_opp. ring. }
  case_bool_decide as Hage.
  - assert (atLeast (round (inject_Z now - inject_Z ts)) (inject_Z 60001)) as Hs.
    { apply (round_ge _ _ 60001 0); [double|].
      rewrite Hd, <- Zle_Qle. lia. }
    destruct (round _) as [|s|v]; cbn in Hs; [done|by subst|].
    unfold div. replace (Qeq_bool (inject_Z 1000) 0) with false by done.
    assert (atLeast (round (v / inject_Z 1000))
              (inject_Z (60 * 2 ^ 47 + 1) * pow2 (-47))) as Hq.
    { apply (round_ge _ _ (60 * 2 ^ 47 + 1) (-47)); [double|].
      apply Qle_shift_div_l; [done|].
      eapply Qle_trans; [|exact Hs]. by vm_compute. }
    destruct (round _) as [|s|w]; cbn in Hq; [done|by subst|].
    cbn. unfold Qlt_bool. apply negb_true_iff, not_true_iff_false.
    rewrite Qle_bool_iff. intros Hw.
    assert (inject_Z (60 * 2 ^ 47 + 1) * pow2 (-47) <= inject_Z 60) as Habs
      by by eapply Qle_trans.
    by vm_compute in Habs.
  - assert (atMost (round (inject_Z now - inject_Z ts)) (inject_Z 60000)) as Hs.
    { apply (round_le _ _ 60000 0); [double|].
      rewrite Hd, <- Zle_Qle. lia. }
    destruct (round _) as [|s|v]; cbn in Hs; [done|by subst|].
    unfold div. replace (Qeq_bool (inject_Z 1000) 0) with false by done.
    assert (atMost (round (v / inject_Z 1000)) (inject_Z 60)) as Hq.
    { apply (round_le _ _ 60 0); [double|].
      apply Qle_shift_div_r; [done|].
      eapply Qle_trans; [exact Hs|]. by vm_compute. }
    destruct (round _) as [|s|w]; cbn in Hq; [done|by subst|].
    cbn. unfold Qlt_bool. apply negb_false_iff. by rewrite Qle_bool_iff.
Qed.

End Rounding.

(* ===================================================================== *)
(** ** Properties of the QR scanner *)
(* ===================================================================== *)

Section QRCodeScannerProperties.
Import JS QRCodeScanner.
#[local] Open Scope list_scope.
#[local] Open Scope Z_scope.

Context (P : Platform).
Implicit Types (c : Component) (now ts : Z) (text sid : string) (v : Value).

(** *** Numbers *)

Lemma nonzero_integer_truthy ts : ts ≠ 0 → ToBoolean (JNumber (ofZ ts)) = true.
Proof.
  intros Hts. cbn. apply negb_true_iff, not_true_iff_false.
  rewrite Qeq_bool_iff. unfold Qeq. cbn. lia.
Qed.

Lemma zero_falsy (q : Q) : (q == 0)%Q → ToBoolean (JNumber (Finite q)) = false.
Proof. intros Hq. cbn. apply negb_false_iff. by apply Qeq_bool_iff. Qed.

(** *** The callback while the session is scanning *)

Lemma pause_when_scanning c :
  Scanning c →
  ∃ c1, onCurrent pause c = Ok c1 ∧ scanResult c1 = None ∧
        notified c1 = notified c ∧ scannerRef c1 = scannerRef c ∧
        state <$> current c1 = Some PAUSED.
Proof.
  intros [Hres Hcur]. unfold current in *. unfold onCurrent.
  destruct (scannerRef c) as [h|] eqn:Href; [|done]. cbn in Hcur.
  destruct (scanners c !! h) as [s|] eqn:Hs; [|done]. cbn in Hcur.
  injection Hcur as Hstate. unfold pause. rewrite Hstate. cbn.
  eexists. split; [done|]. cbn. rewrite Href. repeat split; try done.
  cbn. rewrite list_lookup_insert_eq; [done|]. by eapply lookup_lt_Some.
Qed.

(** What the callback leaves behind, by the way its [try] block ends. *)
Lemma callback_when_scanning now text c :
  Scanning c →
  let c' := qrCodeSuccessCallback P None now text c in
  scanResult c' =
    match validate P now text with
    | Ok Expired => Some expiredMessage
    | Ok (Success _) => None
    | Throw _ => Some formatMessage
    end ∧
  notified c' =
    (notified c ++ match validate P now text with
                   | Ok (Success v) => [v]
                   | _ => []
                   end)%list ∧
  state <$> current c' = Some PAUSED.
Proof.
  intros Hsc. destruct (pause_when_scanning c Hsc) as (c1 & Hp & Hr & Hn & Href & Hst).
  cbn. rewrite Hp. destruct (validate P now text) as [[|v]|e]; cbn.
  - by rewrite Hn, app_nil_r.
  - by rewrite Hr, Hn.
  - by rewrite Hn, app_nil_r.
Qed.

(** The callback never notifies the host of anything but a [Success]. *)
Lemma callback_notified seen now text c :
  let c' := qrCodeSuccessCallback P seen now text c in
  notified c' = notified c ∨
  ∃ v, validate P now text = Ok (Success v) ∧ notified c' = (notified c ++ [v])%list.
Proof.
  cbn. destruct seen; [by left|]. cbn.
  destruct (onCurrent pause c) as [c1|] eqn:Hp; [|by left].
  assert (notified c1 = notified c) as Hn.
  { unfold onCurrent in Hp. destruct (scannerRef c) as [h|]; [|done].
    destruct (scanners c !! h) as [s|]; [|done].
    destruct (pause s) as [s'|]; [|done]. by injection Hp as <-. }
  destruct (validate P now text) as [[|v]|e]; cbn; rewrite ?Hn; eauto.
Qed.

Lemma validate_decode_throws now text e :
  decode P text = Throw e → validate P now text = Throw e.
Proof. intros H. unfold validate. by rewrite H. Qed.

Lemma validate_object now text (props : gmap string Value) :
  decode P text = Ok (JObject props) →
  validate P now text =
    let studentId := default JUndefined (props !! "studentId") in
    let timestamp := default JUndefined (props !! "timestamp") in
    if negb (ToBoolean studentId) || negb (ToBoolean timestamp)
    then Throw (mkError "Error" "Invalid QR code data.")
    else t ← ToNumber P timestamp;
         if gt (div (sub (ofZ now) t) (ofZ 1000)) (ofZ 60)
         then Ok Expired else Ok (Success studentId).
Proof. intros H. unfold validate. by rewrite H. Qed.

Lemma snoc_ne {A} (l : list A) (x : A) : l ≠ (l ++ [x])%list.
Proof. intros H. apply (f_equal length) in H. rewrite length_app in H. cbn in H. lia. Qed.

(** C3, amended. While the session is scanning, a payload that decodes to
    an object whose studentId is a string that is not empty and whose
    timestamp is an integer other than 0 is accepted (the host is notified
    of that studentId and no error is shown) exactly when its age
    [now - timestamp] is at most 60000 ms, and rejected with the expired
    code error (and no notification) exactly when the age exceeds 60000 ms. *)
Theorem fresh_iff_within_60000 now text (props : gmap string Value) sid ts c :
  Scanning c →
  decode P text = Ok (JObject props) →
  props !! "studentId" = Some (JString sid) → sid ≠ "" →
  props !! "timestamp" = Some (JNumber (ofZ ts)) → ts ≠ 0 →
  let c' := qrCodeSuccessCallback P None now text c in
  (notified c' = (notified c ++ [JString sid])%list ∧ scanResult c' = None
   ↔ now - ts ≤ 60000) ∧
  (scanResult c' = Some expiredMessage ∧ notified c' = notified c
   ↔ 60000 < now - ts).
Proof.
  intros Hsc Hdec Hsid Hne Hts Hnz c'.
  destruct (callback_when_scanning now text c Hsc) as (Hr & Hn & _).
  fold c' in Hr, Hn. rewrite Hr, Hn. clear Hr Hn c'.
  rewrite (validate_object _ _ _ Hdec). cbn zeta. rewrite Hsid, Hts.
  cbn [default from_option id]. rewrite nonzero_integer_truthy by done.
  assert (ToBoolean (JString sid) = true) as ->.
  { cbn. apply negb_true_iff, String.eqb_neq. done. }
  cbn [negb orb ToNumber mbind Exc_bind]. rewrite age_test_integer.
  case_bool_decide as Hage; cbn; rewrite ?app_nil_r; (split; split).
  - by intros [_ ?].
  - lia.
  - done.
  - done.
  - lia.
  - done.
  - by intros [? _].
  - lia.
Qed.

(** C4. A text that is not valid base64, or whose decoding is not valid
    JSON, or that decodes to an object without a studentId or without a
    timestamp, never makes the callback notify the host; and while the
    session is scanning it puts the session in the format-error state. *)
Theorem malformed_payload_is_format_error seen now text c :
  (∃ e, atob P text = Throw e) ∨
  (∃ binary e, atob P text = Ok binary ∧ JSON_parse P binary = Throw e) ∨
  (∃ props : gmap string Value,
      decode P text = Ok (JObject props) ∧
      (props !! "studentId" = None ∨ props !! "timestamp" = None)) →
  notified (qrCodeSuccessCallback P seen now text c) = notified c ∧
  (Scanning c →
   let c' := qrCodeSuccessCallback P None now text c in
   scanResult c' = Some formatMessage ∧ notified c' = notified c).
Proof.
  intros Hbad.
  assert (∃ e, validate P now text = Throw e) as [e He].
  { destruct Hbad as [[e H]|[(b & e & Hb & H)|(props & Hdec & H)]].
    - exists e. apply validate_decode_throws. unfold decode. by rewrite H.
    - exists e. apply validate_decode_throws. unfold decode. by rewrite Hb.
    - rewrite (validate_object _ _ _ Hdec). eexists.
      destruct H as [-> | ->]; cbn [default from_option id ToBoolean negb orb];
        [done | by rewrite orb_true_r]. }
  split.
  - destruct (callback_notified seen now text c) as [H | (v & Hv & _)]; [done|].
    congruence.
  - intros Hsc c'.
    destruct (callback_when_scanning now text c Hsc) as (Hr & Hn & _).
    fold c' in Hr, Hn. rewrite Hr, Hn, He. by rewrite app_nil_r.
Qed.

(** What the validation accepts: it ends in Success with a value [v]
    exactly when the text decodes (base64, then JSON) to a value whose
    studentId is [v] and is truthy, whose timestamp is truthy and coerces to
    a number, and for which the age test [> 60] is false; the callback
    notifies the host only of such a value. *)
Lemma success_iff_truthy_and_not_old now text v :
  (validate P now text = Ok (Success v)
   ↔ ∃ decodedData timestamp t,
       decode P text = Ok decodedData ∧
       getField decodedData "studentId" = Ok v ∧
       getField decodedData "timestamp" = Ok timestamp ∧
       ToBoolean v = true ∧ ToBoolean timestamp = true ∧
       ToNumber P timestamp = Ok t ∧
       gt (div (sub (ofZ now) t) (ofZ 1000)) (ofZ 60) = false) ∧
  (∀ seen c,
     notified (qrCodeSuccessCallback P seen now text c)
       = (notified c ++ [v])%list →
     validate P now text = Ok (Success v)).
Proof.
  split.
  - unfold validate. split.
    + destruct (decode P text) as [d|]; [|done]. cbn.
      destruct (getField d "studentId") as [sid|] eqn:Hs; [|done]. cbn.
      destruct (getField d "timestamp") as [tsv|] eqn:Ht'; [|done]. cbn.
      destruct (ToBoolean sid) eqn:Hsid; [|done].
      destruct (ToBoolean tsv) eqn:Hts; [|done]. cbn.
      destruct (ToNumber P tsv) as [t|] eqn:Ht; [|done]. cbn.
      destruct (gt _ _) eqn:Hgt; [done|].
      intros [= <-]. by exists d, tsv, t.
    + intros (d & tsv & t & -> & Hs & Ht & Hbs & Hbt & Hn & Hgt).
      cbn [mbind Exc_bind]. rewrite Hs. cbn [mbind Exc_bind].
      rewrite Ht. cbn [mbind Exc_bind]. rewrite Hbs, Hbt. cbn [negb orb].
      rewrite Hn. cbn [mbind Exc_bind]. by rewrite Hgt.
  - intros seen c Heq.
    destruct (callback_notified seen now text c) as [H | (v' & Hv & H)].
    + rewrite H in Heq. by apply snoc_ne in Heq.
    + rewrite H in Heq. apply app_inj_tail in Heq as [_ ->]. done.
Qed.

(** C5. The code does not do what the claim says: the validation tests
    that studentId and timestamp are truthy and never what they are. While
    the session is scanning, a payload with any truthy studentId (a number,
    [true], an array, an object) and any truthy timestamp is accepted as soon
    as the age test does not fire: the studentId is handed to
    [onScanSuccess], which is declared to take a string, no error is shown,
    and the scanner stays paused. The age test does not fire, whatever the
    time, for a timestamp that is no number at all: it coerces to [NaN], and
    [NaN > 60] is false. *)
Theorem untyped_payload_is_reported now text (props : gmap string Value)
    (studentId timestamp : Value) (t : number) c :
  Scanning c →
  decode P text = Ok (JObject props) →
  props !! "studentId" = Some studentId → ToBoolean studentId = true →
  props !! "timestamp" = Some timestamp → ToBoolean timestamp = true →
  ToNumber P timestamp = Ok t →
  t = NaN ∨ gt (div (sub (ofZ now) t) (ofZ 1000)) (ofZ 60) = false →
  let c' := qrCodeSuccessCallback P None now text c in
  notified c' = (notified c ++ [studentId])%list ∧
  scanResult c' = None ∧
  state <$> current c' = Some PAUSED.
Proof.
  intros Hsc Hdec Hsid Hsidb Hts Htsb Ht Hage c'.
  destruct (callback_when_scanning now text c Hsc) as (Hr & Hn & Hst).
  fold c' in Hr, Hn, Hst. rewrite Hr, Hn, Hst. clear Hr Hn Hst c'.
  rewrite (validate_object _ _ _ Hdec). cbn zeta. rewrite Hsid, Hts.
  cbn [default from_option id]. rewrite Hsidb, Htsb, Ht.
  cbn [negb orb mbind Exc_bind].
  assert (gt (div (sub (ofZ now) t) (ofZ 1000)) (ofZ 60) = false) as ->.
  { destruct Hage as [-> | Hage]; [reflexivity | exact Hage]. }
  done.
Qed.

(** C10. A payload whose studentId is the empty string, or whose timestamp
    is the number 0, is classified as the format error while the session is
    scanning: not as an expired code, and the host is not notified. *)
Theorem empty_id_or_zero_timestamp_is_format_error now text
    (props : gmap string Value) c :
  Scanning c →
  decode P text = Ok (JObject props) →
  props !! "studentId" = Some (JString "") ∨
  (∃ q, props !! "timestamp" = Some (JNumber (Finite q)) ∧ (q == 0)%Q) →
  let c' := qrCodeSuccessCallback P None now text c in
  scanResult c' = Some formatMessage ∧
  scanResult c' ≠ Some expiredMessage ∧
  notified c' = notified c.
Proof.
  intros Hsc Hdec Hfalsy c'.
  destruct (callback_when_scanning now text c Hsc) as (Hr & Hn & _).
  fold c' in Hr, Hn. rewrite Hr, Hn. clear Hr Hn c'.
  rewrite (validate_object _ _ _ Hdec).
  assert (negb (ToBoolean (default JUndefined (props !! "studentId")))
          || negb (ToBoolean (default JUndefined (props !! "timestamp"))) = true)
    as Hguard.
  { destruct Hfalsy as [-> | (q & -> & Hq)]; cbn [default from_option id].
    - done.
    - rewrite (zero_falsy q Hq). apply orb_true_r. }
  cbn zeta. rewrite Hguard. by rewrite app_nil_r.
Qed.

Lemma forallb_pairs {A} (f : A → A → bool) (l : list A) (x y : A) :
  forallb (λ x, forallb (f x) l) l = true → In x l → In y l → f x y = true.
Proof.
  rewrite forallb_forall. intros Hall Hx Hy.
  specialize (Hall x Hx). rewrite forallb_forall in Hall. exact (Hall y Hy).
Qed.

Lemma quotients_checked :
  forallb (λ x, forallb (Binary64.quotientAgrees x) Binary64.samples)
    Binary64.samples = true.
Proof. vm_compute. reflexivity. Qed.

(** Rounding against the standard library. For all doubles [x] and [y]
    of the sample, rounding the exact quotient of the numbers they denote
    gives the number that their binary64 quotient denotes; the quotients
    include subnormal numbers, zero by underflow and infinity by overflow. *)
Theorem round_agrees_with_binary64 (x y : spec_float) :
  In x Binary64.samples → In y Binary64.samples →
  Binary64.quotientAgrees x y = true.
Proof. apply forallb_pairs, quotients_checked. Qed.

Lemma zrange_In (start : Z) (len : nat) (z : Z) :
  start ≤ z < start + Z.of_nat len → In z (Binary64.zrange start len).
Proof.
  revert start. induction len as [|len IH]; intros start Hz; [lia|].
  cbn [Binary64.zrange]. destruct (decide (z = start)) as [->|Hne].
  - by left.
  - right. apply IH. lia.
Qed.

Lemma agreeOn_In (now age : Z) (ages : list Z) :
  Binary64.agreeOn now ages = true → In age ages →
  Binary64.tooOld now (now - age) = Binary64.tooOldModel now (now - age).
Proof.
  unfold Binary64.agreeOn. rewrite forallb_forall. intros Hall Hin.
  apply eqb_prop, (Hall age Hin).
Qed.

Lemma binary64_window_checked :
  Binary64.agreeOn 1700000100000 (Binary64.zrange 58000 (Z.to_nat 4000)) = true.
Proof. vm_compute. reflexivity. Qed.

(** The age test of the model on doubles. At a current time of
    1700000100000 ms and for every integer age from 58 to 62 seconds, the
    test [(now - timestamp) / 1000 > 60] evaluated in binary64 arithmetic
    gives what the arithmetic of the model gives: true exactly when the age
    exceeds 60000 ms. *)
Theorem binary64_age_test_agrees (age : Z) :
  58000 ≤ age < 62000 →
  Binary64.tooOld 1700000100000 (1700000100000 - age)
    = bool_decide (60000 < age) ∧
  Binary64.tooOldModel 1700000100000 (1700000100000 - age)
    = bool_decide (60000 < age).
Proof.
  intros Hage.
  assert (In age (Binary64.zrange 58000 (Z.to_nat 4000))) as Hin
    by (apply zrange_In; lia).
  rewrite (agreeOn_In _ _ _ binary64_window_checked Hin).
  unfold Binary64.tooOldModel. rewrite age_test_integer.
  by replace (1700000100000 - (1700000100000 - age)) with age by lia.
Qed.

(** The commit after a handler changes neither the error shown nor the
    notifications made. *)
Lemma commit_keeps_results (c : Component) :
  scanResult (commit c) = scanResult c ∧ notified (commit c) = notified c.
Proof.
  unfold commit, effect, cleanup.
  destruct (depsChanged c); [|done]. destruct (hasCleanup c).
  - destruct (scannerRef c) as [h|] eqn:Href; cbn; [|by rewrite Href].
    destruct (scanners c !! h) as [s|] eqn:Hs; cbn; [|by rewrite Href].
    destruct (isScanning s); cbn; [done|by rewrite Href].
  - by destruct (scannerRef c).
Qed.


End QRCodeScannerProperties.

Section QRCodeScannerExamples.
Import JS QRCodeScanner.
#[local] Open Scope Z_scope.

(** Witness of C3: the payload of age exactly 60000 ms is accepted. *)
Lemma fresh_iff_within_60000_witness :
  let c' := qrCodeSuccessCallback Browser.platform None 1700000060000
              Examples.goodText Examples.scanning in
  notified c' = [JString "S123"] ∧ scanResult c' = None.
Proof.
  edestruct (fresh_iff_within_60000 Browser.platform 1700000060000
               Examples.goodText
               {[ "studentId" := JString "S123";
                  "timestamp" := JNumber (ofZ 1700000000000) ]}
               "S123" 1700000000000 Examples.scanning)
    as [[_ Haccepted] _].
  - split; reflexivity.
  - vm_compute. reflexivity.
  - vm_compute. reflexivity.
  - discriminate.
  - vm_compute. reflexivity.
  - discriminate.
  - apply Haccepted. vm_compute. discriminate.
Defined.

(** One millisecond later the same payload is expired. *)
Example one_millisecond_too_old :
  let c' := qrCodeSuccessCallback Browser.platform None 1700000060001
              Examples.goodText Examples.scanning in
  scanResult c' = Some expiredMessage ∧ notified c' = [].
Proof. vm_compute. split; reflexivity. Qed.

(** Counterexample to C3 as stated: the payload with studentId S123 and
    the integer timestamp 0 is older than 60000 ms, yet it is rejected with
    the format error and not with the expired code error. *)
Lemma zero_timestamp_is_not_expired :
  decode Browser.platform Examples.zeroTimestampText
    = Ok (JObject {[ "studentId" := JString "S123";
                     "timestamp" := JNumber (ofZ 0) ]}) ∧
  60000 < 1700000060001 - 0 ∧
  let c' := qrCodeSuccessCallback Browser.platform None 1700000060001
              Examples.zeroTimestampText Examples.scanning in
  scanResult c' = Some formatMessage ∧ scanResult c' ≠ Some expiredMessage.
Proof. vm_compute. repeat split; discriminate. Qed.

(** Witness of C4: a text that is no base64. *)
Lemma malformed_payload_is_format_error_witness :
  let c' := qrCodeSuccessCallback Browser.platform None 1700000000000
              Examples.notBase64Text Examples.scanning in
  scanResult c' = Some formatMessage ∧ notified c' = [].
Proof.
  apply (malformed_payload_is_format_error Browser.platform None 1700000000000
           Examples.notBase64Text Examples.scanning).
  - left. eexists. vm_compute. reflexivity.
  - split; reflexivity.
Defined.

(** Witness of C5, the two failing inputs: a payload whose studentId is
    the number 42 is reported to the host, with that number; so is, at any
    time, a payload whose timestamp is the string soon. *)
Lemma untyped_payload_witness :
  (let c' := qrCodeSuccessCallback Browser.platform None 1700000030000
               Examples.numericIdText Examples.scanning in
   notified c' = [JNumber (ofZ 42)] ∧ scanResult c' = None) ∧
  (let c' := qrCodeSuccessCallback Browser.platform None 9999999999999
               Examples.wordTimestampText Examples.scanning in
   notified c' = [JString "S123"] ∧ scanResult c' = None).
Proof.
  split.
  - destruct (untyped_payload_is_reported Browser.platform 1700000030000
                Examples.numericIdText
                {[ "studentId" := JNumber (ofZ 42);
                   "timestamp" := JNumber (ofZ 1700000000000) ]}
                (JNumber (ofZ 42)) (JNumber (ofZ 1700000000000))
                (ofZ 1700000000000) Examples.scanning) as (Hn & Hr & _).
    + split; reflexivity.
    + vm_compute. reflexivity.
    + reflexivity.
    + reflexivity.
    + reflexivity.
    + reflexivity.
    + reflexivity.
    + right. vm_compute. reflexivity.
    + split; [exact Hn | exact Hr].
  - destruct (untyped_payload_is_reported Browser.platform 9999999999999
                Examples.wordTimestampText
                {[ "studentId" := JString "S123"; "timestamp" := JString "soon" ]}
                (JString "S123") (JString "soon") NaN Examples.scanning)
      as (Hn & Hr & _).
    + split; reflexivity.
    + vm_compute. reflexivity.
    + reflexivity.
    + reflexivity.
    + reflexivity.
    + reflexivity.
    + vm_compute. reflexivity.
    + left. reflexivity.
    + split; [exact Hn | exact Hr].
Defined.

(** The same two inputs, evaluated: what they decode to and what the
    callback does with them. *)
Lemma numeric_studentId_is_reported :
  decode Browser.platform Examples.numericIdText
    = Ok (JObject {[ "studentId" := JNumber (ofZ 42);
                     "timestamp" := JNumber (ofZ 1700000000000) ]}) ∧
  (let c' := qrCodeSuccessCallback Browser.platform None 1700000030000
               Examples.numericIdText Examples.scanning in
   notified c' = [JNumber (ofZ 42)] ∧ scanResult c' = None) ∧
  decode Browser.platform Examples.wordTimestampText
    = Ok (JObject {[ "studentId" := JString "S123";
                     "timestamp" := JString "soon" ]}) ∧
  (let c' := qrCodeSuccessCallback Browser.platform None 9999999999999
               Examples.wordTimestampText Examples.scanning in
   notified c' = [JString "S123"] ∧ scanResult c' = None).
Proof. vm_compute. repeat split; reflexivity. Qed.

(** Witness of C10: the payload whose studentId is the empty string. *)
Lemma empty_id_or_zero_timestamp_witness :
  let c' := qrCodeSuccessCallback Browser.platform None 1700000030000
              Examples.emptyIdText Examples.scanning in
  scanResult c' = Some formatMessage ∧
  scanResult c' ≠ Some expiredMessage ∧
  notified c' = [].
Proof.
  apply (empty_id_or_zero_timestamp_is_format_error Browser.platform
           1700000030000 Examples.emptyIdText
           {[ "studentId" := JString "";
              "timestamp" := JNumber (ofZ 1700000000000) ]}
           Examples.scanning).
  - split; reflexivity.
  - vm_compute. reflexivity.
  - left. vm_compute. reflexivity.
Defined.

(** [handleRetry] itself constructs no scanner and leaves the reference
    alone: it clears the error and, when the scanner held is paused,
    resumes it. *)
Lemma handleRetry_keeps_scanner (c : Component) :
  scanResult (handleRetry c) = None ∧
  scannerRef (handleRetry c) = scannerRef c ∧
  length (scanners (handleRetry c)) = length (scanners c) ∧
  (state <$> current c = Some PAUSED →
   state <$> current (handleRetry c) = Some SCANNING).
Proof.
  destruct c as [res [h|] scs hc dc nt]; unfold handleRetry, current, onCurrent;
    cbn; [|done].
  destruct (scs !! h) as [s|] eqn:Hs; cbn; [|by rewrite Hs].
  unfold resume. destruct (state s) eqn:Hst; cbn; rewrite ?Hs; cbn;
    rewrite ?Hst, ?length_insert; repeat split; try done.
  intros _. rewrite list_lookup_insert_eq; [done|]. by eapply lookup_lt_Some.
Qed.

(** C6 on the code: the session starts with scanner 0; a scan of an
    unreadable text shows the format error, and the commit that follows
    stops the paused scanner, clears the reference and constructs and
    starts scanner 1; the click on Scan Again clears the error, finds
    nothing paused to resume, and its commit stops scanner 1 and constructs
    and starts scanner 2. *)
Theorem retry_constructs_a_new_scanner :
  let P := Browser.platform in
  let c0 := Examples.scanning in
  let c1 := step P c0 (Decoded 0 1700000000000 Examples.notBase64Text) in
  let c2 := step P c1 (StartResolved 1) in
  let c3 := step P c2 ClickScanAgain in
  (scannerRef c0 = Some 0%nat ∧ length (scanners c0) = 1%nat) ∧
  (scanResult c1 = Some formatMessage ∧ scannerRef c1 = Some 1%nat ∧
   length (scanners c1) = 2%nat) ∧
  (scanResult c3 = None ∧ scannerRef c3 = Some 2%nat ∧
   length (scanners c3) = 3%nat ∧
   state <$> scanners c3 !! 0%nat = Some NOT_STARTED ∧
   state <$> scanners c3 !! 1%nat = Some NOT_STARTED).
Proof. vm_compute. repeat split; reflexivity. Qed.

(** The quotient of 60001 by 1000. *)
Lemma round_agrees_witness :
  Binary64.quotientAgrees (Binary64.ofZ 60001) (Binary64.ofZ 1000) = true.
Proof.
  apply round_agrees_with_binary64.
  - do 3 right. left. reflexivity.
  - do 2 right. left. reflexivity.
Defined.

(** The boundary on doubles: 60000 ms is not too old, 60001 ms is. *)
Lemma binary64_age_test_witness :
  Binary64.tooOld 1700000100000 (1700000100000 - 60000) = false ∧
  Binary64.tooOld 1700000100000 (1700000100000 - 60001) = true.
Proof.
  split.
  - apply (binary64_age_test_agrees 60000). lia.
  - apply (binary64_age_test_agrees 60001). lia.
Defined.


End QRCodeScannerExamples.

(* ===================================================================== *)
(** ** Properties of the advisory service *)
(* ===================================================================== *)

Section GeminiServiceProperties.
Import JS GeminiService.
#[local] Open Scope list_scope.

Context (P : Platform) (T : Prompts) (R : Remote).
Implicit Types (op : Operation) (st : Service) (c : Call) (k : string).

(** Every structured operation is one [try] around building the request,
    awaiting the model and parsing the text of its response. *)
Lemma invoke_requestOf op :
  invoke P T R op
  = tryCatch (request ← requestOf T op;
              response ← generateContent R request;
              parseResponse P response)
             returnNull.
Proof.
  destruct op; cbn; unfold generatePersonalizedLearningPath,
    generateStudentInitiatedLearningPath, predictStudentPerformance,
    generateProgressInsights, generateActivitySuggestions, verifyFaceMatch;
    try done.
  - by destruct (personalizedLearningPathPrompt T student).
  - by destruct (studentInitiatedLearningPathPrompt T formData studentName).
  - by destruct (performancePredictionPrompt T student).
  - by destruct (progressInsightsPrompt T progressData studentName).
  - by destruct (activitySuggestionsPrompt T student).
Qed.

Lemma tryCatch_returnNull (body : Exc Value) :
  tryCatch body returnNull = Ok (match body with Ok v => v | Throw _ => JNull end).
Proof. by destruct body. Qed.

(** C8, amended. No operation throws to its caller, whatever the input and
    whatever the model does. Each structured operation returns the parsed
    value when the request is built, the model answers with a text and the
    trimmed text parses; it returns null when building the request throws,
    when the model fails, when the response has no text, and when the text
    is malformed JSON. The chat returns a string: the response text when
    there is one, and otherwise one of its two apologies, not null. *)
Theorem advisory_failures_are_recovered :
  (∀ op, ∃ v, invoke P T R op = Ok v) ∧
  (∀ op e, requestOf T op = Throw e → invoke P T R op = Ok JNull) ∧
  (∀ op request e,
     requestOf T op = Ok request → generateContent R request = Throw e →
     invoke P T R op = Ok JNull) ∧
  (∀ op request response,
     requestOf T op = Ok request → generateContent R request = Ok response →
     invoke P T R op =
       Ok match text response with
          | None => JNull
          | Some t => match JSON_parse P (trim t) with
                      | Ok v => v
                      | Throw _ => JNull
                      end
          end) ∧
  (∀ prompt history context lang st,
     let chat := fst (obtainChat history context lang st) in
     fst (getChatbotResponse R prompt history context lang st) =
       Ok match sendMessage R chat prompt with
          | Throw _ => troubleText
          | Ok result =>
              match text result with
              | None => noResponseText
              | Some t => if String.eqb t "" then noResponseText else t
              end
          end).
Proof.
  repeat split.
  - intros op. rewrite invoke_requestOf, tryCatch_returnNull. eauto.
  - intros op e H. by rewrite invoke_requestOf, H.
  - intros op request e H1 H2. rewrite invoke_requestOf, H1. cbn. by rewrite H2.
  - intros op request response H1 H2. rewrite invoke_requestOf, H1. cbn.
    rewrite H2. cbn. unfold parseResponse.
    destruct (text response) as [t|]; [|done].
    by destruct (JSON_parse P (trim t)).
  - intros prompt history context lang st chat. unfold getChatbotResponse.
    subst chat. destruct (obtainChat history context lang st) as [chat st'].
    cbn. destruct (sendMessage R chat prompt) as [result|]; [|done]. cbn.
    destruct (text result) as [t|]; [|done]. by destruct (String.eqb t "").
Qed.

(** *** The cache of chat sessions *)

Lemma call_state st c :
  snd (call R st c)
  = snd (obtainChat (callHistory c) (callContext c) (callLang c) st).
Proof.
  unfold call, getChatbotResponse.
  by destruct (obtainChat (callHistory c) (callContext c) (callLang c) st).
Qed.

Lemma lookup_after_call st c k :
  chatHistories (snd (call R st c)) !! k =
    match chatHistories st !! k with
    | Some n => Some n
    | None => if decide (keyOf c = k) then Some (length (chats st)) else None
    end.
Proof.
  rewrite call_state. unfold obtainChat. fold (keyOf c).
  destruct (chatHistories st !! keyOf c) as [n|] eqn:Hk; cbn.
  - destruct (chatHistories st !! k) eqn:Hk'; [done|].
    case_decide; [congruence|done].
  - rewrite lookup_insert. case_decide as Heq.
    + subst k. by rewrite Hk.
    + by destruct (chatHistories st !! k).
Qed.

Lemma sessionOf_lookup st c :
  chatHistories (snd (call R st c)) !! keyOf c = Some (sessionOf c st).
Proof.
  rewrite lookup_after_call. unfold sessionOf, obtainChat. fold (keyOf c).
  destruct (chatHistories st !! keyOf c); cbn; [done|]. by case_decide.
Qed.

Lemma serve_cons c (cs : list Call) st :
  serve R (c :: cs) st = serve R cs (snd (call R st c)).
Proof. done. Qed.

(** A cached session stays cached, under the same key. *)
Lemma lookup_serve_Some (cs : list Call) st k n :
  chatHistories st !! k = Some n → chatHistories (serve R cs st) !! k = Some n.
Proof.
  revert st. induction cs as [|c cs IH]; intros st Hk; [done|].
  rewrite serve_cons. apply IH. by rewrite lookup_after_call, Hk.
Qed.

(** A key is absent from the cache exactly when no call has used it. *)
Lemma lookup_serve_None (cs : list Call) st k :
  chatHistories (serve R cs st) !! k = None
  ↔ chatHistories st !! k = None ∧ Forall (λ c, keyOf c ≠ k) cs.
Proof.
  revert st. induction cs as [|c cs IH]; intros st.
  - cbn. rewrite Forall_nil. tauto.
  - rewrite serve_cons, IH, lookup_after_call, Forall_cons.
    destruct (chatHistories st !! k); [by split; intros [? _]|].
    case_decide as Hkey.
    + split; [by intros [? _] | by intros [_ [? _]]].
    + split; [by intros [_ ?] | by intros [_ [_ ?]]].
Qed.

(** Every cached session is one of the sessions created. *)
Lemma cached_sessions_exist (cs : list Call) k n :
  chatHistories (serve R cs fresh) !! k = Some n →
  (n < length (chats (serve R cs fresh)))%nat.
Proof.
  assert (∀ st, (∀ k n, chatHistories st !! k = Some n → (n < length (chats st))%nat) →
                ∀ k n, chatHistories (serve R cs st) !! k = Some n →
                       (n < length (chats (serve R cs st)))%nat) as Hinv.
  { induction cs as [|c cs IH]; intros st Hst; [done|].
    rewrite serve_cons. apply IH. intros k' n'.
    rewrite lookup_after_call, call_state. unfold obtainChat. fold (keyOf c).
    destruct (chatHistories st !! keyOf c) as [m|] eqn:Hc; cbn.
    - destruct (chatHistories st !! k') eqn:Hk'; [|by case_decide; [congruence|]].
      intros [= <-]. by eapply Hst.
    - rewrite length_app. cbn.
      destruct (chatHistories st !! k') eqn:Hk'.
      + intros [= <-]. apply Hst in Hk'. lia.
      + case_decide; [|done]. intros [= <-]. lia. }
  apply Hinv. intros k' n'. unfold fresh. cbn. by rewrite lookup_empty.
Qed.

(** C9, amended. The cached session is keyed by the language and the first
    20 characters of the context. A call whose key equals that of an earlier
    call talks to the session of the earlier call, whatever was called in
    between, and creates none; in particular a call with the same language
    and the same context does. A call whose key differs from the key of
    every previous call creates a session, which is none of the cached
    ones, and caches it. *)
Theorem chat_session_keyed_by_language_and_context_prefix
    (previous between : list Call) (c1 c2 : Call) :
  (callLang c1 = callLang c2 → callContext c1 = callContext c2 →
   keyOf c1 = keyOf c2) ∧
  (keyOf c1 = keyOf c2 →
   let st1 := serve R previous fresh in
   let st2 := serve R between (snd (call R st1 c1)) in
   sessionOf c2 st2 = sessionOf c1 st1 ∧
   chats (snd (call R st2 c2)) = chats st2) ∧
  (Forall (λ c, keyOf c ≠ keyOf c2) previous →
   let st := serve R previous fresh in
   sessionOf c2 st = length (chats st) ∧
   (∀ k n, chatHistories st !! k = Some n → n ≠ sessionOf c2 st) ∧
   chats (snd (call R st c2))
     = chats st ++ [newChat (callHistory c2) (callContext c2) (callLang c2)] ∧
   chatHistories (snd (call R st c2)) !! keyOf c2 = Some (sessionOf c2 st)).
Proof.
  split; [|split].
  - intros Hlang Hctx. unfold keyOf. by rewrite Hlang, Hctx.
  - intros Hkey st1 st2.
    assert (chatHistories st2 !! keyOf c2 = Some (sessionOf c1 st1)) as Hhit.
    { rewrite <- Hkey. apply lookup_serve_Some, sessionOf_lookup. }
    rewrite call_state. unfold sessionOf, obtainChat at 1 3. fold (keyOf c2).
    by rewrite Hhit.
  - intros Hnew st.
    assert (chatHistories st !! keyOf c2 = None) as Hmiss.
    { apply lookup_serve_None. split; [apply lookup_empty | done]. }
    assert (sessionOf c2 st = length (chats st)) as Hsession.
    { unfold sessionOf, obtainChat. fold (keyOf c2). by rewrite Hmiss. }
    split; [done|]. split; [|split].
    + intros k n Hk. apply cached_sessions_exist in Hk. fold st in Hk. lia.
    + rewrite call_state. unfold obtainChat. fold (keyOf c2). by rewrite Hmiss.
    + apply sessionOf_lookup.
Qed.

End GeminiServiceProperties.

Section GeminiServiceExamples.
Import JS GeminiService.
#[local] Open Scope list_scope.

(** The language named in the instruction: for a supported tag, for an
    unknown one, and for tags that name what every object inherits. *)
Example languageName_examples :
  languageName "hi-IN" = "Hindi" ∧
  languageName "fr-FR" = "English" ∧
  languageName "toString" = "function toString() { [native code] }" ∧
  languageName "constructor" = "function Object() { [native code] }" ∧
  languageName "__proto__" = "[object Object]".
Proof. repeat split; reflexivity. Qed.

(** Counterexample to C8 as stated: when the model cannot be reached, the
    chat returns its apology, a string, and not null. *)
Lemma chat_failure_is_not_null :
  let result :=
    fst (getChatbotResponse Examples.unreachable "Hello" []
           "Student dashboard for Alice" "en-IN" fresh) in
  result = Ok troubleText ∧ JString <$> result ≠ Ok JNull.
Proof. split; [reflexivity | discriminate]. Qed.

(** Counterexample to C9 as stated: the second call differs from the
    first in its context, yet it talks to the session of the first call and
    no session is created for it. *)
Lemma different_context_same_session :
  let R := Examples.answering "Fine." in
  let st := serve R [Examples.aliceCall] fresh in
  callLang Examples.bobCall = callLang Examples.aliceCall ∧
  callContext Examples.bobCall ≠ callContext Examples.aliceCall ∧
  sessionOf Examples.bobCall st = sessionOf Examples.aliceCall fresh ∧
  chats (snd (call R st Examples.bobCall)) = chats st ∧
  length (chats st) = 1%nat.
Proof. vm_compute. repeat split; try reflexivity. discriminate. Qed.

(** Witness of C9: after the call about Alice and a call in another
    language and context, the same call about Alice talks to session 0
    again, and the teacher's call had created session 1. *)
Lemma chat_session_witness :
  let R := Examples.answering "Fine." in
  (let st1 := serve R [] fresh in
   let st2 := serve R [Examples.teacherCall] (snd (call R st1 Examples.aliceCall)) in
   sessionOf Examples.aliceCall st2 = sessionOf Examples.aliceCall st1 ∧
   chats (snd (call R st2 Examples.aliceCall)) = chats st2) ∧
  (let st := serve R [Examples.aliceCall] fresh in
   sessionOf Examples.teacherCall st = length (chats st)).
Proof.
  intros R. split.
  - apply (chat_session_keyed_by_language_and_context_prefix R []
             [Examples.teacherCall] Examples.aliceCall Examples.aliceCall).
    reflexivity.
  - apply (chat_session_keyed_by_language_and_context_prefix R
             [Examples.aliceCall] [] Examples.aliceCall Examples.teacherCall).
    repeat constructor. vm_compute. discriminate.
Defined.

End GeminiServiceExamples.

(* ===================================================================== *)
(** ** Lists *)
(* ===================================================================== *)

Section ListFacts.
#[local] Open Scope list_scope.

Lemma filter_all {A} (P : A → Prop) `{!∀ x, Decision (P x)} (l : list A) :
  Forall P l → filter P l = l.
Proof.
  induction 1 as [|x l Hx Hl IH]; [done|].
  by rewrite filter_cons, decide_True, IH by done.
Qed.

Lemma filter_none {A} (P : A → Prop) `{!∀ x, Decision (P x)} (l : list A) :
  Forall (λ x, ¬ P x) l → filter P l = [].
Proof.
  induction 1 as [|x l Hx Hl IH]; [done|].
  by rewrite filter_cons, decide_False, IH by done.
Qed.

End ListFacts.

(* ===================================================================== *)
(** ** The exam portal: duplicates, and the way into an exam *)
(* ===================================================================== *)

Section ExamPortalMore.
Import ExamPortal.
#[local] Open Scope list_scope.

(** When the submissions hold more than one for an exam, the map, and so
    the card and the blocked screen, go by the last of them: a submission
    shadows every earlier one for its exam. *)
Theorem later_submission_shadows_earlier (l1 l2 : list ExamSubmission.t)
    (s : ExamSubmission.t) :
  Forall (λ s', ExamSubmission.examId s' ≠ ExamSubmission.examId s) l2 →
  studentSubmissionsMap (l1 ++ s :: l2) !! ExamSubmission.examId s = Some s.
Proof.
  intros Hlater.
  rewrite studentSubmissionsMap_last, filter_app, filter_cons, decide_True by done.
  rewrite (filter_none _ l2) by done. apply last_snoc.
Qed.

(** The catalog offers an exam for taking only when the student has no
    submission for it, and taking an exam that is offered opens the exam
    taker: the blocked screen is not reached from the catalog. *)
Theorem offered_exam_opens (props : Props) (index : nat) (c : Card) (exam : Exam.t) :
  imap (card (studentSubmissionsMap (submissions props))) (exams props) !! index
    = Some c →
  body c = TakeExamButton exam →
  exams props !! index = Some exam ∧
  Forall (λ s, ExamSubmission.examId s ≠ Exam.id exam) (submissions props) ∧
  render props (takingExam' (step props None (ClickTakeExam exam))) = ExamTaker exam.
Proof.
  rewrite list_lookup_imap. intros Hc Hbody.
  destruct (exams props !! index) as [exam'|] eqn:Hexam; [|done].
  cbn in Hc. injection Hc as <-. cbn in Hbody.
  destruct (studentSubmissionsMap (submissions props) !! Exam.id exam') as [s|] eqn:Hm;
    [done|].
  injection Hbody as <-. split; [done|]. split.
  - by apply studentSubmissionsMap_None.
  - cbn. by rewrite Hm.
Qed.

End ExamPortalMore.

Section ExamPortalMoreExamples.
Import ExamPortal.
#[local] Open Scope list_scope.

(** Algebra was completed first and blocked afterwards: it is blocked. *)
Lemma later_submission_witness :
  studentSubmissionsMap
    ([Examples.completedAlgebra] ++ Examples.blockedAlgebra :: [Examples.completedPhysics])
    !! "e1" = Some Examples.blockedAlgebra.
Proof.
  apply (later_submission_shadows_earlier [Examples.completedAlgebra]
           [Examples.completedPhysics] Examples.blockedAlgebra).
  repeat constructor. discriminate.
Defined.

Lemma offered_exam_opens_witness :
  render Examples.portal (Some Examples.chemistry) = ExamTaker Examples.chemistry.
Proof.
  destruct (offered_exam_opens Examples.portal 2
              (card (studentSubmissionsMap (submissions Examples.portal)) 2
                 Examples.chemistry)
              Examples.chemistry) as (_ & _ & Hopen).
  - reflexivity.
  - reflexivity.
  - exact Hopen.
Defined.

End ExamPortalMoreExamples.

(* ===================================================================== *)
(** ** The scan session follows its state machine *)
(* ===================================================================== *)

Section Machine.
Import JS QRCodeScanner ScanSession.
#[local] Open Scope list_scope.
Context (P : Platform).

Lemma phase_mounted : Settled mounted ∧ phase mounted = Some Acquiring.
Proof.
  split; [|done]. split; [done|]. intros h s Hs Hne.
  destruct h as [|h]; [by destruct Hne|]. done.
Qed.

(** *** Every scanner but the one held is off, whatever happens *)

Lemma othersOff_insert (c : Component) (h : nat) (s' : Html5Qrcode) :
  scannerRef c = Some h → othersOff c →
  othersOff (setScanners (<[h := s']> (scanners c)) c).
Proof.
  intros Href Hoff h' s0. cbn. rewrite Href. intros Hs Hne.
  rewrite list_lookup_insert_ne in Hs by congruence.
  apply (Hoff h' s0 Hs). by rewrite Href.
Qed.

(** A scanner that is starting, capturing or paused is the one held. *)
Lemma active_is_held (c : Component) (h : nat) (s : Html5Qrcode) :
  othersOff c → scanners c !! h = Some s →
  starting s = true ∨ state s ≠ NOT_STARTED → scannerRef c = Some h.
Proof.
  intros Hoff Hs Hactive.
  destruct (decide (scannerRef c = Some h)) as [|Hne]; [done|].
  destruct (Hoff h s Hs Hne) as [Hst Hsg]. destruct Hactive; congruence.
Qed.

(** A handler changes no scanner but the one held. *)
Lemma handle_othersOff (c : Component) (e : Event) :
  othersOff c → othersOff (handle P c e).
Proof.
  intros Hoff. destruct e as [h|h|h now text| |]; cbn [handle].
  - destruct (scanners c !! h) as [s|] eqn:Hs; [|done].
    destruct (starting s) eqn:Hsg; [|done].
    apply othersOff_insert; [|done]. apply (active_is_held c h s); auto.
  - destruct (scanners c !! h) as [s|] eqn:Hs; [|done].
    destruct (starting s) eqn:Hsg; [|done].
    apply (othersOff_insert c h); [|done]. apply (active_is_held c h s); auto.
  - destruct (scanners c !! h) as [s|] eqn:Hs; [|done].
    case_bool_decide as Hst; [|done].
    assert (scannerRef c = Some h) as Href.
    { apply (active_is_held c h s); [done|done|]. right. by rewrite Hst. }
    unfold qrCodeSuccessCallback, onCurrent. destruct (seenScanResult s); [done|].
    rewrite Href, Hs. unfold pause. rewrite Hst. cbn.
    destruct (validate P now text) as [[|v]|err];
      by apply (othersOff_insert c h).
  - destruct (scanResult c) as [message|]; [|done]. unfold handleRetry, onCurrent. cbn.
    destruct (scannerRef c) as [h|] eqn:Href; [|done].
    destruct (scanners c !! h) as [s|] eqn:Hs; [|done]. cbn.
    destruct (resume s) as [s'|err]; [|done]. cbn.
    by apply (othersOff_insert (setScanResult None c) h).
  - done.
Qed.

(** The cleanup stops the scanner held before it lets go of it. *)
Lemma cleanup_othersOff (c : Component) : othersOff c → othersOff (cleanup c).
Proof.
  intros Hoff. unfold cleanup.
  destruct (scannerRef c) as [h|] eqn:Href; [|done].
  destruct (scanners c !! h) as [s|] eqn:Hs; [|done].
  destruct (isScanning s); [|done]. intros h' s'. cbn. intros Hs' _.
  destruct (decide (h = h')) as [<-|Hne].
  - rewrite list_lookup_insert_eq in Hs' by by eapply lookup_lt_Some.
    by injection Hs' as <-.
  - rewrite list_lookup_insert_ne in Hs' by done. apply (Hoff h' s' Hs'). congruence.
Qed.

(** The effect constructs a scanner only when none is held. *)
Lemma effect_othersOff (c : Component) : othersOff c → othersOff (effect c).
Proof.
  intros Hoff. unfold effect. destruct (scannerRef c) as [h|] eqn:Href.
  - intros h' s'. cbn. rewrite <- Href. apply Hoff.
  - intros h' s'. cbn. intros Hs' Hne.
    destruct (decide (h' < length (scanners c))%nat) as [Hin|Hout].
    + rewrite lookup_app_l in Hs' by done. apply (Hoff h' s' Hs'). by rewrite Href.
    + rewrite lookup_app_r in Hs' by lia.
      destruct (h' - length (scanners c))%nat as [|k] eqn:Hk; [|done].
      destruct Hne. f_equal. lia.
Qed.

Lemma Settled_commit (c : Component) : othersOff c → Settled (commit c).
Proof.
  intros Hoff. unfold commit. destruct (depsChanged c) eqn:Hdc; [|done].
  split.
  - unfold effect. by destruct (scannerRef _).
  - apply effect_othersOff.
    destruct (hasCleanup c); [by apply cleanup_othersOff | done].
Qed.

Lemma Settled_step (c : Component) (e : Event) : Settled c → Settled (step P c e).
Proof. intros [_ Hoff]. by apply Settled_commit, handle_othersOff. Qed.

Lemma run_snoc (es : list Event) (e : Event) :
  run P (es ++ [e]) = step P (run P es) e.
Proof. unfold run. by rewrite foldl_app. Qed.

Lemma run_app (es es' : list Event) :
  run P (es ++ es') = foldl (step P) (run P es) es'.
Proof. unfold run. by rewrite foldl_app. Qed.

Lemma Settled_steps (c : Component) (es : list Event) :
  Settled c → Settled (foldl (step P) c es).
Proof.
  revert c. induction es as [|e es IH]; intros c Hset; [done|].
  cbn. by apply IH, Settled_step.
Qed.

(** Every state the component reaches is settled, also when the host
    changes its callback. *)
Lemma Settled_run (es : list Event) : Settled (run P es).
Proof. apply Settled_steps, phase_mounted. Qed.

(** *** One step of the component is one step of the machine *)

(** An event of a scanner that is not the one held changes nothing. *)
Lemma handle_other (c : Component) (e : Event) :
  Settled c → input P c e = Other → handle P c e = c.
Proof.
  intros [_ Hothers] Hin.
  destruct e as [h|h|h now text| |]; cbn in *; [| | |done|done];
    (case_decide as Href; [by repeat case_match|]);
    (destruct (scanners c !! h) as [s|] eqn:Hs; [|done]);
    destruct (Hothers h s Hs Href) as [Hst Hsg]; by rewrite ?Hsg, ?Hst.
Qed.

Lemma commit_settled (c : Component) : depsChanged c = false → commit c = c.
Proof. intros H. unfold commit. by rewrite H. Qed.

Ltac split_phase Hp :=
  repeat match type of Hp with
         | context [match ?x with _ => _ end] => destruct x; try discriminate Hp
         end.

Ltac reduce_tests Hs :=
  repeat (rewrite ?Hs, ?list_lookup_insert_eq by (rewrite ?length_insert; done);
          try (case_bool_decide; [|done]); try (case_bool_decide; [done|]); cbn).

(* The handler first, then React's commit: its cleanup, then the effect. *)
Ltac run_step Hs :=
  unfold step, handle, handleRetry, qrCodeSuccessCallback, onCurrent,
    newOnScanSuccess, setScanResult, setScanners, onScanSuccess, pause, resume,
    withState;
  cbn; reduce_tests Hs;
  unfold commit; cbn; unfold cleanup; cbn; reduce_tests Hs;
  unfold stop, isScanning, withState; cbn; reduce_tests Hs;
  unfold effect; cbn; reduce_tests Hs.

(* The phase of a state whose reference holds the scanner just constructed. *)
Ltac held_is_new :=
  rewrite ?list_insert_insert_eq, ?length_insert;
  unfold phase, current; cbn;
  rewrite list_lookup_middle by (by rewrite length_insert).

(** One step of the component is one step of the machine, and a step
    that leaves the phase alone leaves the whole component alone. *)
Lemma step_simulates (c : Component) (p : Phase) (e : Event) :
  Settled c → phase c = Some p →
  phase (step P c e) = next p (input P c e) ∧
  (next p (input P c e) = Some p → step P c e = c).
Proof.
  intros Hset Hp.
  destruct (decide (input P c e = Other)) as [Hother|Hmine].
  { unfold step. rewrite handle_other, commit_settled, Hother by (done || apply Hset).
    rewrite Hp. by destruct p. }
  destruct Hset as [Hdc Hothers].
  destruct c as [res ref scs hc dc nt]. cbn in Hdc, Hothers. subst dc.
  unfold phase, current in Hp. cbn in Hp.
  destruct ref as [h|]; [|done]. cbn in Hp.
  destruct (scs !! h) as [s|] eqn:Hs; [|done]. cbn in Hp.
  assert (h < length scs)%nat as Hlt by by eapply lookup_lt_Some.
  destruct s as [st sg seen]. cbn in Hp.
  destruct e as [h'|h'|h' now text| |]; cbn in Hmine |- *.
  - case_decide as Href; [|done]. injection Href as <-.
    split_phase Hp; injection Hp as <-.
    all: run_step Hs.
    all: done.
  - case_decide as Href; [|done]. injection Href as <-.
    split_phase Hp; injection Hp as <-.
    all: run_step Hs.
    all: done.
  - case_decide as Href; [|done]. injection Href as <-.
    unfold step. cbn [handle]. unfold qrCodeSuccessCallback.
    destruct (validate P now text) as [[|v]|err];
      split_phase Hp; injection Hp as <-.
    all: run_step Hs.
    all: try done.
    all: by held_is_new.
  - split_phase Hp; injection Hp as <-.
    all: run_step Hs.
    all: try done.
    all: by held_is_new.
  - split_phase Hp; injection Hp as <-.
    all: run_step Hs.
    all: try done.
    all: by held_is_new.
Qed.

Lemma input_stable (c : Component) (e : Event) :
  e ≠ NewOnScanSuccess → input P c e ≠ NewCallback.
Proof. intros He. destruct e; cbn; repeat case_match; done. Qed.

(** Only another callback takes the component out of the phases. *)
Lemma next_stable (p : Phase) (i : Input) : i ≠ NewCallback → is_Some (next p i).
Proof. intros Hi. destruct p, i; by eauto. Qed.

(** While the host keeps its callback, every state the component reaches
    is in a phase. *)
Lemma run_phase (es : list Event) :
  stableCallback es → is_Some (phase (run P es)).
Proof.
  induction es as [|e es IH] using rev_ind; intros Hstable.
  - by eexists.
  - apply Forall_app in Hstable as [Hes He]. rewrite Forall_singleton in He.
    destruct (IH Hes) as [p Hp]. rewrite run_snoc.
    destruct (step_simulates _ p e (Settled_run es) Hp) as [-> _].
    by apply next_stable, input_stable.
Qed.

(** What a phase says about the component. *)
Lemma phase_inv (c : Component) (p : Phase) :
  phase c = Some p →
  ∃ h s, scannerRef c = Some h ∧ scanners c !! h = Some s ∧
    (state s, starting s) =
      match p with
      | Acquiring | ErrorAcquiring | StaleAcquiring => (NOT_STARTED, true)
      | Live | ErrorLive | StaleLive => (SCANNING, false)
      | Done => (PAUSED, false)
      | CameraFailed | Dead => (NOT_STARTED, false)
      end ∧
    (if errorShown p then is_Some (scanResult c) else scanResult c = None) ∧
    hasCleanup c = negb (deaf p) ∧
    (if decide (p = Done) then ∃ v, notified c = [v] else notified c = []).
Proof.
  unfold phase, current. intros Hp.
  destruct (scannerRef c) as [h|] eqn:Href; [|done]. cbn in Hp.
  destruct (scanners c !! h) as [s|] eqn:Hs; [|done]. cbn in Hp.
  exists h, s. split; [done|]. split; [done|].
  destruct (scanResult c), (hasCleanup c), (state s), (starting s),
    (seenScanResult s), (notified c) as [|v [|]]; try discriminate Hp;
    injection Hp as <-; cbn; repeat split; eauto.
  case_decide; [eauto|done].
Qed.

(** While the host passes the same [onScanSuccess], the component
    implements the machine: it starts in [Acquiring]; every state it reaches
    is in a phase; an event moves the phase as [next] says; and an event that
    does not move the phase changes nothing at all. The event may be a render
    with another [onScanSuccess]: it starts a new scanner from the phases in
    which one is capturing, changes nothing in the deaf phases, and takes the
    component out of the nine phases from [Acquiring], [ErrorAcquiring] and
    [Done]; no other event does. *)
Theorem session_is_a_state_machine (es : list Event) (e : Event) :
  stableCallback es →
  phase (run P []) = Some Acquiring ∧
  ∃ p, phase (run P es) = Some p ∧
       phase (run P (es ++ [e])) = next p (input P (run P es) e) ∧
       (e ≠ NewOnScanSuccess → is_Some (phase (run P (es ++ [e])))) ∧
       (next p (input P (run P es) e) = Some p → run P (es ++ [e]) = run P es).
Proof.
  intros Hstable. split; [done|]. destruct (run_phase es Hstable) as [p Hp].
  exists p. split; [done|]. rewrite run_snoc.
  destruct (step_simulates _ p e (Settled_run es) Hp) as [Hnext Hsame].
  split; [done|]. split; [|done].
  intros He. rewrite Hnext. by apply next_stable, input_stable.
Qed.

(** At any time at most one scanner has its camera on or starting: the
    one that [scannerRef] holds. *)
Theorem one_scanner_at_a_time (es : list Event) (h : nat) (s : Html5Qrcode) :
  scanners (run P es) !! h = Some s → scannerRef (run P es) ≠ Some h →
  state s = NOT_STARTED ∧ starting s = false.
Proof. destruct (Settled_run es) as [_ Hothers]. apply Hothers. Qed.

Lemma done_is_final (c : Component) (es : list Event) :
  Settled c → phase c = Some Done → stableCallback es → foldl (step P) c es = c.
Proof.
  intros Hset Hp. induction es as [|e es IH]; [done|].
  intros [He Hes]%Forall_cons. cbn.
  destruct (step_simulates c Done e Hset Hp) as (_ & Hsame).
  rewrite Hsame; [by apply IH|].
  pose proof (input_stable c e He). by destruct (input P c e).
Qed.

(** After the host was notified, a render with another [onScanSuccess]
    starts a new scanner, and a code scanned with it is reported again. *)
Lemma done_is_not_final (c : Component) (now : Z) (text : string) (v v' : Value) :
  phase c = Some Done → notified c = [v] →
  validate P now text = Ok (Success v') →
  let h := length (scanners c) in
  notified (foldl (step P) c [NewOnScanSuccess; StartResolved h; Decoded h now text])
    = [v; v'].
Proof.
  intros Hp Hn Hvalid. destruct c as [res ref scs hc dc nt].
  unfold phase, current in Hp. cbn in Hp, Hn. subst nt.
  destruct ref as [h|]; [|done]. cbn in Hp.
  destruct (scs !! h) as [s|] eqn:Hs; [|done]. cbn in Hp.
  assert (h < length scs)%nat as Hlt by by eapply lookup_lt_Some.
  destruct s as [st sg seen]. cbn in Hp.
  split_phase Hp. clear Hp. cbn [foldl scanners].
  set (old := {| state := NOT_STARTED; starting := false; seenScanResult := None |}).
  set (new := {| state := NOT_STARTED; starting := true; seenScanResult := None |}).
  set (live := {| state := SCANNING; starting := false; seenScanResult := None |}).
  (* the render: the cleanup stops the paused scanner, the effect starts a new one *)
  match goal with
  | |- context [step P ?c NewOnScanSuccess] =>
      assert (step P c NewOnScanSuccess
              = {| scanResult := None; scannerRef := Some (length scs);
                   scanners := <[h := old]> scs ++ [new];
                   hasCleanup := true; depsChanged := false; notified := [v] |})
        as -> by (run_step Hs; by rewrite length_insert)
  end.
  assert ((<[h := old]> scs ++ [new]) !! length scs = Some new) as Hnew
    by (by rewrite list_lookup_middle by (by rewrite length_insert)).
  (* its camera comes on *)
  match goal with
  | |- context [step P ?c (StartResolved _)] =>
      assert (step P c (StartResolved (length scs))
              = {| scanResult := None; scannerRef := Some (length scs);
                   scanners := <[length scs := live]> (<[h := old]> scs ++ [new]);
                   hasCleanup := true; depsChanged := false; notified := [v] |})
        as -> by (unfold step; cbn [handle scanners]; by rewrite Hnew)
  end.
  assert ((<[length scs := live]> (<[h := old]> scs ++ [new])) !! length scs
          = Some live) as Hlive
    by (apply list_lookup_insert_eq; rewrite length_app, length_insert; cbn; lia).
  (* the code is read *)
  unfold step. cbn [handle scanners]. rewrite Hlive. cbn.
  unfold qrCodeSuccessCallback, onCurrent. cbn [scannerRef scanners].
  rewrite Hlive. cbn. by rewrite Hvalid.
Qed.

(** While the host passes the same [onScanSuccess], it is notified at
    most once in a session, and nothing changes after that: the scanner stays
    paused. The assumption is needed: after the notification, a render with
    another [onScanSuccess] starts a new scanner, and a code that it reads is
    reported again. *)
Theorem host_is_notified_at_most_once (es : list Event) :
  stableCallback es →
  notified (run P es) = [] ∨
  ∃ v, notified (run P es) = [v] ∧ phase (run P es) = Some Done ∧
       (∀ es', stableCallback es' → run P (es ++ es') = run P es) ∧
       (∀ now text v', validate P now text = Ok (Success v') →
          let h := length (scanners (run P es)) in
          notified (run P (es ++ [NewOnScanSuccess; StartResolved h; Decoded h now text]))
            = [v; v']).
Proof.
  intros Hstable. destruct (run_phase es Hstable) as [p Hp].
  destruct (phase_inv _ p Hp) as (h & s & _ & _ & _ & _ & _ & Hn).
  case_decide as Hdone; [|by left]. subst p. destruct Hn as [v Hv].
  right. exists v. split; [done|]. split; [done|]. split.
  - intros es' Hes'. rewrite run_app. apply done_is_final; [apply Settled_run|done..].
  - intros now text v' Hvalid. cbn zeta. rewrite run_app.
    by apply done_is_not_final.
Qed.

Lemma deaf_next (p : Phase) (i : Input) :
  deaf p = true → ∃ p', next p i = Some p' ∧ deaf p' = true.
Proof. destruct p, i; try done; by eexists. Qed.

(** From a deaf phase the session stays deaf, and the host is not notified. *)
Lemma deaf_forever (c : Component) (p : Phase) (es : list Event) :
  Settled c → phase c = Some p → deaf p = true →
  ∃ p', phase (foldl (step P) c es) = Some p' ∧ deaf p' = true ∧
        notified (foldl (step P) c es) = [].
Proof.
  revert c p. induction es as [|e es IH]; intros c p Hset Hp Hdeaf.
  - exists p. split; [done|]. split; [done|].
    destruct (phase_inv _ p Hp) as (h & s & _ & _ & _ & _ & _ & Hn).
    case_decide; [by subst|done].
  - destruct (step_simulates c p e Hset Hp) as (Hp' & _).
    destruct (deaf_next p (input P c e) Hdeaf) as (p' & Hnext & Hdeaf').
    rewrite Hnext in Hp'. cbn.
    eapply IH; [by apply Settled_step|done|done].
Qed.

(** In the two phases that follow a camera that did not start, every
    camera is off. *)
Lemma failed_camerasOff (c : Component) (p : Phase) :
  Settled c → phase c = Some p → p = CameraFailed ∨ p = Dead → camerasOff c.
Proof.
  intros [_ Hothers] Hp Hfailed h' s' Hs'.
  destruct (phase_inv c p Hp) as (h & s & Href & Hs & Hst & _).
  destruct (decide (h = h')) as [<-|Hne].
  - rewrite Hs in Hs'. injection Hs' as <-.
    destruct Hfailed as [-> | ->]; by injection Hst as -> ->.
  - apply (Hothers h' s' Hs'). congruence.
Qed.

Lemma failed_next (p : Phase) (i : Input) :
  p = CameraFailed ∨ p = Dead →
  ∃ p', next p i = Some p' ∧ (p' = CameraFailed ∨ p' = Dead) ∧
        (p = Dead ∨ i = ScanAgain → p' = Dead).
Proof.
  intros [-> | ->]; destruct i; cbn; eexists; (split; [done|]);
    (split; [by eauto|]); intros [|]; done.
Qed.

Lemma failed_forever (c : Component) (p : Phase) (es : list Event) :
  Settled c → phase c = Some p → p = CameraFailed ∨ p = Dead →
  let c' := foldl (step P) c es in
  Settled c' ∧
  (phase c' = Some CameraFailed ∨ phase c' = Some Dead) ∧
  (p = Dead ∨ In ClickScanAgain es → phase c' = Some Dead).
Proof.
  revert c p. induction es as [|e es IH]; intros c p Hset Hp Hfailed; cbn.
  - split; [done|]. split; [by destruct Hfailed as [-> | ->]; eauto|].
    by intros [-> | []].
  - destruct (step_simulates c p e Hset Hp) as (Hp' & _).
    destruct (failed_next p (input P c e) Hfailed) as (p' & Hnext & Hfailed' & Hdead').
    rewrite Hnext in Hp'.
    destruct (IH _ _ (Settled_step c e Hset) Hp' Hfailed') as (? & ? & Hdead).
    split; [done|]. split; [done|]. intros Hclick. apply Hdead.
    destruct Hclick as [Hp0 | [He | Hin]]; [| |by right].
    + left. apply Hdead'. by left.
    + left. apply Hdead'. right. by subst e.
Qed.

(** When the camera cannot start, the session shows the camera error and
    never recovers: whatever happens afterwards, every camera stays off and
    the host is not notified; a click on Scan Again only removes the error
    message, for good. *)
Theorem camera_failure_is_final (es0 es : list Event) :
  phase (run P es0) = Some CameraFailed →
  let c := run P (es0 ++ es) in
  notified c = [] ∧ camerasOff c ∧
  (phase c = Some CameraFailed ∨ phase c = Some Dead) ∧
  (In ClickScanAgain es → phase c = Some Dead ∧ scanResult c = None).
Proof.
  intros Hp c. subst c. rewrite run_app.
  pose proof (Settled_run es0) as Hset.
  destruct (failed_forever _ CameraFailed es Hset Hp) as (Hset' & Hfailed & Hdead);
    [by left|].
  assert (∃ p, phase (foldl (step P) (run P es0) es) = Some p ∧
               (p = CameraFailed ∨ p = Dead)) as (p & Hp' & Hpp).
  { destruct Hfailed; eauto. }
  split; [|split; [|split]].
  - destruct (deaf_forever _ CameraFailed es Hset Hp) as (_ & _ & _ & ?); done.
  - by eapply failed_camerasOff.
  - done.
  - intros Hclick. split; [by apply Hdead; right|].
    destruct (phase_inv _ Dead (Hdead (or_intror Hclick)))
      as (_ & _ & _ & _ & _ & Hres & _). done.
Qed.

(** The camera of the first scanner failing to start is such a failure. *)
Lemma mount_camera_refused :
  phase (run P [StartRejected 0]) = Some CameraFailed ∧
  scanResult (run P [StartRejected 0]) = Some cameraMessage.
Proof. done. Qed.

Lemma early_retry_keeps_scanner (c : Component) (h : nat) :
  phase c = Some ErrorAcquiring → scannerRef c = Some h →
  scannerRef (step P c ClickScanAgain) = Some h ∧
  scanners (step P c ClickScanAgain) = scanners c.
Proof.
  destruct c as [res ref scs hc dc nt]. unfold phase, current. cbn.
  intros Hp ->. cbn in Hp.
  destruct (scs !! h) as [[st sg seen]|] eqn:Hs; [|done]. cbn in Hp.
  split_phase Hp. run_step Hs. by destruct dc.
Qed.

(** A click on Scan Again while the camera of the re-created scanner is
    still starting makes the session deaf: the error goes away, the camera
    comes on when it has started, and no code scanned afterwards is ever
    reported to the host or answered with an error. *)
Theorem early_retry_is_never_heard (es0 es : list Event) (h : nat) :
  phase (run P es0) = Some ErrorAcquiring →
  scannerRef (run P es0) = Some h →
  (let c := run P (es0 ++ ClickScanAgain :: es) in
   notified c = [] ∧ ∃ p, phase c = Some p ∧ deaf p = true) ∧
  (let c := run P (es0 ++ [ClickScanAgain; StartResolved h]) in
   phase c = Some StaleLive ∧ scanResult c = None ∧
   state <$> current c = Some SCANNING ∧
   ∀ now decodedText, step P c (Decoded h now decodedText) = c).
Proof.
  intros Hp Href. pose proof (Settled_run es0) as Hset.
  pose proof (Settled_step _ ClickScanAgain Hset) as Hset1.
  destruct (step_simulates _ _ ClickScanAgain Hset Hp) as (Hp1 & _).
  cbn in Hp1. split.
  - cbn zeta. rewrite run_app. cbn [foldl].
    destruct (deaf_forever _ _ es Hset1 Hp1) as (p & ? & ? & ?); eauto.
  - cbn zeta. rewrite run_app. cbn [foldl].
    set (c1 := step P (run P es0) ClickScanAgain) in *.
    assert (scannerRef c1 = Some h) as Href1.
    { subst c1. by destruct (early_retry_keeps_scanner _ h Hp Href). }
    pose proof (Settled_step _ (StartResolved h) Hset1) as Hset2.
    destruct (step_simulates _ _ (StartResolved h) Hset1 Hp1) as (Hp2 & _).
    cbn in Hp2. rewrite Href1 in Hp2. rewrite decide_True in Hp2 by done. cbn in Hp2.
    split; [done|].
    destruct (phase_inv _ _ Hp2) as (h2 & s2 & Href2 & Hs2 & Hst2 & Hres2 & _).
    split; [done|]. split.
    + unfold current. rewrite Href2. cbn. rewrite Hs2. cbn. by injection Hst2 as -> _.
    + intros now text.
      destruct (step_simulates _ _ (Decoded h now text) Hset2 Hp2) as (_ & Hsame).
      apply Hsame. by destruct (input _ _ _).
Qed.

Lemma cleanup_idempotent (c : Component) : cleanup (cleanup c) = cleanup c.
Proof.
  unfold cleanup at 2 3.
  destruct (scannerRef c) as [h|] eqn:Href; [|unfold cleanup; by rewrite Href].
  destruct (scanners c !! h) as [s|] eqn:Hs; [|unfold cleanup; by rewrite Href, Hs].
  destruct (isScanning s) eqn:Hsc; [done|]. unfold cleanup. by rewrite Href, Hs, Hsc.
Qed.

(** Closing the session while the scanner held is capturing or paused,
    in a phase whose effect has registered its cleanup, stops it: every
    camera is off afterwards and the reference is cleared. Running the
    cleanup again changes nothing. *)
Theorem unmount_stops_the_camera (es : list Event) (p : Phase) :
  phase (run P es) = Some p → p = Live ∨ p = Done ∨ p = ErrorLive →
  let c' := unmount (run P es) in
  camerasOff c' ∧ scannerRef c' = None ∧ cleanup c' = c' ∧
  notified c' = notified (run P es).
Proof.
  intros Hp Hcapturing c'. subst c'.
  destruct (Settled_run es) as [_ Hothers].
  destruct (phase_inv _ p Hp) as (h & s & Href & Hs & Hst & _ & Hhc & _).
  assert (hasCleanup (run P es) = true ∧ isScanning s = true) as [Hclean Hsc].
  { rewrite Hhc. unfold isScanning.
    destruct Hcapturing as [-> | [-> | ->]]; injection Hst as -> _; done. }
  unfold unmount. rewrite Hclean.
  split; [|split; [|split]].
  - intros h' s'. unfold cleanup. rewrite Href, Hs, Hsc. cbn.
    destruct (decide (h = h')) as [<-|Hne].
    + rewrite list_lookup_insert_eq by by eapply lookup_lt_Some. by intros [= <-].
    + rewrite list_lookup_insert_ne by done. intros Hs'. apply (Hothers h' s' Hs').
      congruence.
  - unfold cleanup. by rewrite Href, Hs, Hsc.
  - apply cleanup_idempotent.
  - unfold cleanup. by rewrite Href, Hs, Hsc.
Qed.

(** Closing the session does not always release the camera. In the deaf
    phase with the camera on, the last run of the effect returned no cleanup,
    so closing stops nothing and the scanner goes on capturing. And while a
    camera is starting, closing finds nothing to stop; the camera comes on
    afterwards, with the component gone. *)
Theorem unmount_can_leave_the_camera_on (es : list Event) (p : Phase) (h : nat) :
  phase (run P es) = Some p → scannerRef (run P es) = Some h →
  let c := run P es in
  (p = StaleLive →
   unmount c = c ∧ state <$> current (unmount c) = Some SCANNING) ∧
  (p = Acquiring ∨ p = ErrorAcquiring ∨ p = StaleAcquiring →
   unmount c = c ∧
   state <$> current (handle P (unmount c) (StartResolved h)) = Some SCANNING).
Proof.
  intros Hp Href c. subst c.
  destruct (phase_inv _ p Hp) as (h0 & s & Href0 & Hs & Hst & _ & Hhc & _).
  assert (h0 = h) as -> by congruence.
  assert (h < length (scanners (run P es)))%nat as Hlt by by eapply lookup_lt_Some.
  split.
  - intros ->. assert (unmount (run P es) = run P es) as ->.
    { unfold unmount. by rewrite Hhc. }
    split; [done|]. unfold current. rewrite Href. cbn. rewrite Hs. cbn.
    by injection Hst as -> _.
  - intros Hacq. assert (unmount (run P es) = run P es) as ->.
    { unfold unmount, cleanup. rewrite Href, Hs. unfold isScanning.
      destruct Hacq as [-> | [-> | ->]]; injection Hst as -> _;
        by destruct (hasCleanup _). }
    split; [done|]. cbn. rewrite Hs.
    assert (starting s = true) as ->.
    { by destruct Hacq as [-> | [-> | ->]]; injection Hst as _ ->. }
    unfold current. cbn. rewrite Href. cbn.
    by rewrite list_lookup_insert_eq.
Qed.

End Machine.

Section MachineExamples.
Import JS QRCodeScanner ScanSession.
#[local] Open Scope Z_scope.

(** The camera comes on and a good code is read, with one callback
    throughout: from [Live] to [Done]. *)
Lemma session_witness :
  let es := [StartResolved 0] in
  let e := Decoded 0 1700000030000 Examples.goodText in
  ∃ p, phase (run Browser.platform es) = Some p ∧
       phase (run Browser.platform (es ++ [e]))
         = next p (input Browser.platform (run Browser.platform es) e) ∧
       is_Some (phase (run Browser.platform (es ++ [e]))).
Proof.
  intros es e.
  destruct (session_is_a_state_machine Browser.platform es e)
    as (_ & p & Hp & Hnext & Hsome & _).
  - constructor; [discriminate | constructor].
  - exists p. split; [exact Hp|]. split; [exact Hnext|]. apply Hsome. discriminate.
Defined.

(** A good code is read; then the host renders the component with
    another callback, the camera of the new scanner comes on and the code is
    read again: the host is notified a second time. *)
Lemma host_is_notified_witness :
  let es := [StartResolved 0; Decoded 0 1700000030000 Examples.goodText] in
  let h := length (scanners (run Browser.platform es)) in
  ∃ v, notified (run Browser.platform es) = [v] ∧
       notified (run Browser.platform
                   (es ++ [NewOnScanSuccess; StartResolved h;
                           Decoded h 1700000040000 Examples.goodText]))
         = [v; JString "S123"].
Proof.
  intros es h.
  destruct (host_is_notified_at_most_once Browser.platform es)
    as [Hnone | (v & Hv & _ & _ & Hagain)].
  - repeat (constructor; [discriminate|]). constructor.
  - exfalso. vm_compute in Hnone. discriminate.
  - exists v. split; [exact Hv|].
    apply (Hagain 1700000040000 Examples.goodText (JString "S123")).
    vm_compute. reflexivity.
Defined.

(** A session in which an unreadable code is scanned: scanner 0 is
    stopped, scanner 1 is held. *)
Lemma one_scanner_at_a_time_witness :
  let c := run Browser.platform
             [StartResolved 0; Decoded 0 1700000000000 Examples.notBase64Text] in
  scannerRef c = Some 1%nat ∧
  state <$> scanners c !! 0%nat = Some NOT_STARTED.
Proof.
  split; [reflexivity|].
  destruct (one_scanner_at_a_time Browser.platform
              [StartResolved 0; Decoded 0 1700000000000 Examples.notBase64Text] 0
              {| state := NOT_STARTED; starting := false; seenScanResult := None |})
    as [Hst _].
  - vm_compute. reflexivity.
  - vm_compute. discriminate.
  - reflexivity.
Defined.

(** The camera is refused at mount; then the user clicks Scan Again, and
    nothing that follows brings a camera on. *)
Lemma camera_failure_witness :
  let c := run Browser.platform
             ([StartRejected 0] ++ [ClickScanAgain; StartResolved 0; ClickScanAgain]) in
  notified c = [] ∧ camerasOff c ∧ phase c = Some Dead ∧ scanResult c = None.
Proof.
  destruct (camera_failure_is_final Browser.platform [StartRejected 0]
              [ClickScanAgain; StartResolved 0; ClickScanAgain])
    as (Hn & Hoff & _ & Hdead).
  - reflexivity.
  - destruct Hdead as [Hp Hres]; [left; reflexivity|].
    split; [exact Hn|]. split; [exact Hoff|]. split; [exact Hp | exact Hres].
Defined.

(** An unreadable code, then Scan Again before the camera of scanner 1 is
    on: the good code scanned afterwards is not reported. *)
Lemma early_retry_witness :
  let es0 := [StartResolved 0; Decoded 0 1700000000000 Examples.notBase64Text] in
  notified (run Browser.platform
              (es0 ++ ClickScanAgain ::
                 [StartResolved 1; Decoded 1 1700000030000 Examples.goodText])) = [] ∧
  phase (run Browser.platform (es0 ++ [ClickScanAgain; StartResolved 1]))
    = Some StaleLive.
Proof.
  intros es0.
  destruct (early_retry_is_never_heard Browser.platform es0
              [StartResolved 1; Decoded 1 1700000030000 Examples.goodText] 1)
    as [[Hn _] [Hp _]].
  - vm_compute. reflexivity.
  - vm_compute. reflexivity.
  - split; [exact Hn | exact Hp].
Defined.

(** Closing the session while scanner 0 is capturing. *)
Lemma unmount_stops_the_camera_witness :
  let c' := unmount (run Browser.platform [StartResolved 0]) in
  camerasOff c' ∧ scannerRef c' = None.
Proof.
  destruct (unmount_stops_the_camera Browser.platform [StartResolved 0] Live)
    as (Hoff & Href & _).
  - vm_compute. reflexivity.
  - left. reflexivity.
  - split; [exact Hoff | exact Href].
Defined.

(** Closing the deaf session: scanner 1 goes on capturing. *)
Lemma unmount_leak_witness :
  let c := run Browser.platform
             [StartResolved 0; Decoded 0 1700000000000 Examples.notBase64Text;
              ClickScanAgain; StartResolved 1] in
  unmount c = c ∧ state <$> current (unmount c) = Some SCANNING.
Proof.
  intros c.
  destruct (unmount_can_leave_the_camera_on Browser.platform
              [StartResolved 0; Decoded 0 1700000000000 Examples.notBase64Text;
               ClickScanAgain; StartResolved 1] StaleLive 1) as [Hleak _].
  - vm_compute. reflexivity.
  - vm_compute. reflexivity.
  - apply Hleak. reflexivity.
Defined.

End MachineExamples.

(* ===================================================================== *)
(** ** The cache of chat sessions *)
(* ===================================================================== *)

Section ChatCache.
Import JS GeminiService.
#[local] Open Scope list_scope.
Context (R : Remote).
Implicit Types (st : Service) (c : Call) (k : string) (cs : list Call).

Lemma serve_snoc cs c st :
  serve R (cs ++ [c]) st = snd (call R (serve R cs st) c).
Proof. unfold serve. by rewrite foldl_app. Qed.

Lemma chats_after_call st c :
  chats (snd (call R st c)) =
    match chatHistories st !! keyOf c with
    | Some _ => chats st
    | None => chats st ++ [newChat (callHistory c) (callContext c) (callLang c)]
    end.
Proof.
  rewrite call_state. unfold obtainChat. fold (keyOf c).
  by destruct (chatHistories st !! keyOf c).
Qed.

(** The session cached under a key is the one that the first call with
    that key created: from that call's history, context and language. *)
Theorem cached_session_is_of_first_call cs k n :
  chatHistories (serve R cs fresh) !! k = Some n →
  ∃ pre c post,
    cs = pre ++ c :: post ∧ keyOf c = k ∧ Forall (λ c', keyOf c' ≠ k) pre ∧
    chats (serve R cs fresh) !! n
      = Some (newChat (callHistory c) (callContext c) (callLang c)).
Proof.
  induction cs as [|c cs IH] using rev_ind; [done|].
  rewrite serve_snoc, lookup_after_call, chats_after_call.
  destruct (chatHistories (serve R cs fresh) !! k) as [m|] eqn:Hk.
  - intros [= ->]. destruct (IH eq_refl) as (pre & c0 & post & -> & Hkey & Hpre & Hn).
    exists pre, c0, (post ++ [c]). split; [by rewrite <- app_assoc|].
    split; [done|]. split; [done|].
    destruct (chatHistories _ !! keyOf c); [done|].
    apply lookup_app_l_Some. done.
  - case_decide as Hkey; [|done]. intros [= <-]. subst k. rewrite Hk.
    exists cs, c, []. split; [done|]. split; [done|]. split.
    + by apply lookup_serve_None in Hk as [_ ?].
    + by rewrite list_lookup_middle.
Qed.

(** Nothing is evicted: every key used by a call stays cached, and there
    are exactly as many sessions as keys in the cache. *)
Theorem chat_cache_never_evicts cs :
  (∀ c, c ∈ cs → is_Some (chatHistories (serve R cs fresh) !! keyOf c)) ∧
  length (chats (serve R cs fresh)) = size (chatHistories (serve R cs fresh)) ∧
  dom (chatHistories (serve R cs fresh)) = list_to_set (keyOf <$> cs).
Proof.
  split; [|split].
  - intros c Hc.
    destruct (chatHistories (serve R cs fresh) !! keyOf c) eqn:Hk; [by eexists|].
    apply lookup_serve_None in Hk as [_ Hall]. rewrite Forall_forall in Hall.
    by destruct (Hall c Hc).
  - induction cs as [|c cs IH] using rev_ind; [done|].
    rewrite serve_snoc, chats_after_call, call_state. unfold obtainChat.
    fold (keyOf c). destruct (chatHistories _ !! keyOf c) eqn:Hk; cbn; [done|].
    rewrite length_app, map_size_insert_None by done. cbn. lia.
  - induction cs as [|c cs IH] using rev_ind; [by apply dom_empty_L|].
    rewrite serve_snoc, call_state. unfold obtainChat. fold (keyOf c).
    rewrite fmap_app, list_to_set_app_L. cbn.
    destruct (chatHistories _ !! keyOf c) eqn:Hk; cbn.
    + rewrite IH, union_empty_r_L, (comm_L (∪)).
      apply elem_of_dom_2 in Hk. rewrite IH in Hk.
      symmetry. by apply subseteq_union_1_L, singleton_subseteq_l.
    + by rewrite dom_insert_L, IH, union_empty_r_L, (comm_L (∪)).
Qed.

Lemma append_inj_length (a1 a2 b1 b2 : string) :
  String.length a1 = String.length a2 →
  (a1 ++ b1 = a2 ++ b2)%string → a1 = a2 ∧ b1 = b2.
Proof.
  revert a2. induction a1 as [|c a1 IH]; intros [|c2 a2]; cbn; try done.
  intros [= Hlen] [= -> Heq]. destruct (IH a2 Hlen Heq) as [-> ->]. done.
Qed.

(** For language tags of one length, as the three supported ones are,
    two calls have the same key exactly when they have the same language and
    the same first 20 characters of context. *)
Theorem historyKey_separates (lang1 lang2 context1 context2 : string) :
  String.length lang1 = String.length lang2 →
  historyKey lang1 context1 = historyKey lang2 context2
  ↔ lang1 = lang2 ∧ String.substring 0 20 context1 = String.substring 0 20 context2.
Proof.
  intros Hlen. unfold historyKey. split.
  - cbn. intros [= Heq].
    destruct (append_inj_length _ _ _ _ Hlen Heq) as [-> Hrest].
    split; [done|]. cbn in Hrest. by injection Hrest.
  - by intros [-> ->].
Qed.

End ChatCache.

Section ChatCacheExamples.
Import JS GeminiService.
#[local] Open Scope list_scope.

(** The calls about Alice and about Bob, both in en-IN, share a key
    although their contexts differ: the first 20 characters are the same. *)
Lemma historyKey_separates_witness :
  historyKey "en-IN" "Student dashboard for Alice"
    = historyKey "en-IN" "Student dashboard for Bob".
Proof.
  apply (historyKey_separates "en-IN" "en-IN"); [reflexivity|].
  split; reflexivity.
Defined.

(** Language tags of different lengths can collide. *)
Example historyKey_collision :
  historyKey "en" "IN-home" = historyKey "en-IN" "home".
Proof. reflexivity. Qed.

(** After the calls about Alice, by the teacher and about Bob, the key of
    Alice's call holds session 0, created from Alice's call. *)
Lemma cached_session_witness :
  let R := Examples.answering "Fine." in
  let cs := [Examples.aliceCall; Examples.teacherCall; Examples.bobCall] in
  ∃ pre c post,
    cs = pre ++ c :: post ∧ keyOf c = keyOf Examples.bobCall ∧
    Forall (λ c', keyOf c' ≠ keyOf Examples.bobCall) pre ∧
    chats (serve R cs fresh) !! 0%nat
      = Some (newChat (callHistory c) (callContext c) (callLang c)).
Proof.
  intros R cs.
  apply (cached_session_is_of_first_call R cs (keyOf Examples.bobCall) 0).
  vm_compute. reflexivity.
Defined.

End ChatCacheExamples.

(* ===================================================================== *)
(** ** Properties of plain objects *)
(* ===================================================================== *)

Section PlainObjectProperties.
Import PlainObject.
#[local] Open Scope list_scope.
Context {V : Type}.
Implicit Types (o : t V) (k : string) (v : V).

Lemma eqb_decide (k k' : string) : String.eqb k k' = bool_decide (k = k').
Proof.
  destruct (String.eqb_spec k k') as [->|Hne];
    [by rewrite bool_decide_eq_true_2 | by rewrite bool_decide_eq_false_2].
Qed.

Lemma get_set o k v k' :
  get (set o k v) k' = if decide (k = k') then Some v else get o k'.
Proof.
  induction o as [|[k0 v0] o IH]; cbn.
  - rewrite eqb_decide. by case_bool_decide; case_decide.
  - rewrite !eqb_decide. case_bool_decide as H0; cbn; rewrite !eqb_decide.
    + subst k0. case_bool_decide; case_decide; done.
    + rewrite IH. case_bool_decide; case_decide; congruence.
Qed.

Lemma get_modify o k (f : V → V) k' :
  get (modify o k f) k' = if decide (k = k') then f <$> get o k else get o k'.
Proof.
  induction o as [|[k0 v0] o IH]; cbn; [by case_decide|].
  rewrite !eqb_decide. case_bool_decide as H0; cbn; rewrite !eqb_decide, ?IH;
    repeat (case_bool_decide || case_decide); subst; done.
Qed.

(** A new property comes last; an assignment to an own property and a
    change in place keep the order. *)
Lemma keys_set o k v :
  fst <$> set o k v
  = match get o k with Some _ => fst <$> o | None => (fst <$> o) ++ [k] end.
Proof.
  induction o as [|[k0 v0] o IH]; cbn; [done|].
  rewrite !eqb_decide. case_bool_decide; cbn; [done|].
  rewrite IH. by destruct (get o k).
Qed.

Lemma keys_modify o k (f : V → V) : fst <$> modify o k f = fst <$> o.
Proof.
  induction o as [|[k0 v0] o IH]; cbn; [done|].
  rewrite !eqb_decide. case_bool_decide; cbn; [done|]. by rewrite IH.
Qed.

Lemma get_Some_elem_of o k v : get o k = Some v → (k, v) ∈ o.
Proof.
  induction o as [|[k0 v0] o IH]; cbn; [done|].
  rewrite eqb_decide. case_bool_decide.
  - intros [= ->]. subst. by left.
  - intros H'. right. by apply IH.
Qed.

Lemma get_None o k : get o k = None ↔ k ∉ fst <$> o.
Proof.
  induction o as [|[k0 v0] o IH]; cbn.
  - split; [intros _; apply not_elem_of_nil | done].
  - rewrite eqb_decide, not_elem_of_cons. case_bool_decide as Hk; cbn in *.
    + split; [done|]. by intros [? _].
    + rewrite IH. split; [by split|by intros [_ ?]].
Qed.

Lemma elem_of_get o k v : NoDup (fst <$> o) → (k, v) ∈ o → get o k = Some v.
Proof.
  induction o as [|[k0 v0] o IH]; cbn; [by intros _ ?%elem_of_nil|].
  rewrite NoDup_cons. intros [Hk0 Hnd] Hin. rewrite eqb_decide.
  apply elem_of_cons in Hin as [[= -> ->]|Hin].
  - by rewrite bool_decide_eq_true_2.
  - case_bool_decide; [|by apply IH]. subst k0. destruct Hk0.
    apply list_elem_of_fmap. by exists (k, v).
Qed.

End PlainObjectProperties.

Section PlainObjectOrder.
Import PlainObject.
#[local] Open Scope list_scope.
Context {V : Type}.
Implicit Types (o : t V) (k : string) (v : V).

Lemma insertIndex_perm {A} (n : N) (x : A) (l : list (N * A)) :
  insertIndex n x l ≡ₚ (n, x) :: l.
Proof.
  induction l as [|[m y] l IH]; cbn; [done|].
  destruct (n <? m)%N; [done|]. rewrite IH. apply Permutation_swap.
Qed.

(** The entries are the own properties, in another order. *)
Lemma entries_perm o : entries o ≡ₚ o.
Proof.
  unfold entries.
  assert ((foldr (λ e acc, match arrayIndex e.1 with
                           | Some n => insertIndex n e acc
                           | None => acc
                           end) [] o).*2
          ≡ₚ filter (λ e, arrayIndex e.1 ≠ None) o) as ->.
  { induction o as [|e o IH]; [done|]. cbn [foldr]. rewrite filter_cons.
    destruct (arrayIndex e.1) as [n|] eqn:Hn.
    - rewrite decide_True by done. rewrite insertIndex_perm. cbn. by rewrite IH.
    - by rewrite decide_False by (by intros []). }
  rewrite (comm (++)).
  etransitivity; [|apply (filter_app_complement (λ e, arrayIndex e.1 = None))].
  done.
Qed.

(** Without array indices among the keys, the order is that of creation. *)
Lemma entries_creation_order o :
  Forall (λ e, arrayIndex e.1 = None) o → entries o = o.
Proof.
  intros Hall. unfold entries.
  assert (foldr (λ e acc, match arrayIndex e.1 with
                          | Some n => insertIndex n e acc
                          | None => acc
                          end) [] o = []) as ->.
  { induction Hall as [|e o He Hall IH]; [done|]. cbn. by rewrite He. }
  cbn. induction Hall as [|e o He Hall IH]; [done|].
  rewrite filter_cons, decide_True by done. by rewrite IH.
Qed.

End PlainObjectOrder.

(* ===================================================================== *)
(** ** Properties of the analysis of the student's data *)
(* ===================================================================== *)

Section SubjectStats.
Import JS Builtins Advisory.
#[local] Open Scope list_scope.
#[local] Open Scope Z_scope.
Implicit Types (attendance : list AttendanceRecord.t) (record : AttendanceRecord.t).
Implicit Types (k : string) (s : Stat).

Lemma subjectStats_snoc attendance record :
  subjectStats (attendance ++ [record]) = count (subjectStats attendance) record.
Proof. unfold subjectStats. by rewrite foldl_app. Qed.

Lemma subjectStats_get attendance k :
  PlainObject.get (subjectStats attendance) k =
    if PlainObject.inherited k || bool_decide (recordsOf k attendance = [])
    then None
    else Some {| present := Z.of_nat (length (filter (λ r, isPresent r = true)
                                                (recordsOf k attendance)));
                 total := Z.of_nat (length (recordsOf k attendance)) |}.
Proof.
  induction attendance as [|record attendance IH] using rev_ind.
  - cbn. by rewrite orb_true_r.
  - rewrite subjectStats_snoc. unfold count, recordsOf in *.
    rewrite filter_app, filter_cons, filter_nil.
    destruct (PlainObject.inherited (AttendanceRecord.subject record)) eqn:Hinh.
    { rewrite IH. case_decide as Hk; [|by rewrite app_nil_r].
      subst k. by rewrite Hinh. }
    set (o := subjectStats attendance) in *.
    set (sub := AttendanceRecord.subject record) in *.
    set (o1 := match PlainObject.get o sub with
               | Some _ => o
               | None => PlainObject.set o sub {| present := 0; total := 0 |}
               end).
    assert (∀ k', PlainObject.get o1 k' =
                  if decide (sub = k')
                  then Some (default {| present := 0; total := 0 |} (PlainObject.get o sub))
                  else PlainObject.get o k') as Ho1.
    { intros k'. subst o1. destruct (PlainObject.get o sub) eqn:Hg.
      - case_decide; [by subst|done].
      - by rewrite get_set. }
    assert (PlainObject.get
              (PlainObject.modify
                 (if isPresent record
                  then PlainObject.modify o1 sub
                         (λ s, {| present := present s + 1; total := total s |})
                  else o1) sub
                 (λ s, {| present := present s; total := total s + 1 |})) k
            = if decide (sub = k)
              then let s := default {| present := 0; total := 0 |}
                              (PlainObject.get o sub) in
                   Some {| present := if isPresent record then present s + 1
                                      else present s;
                           total := total s + 1 |}
              else PlainObject.get o k) as ->.
    { rewrite get_modify. destruct (isPresent record);
        rewrite ?get_modify, !Ho1; (case_decide; [|done]);
        rewrite ?decide_True by done; reflexivity. }
    case_decide as Hk; [|by rewrite app_nil_r, IH].
    subst k. rewrite IH, Hinh. cbn [orb]. clear IH Ho1.
    set (rs := filter (λ r, AttendanceRecord.subject r = sub) attendance).
    assert (rs ++ [record] ≠ []) as Hne by (by intros [_ [=]]%app_eq_nil).
    rewrite (bool_decide_eq_false_2 _ Hne).
    rewrite filter_app, !length_app, filter_cons, filter_nil. cbn [length].
    destruct (decide (rs = [])) as [Hnil|Hnil].
    + rewrite (bool_decide_eq_true_2 _ Hnil), Hnil. cbn.
      destruct (isPresent record);
        by rewrite ?decide_True, ?decide_False by done.
    + rewrite (bool_decide_eq_false_2 _ Hnil). cbn.
      destruct (isPresent record);
        rewrite ?decide_True, ?decide_False by done; cbn; do 2 f_equal; lia.
Qed.

End SubjectStats.

Section Percentages.
Import JS Builtins Advisory.
#[local] Open Scope Q_scope.

Lemma round_nonneg (x : Q) : 0 <= x → atLeast (round x) 0.
Proof.
  intros Hx. unfold round.
  destruct (Qcompare_spec x 0) as [H0|Hneg|Hpos].
  - cbn. apply Qle_refl.
  - exfalso. apply (Qlt_irrefl x). by apply Qlt_le_trans with 0.
  - by apply roundPositive_nonneg.
Qed.

(** Rounding keeps a value between 0 and a double. *)
Lemma round_between (x y : Q) (k f : Z) :
  Double y k f → 0 <= x → x <= y → ∃ v, round x = Finite v ∧ 0 <= v ∧ v <= y.
Proof.
  intros Hy H0 Hxy.
  pose proof (round_nonneg x H0) as Hge. pose proof (round_le x y k f Hy Hxy) as Hle.
  destruct (round x) as [|s|v]; cbn in *; [done|congruence|]. by exists v.
Qed.

Lemma round_exact (x y : Q) (k f : Z) :
  Double y k f → x == y → ∃ v, round x = Finite v ∧ v == y.
Proof.
  intros Hy Hxy.
  assert (x <= y) as H1 by (rewrite Hxy; apply Qle_refl).
  assert (y <= x) as H2 by (rewrite Hxy; apply Qle_refl).
  pose proof (round_le x y k f Hy H1) as Hle.
  pose proof (round_ge x y k f Hy H2) as Hge.
  destruct (round x) as [|s|v]; cbn in *; [done|congruence|].
  exists v. split; [done|]. by apply Qle_antisym.
Qed.

Lemma round_zero (x : Q) : x == 0 → round x = Finite 0.
Proof. intros Hx. unfold round. apply Qeq_alt in Hx. by rewrite Hx. Qed.

Lemma Double_1 : Double 1 1 0.
Proof. repeat split; by vm_compute. Qed.

Lemma Double_100 : Double (inject_Z 100) 100 0.
Proof. repeat split; by vm_compute. Qed.

(** The percentage of [p] out of [t] is a number from 0 to 100; it is 0
    for none and 100 for all. *)
Lemma percent_range (p t : Z) :
  (0 ≤ p ≤ t)%Z → (0 < t)%Z →
  ∃ q, mul (div (ofZ p) (ofZ t)) (ofZ 100) = Finite q ∧ 0 <= q ∧ q <= inject_Z 100 ∧
       (p = 0%Z → q == 0) ∧ (p = t → q == inject_Z 100).
Proof.
  intros Hp Ht. unfold ofZ, div.
  assert (Qeq_bool (inject_Z t) 0 = false) as ->.
  { apply not_true_iff_false. rewrite Qeq_bool_iff. unfold Qeq. cbn. lia. }
  assert (0 < inject_Z t) as Htq by (rewrite <- (Zlt_Qlt 0); lia).
  assert (0 <= inject_Z p / inject_Z t) as H0.
  { apply Qle_shift_div_l; [done|]. rewrite Qmult_0_l, <- (Zle_Qle 0). lia. }
  assert (inject_Z p / inject_Z t <= 1) as H1.
  { apply Qle_shift_div_r; [done|]. rewrite Qmult_1_l, <- Zle_Qle. lia. }
  destruct (round_between _ 1 1 0 Double_1 H0 H1) as (r & Hr & Hr0 & Hr1).
  rewrite Hr. cbn [mul].
  assert (0 <= r * inject_Z 100) as H0'.
  { apply Qmult_le_0_compat; [done|]. by vm_compute. }
  assert (r * inject_Z 100 <= inject_Z 100) as H1'.
  { apply Qle_trans with (1 * inject_Z 100).
    - apply Qmult_le_compat_r; [done|]. by vm_compute.
    - rewrite Qmult_1_l. apply Qle_refl. }
  destruct (round_between _ _ 100 0 Double_100 H0' H1') as (q & Hq & Hq0 & Hq1).
  exists q. split; [done|]. split; [done|]. split; [done|]. split.
  - intros ->. rewrite round_zero in Hr by (by rewrite Qmult_0_l || (unfold Qdiv; ring)).
    injection Hr as <-. rewrite round_zero in Hq by ring. by injection Hq as <-.
  - intros ->.
    assert (inject_Z t / inject_Z t == 1) as Hone.
    { field. intros Hz. rewrite Hz in Htq. by apply Qlt_irrefl in Htq. }
    destruct (round_exact _ 1 1 0 Double_1 Hone) as (r' & Hr' & Hr'1).
    rewrite Hr in Hr'. injection Hr' as <-.
    assert (r * inject_Z 100 == inject_Z 100) as Hhundred by (rewrite Hr'1; ring).
    destruct (round_exact _ _ 100 0 Double_100 Hhundred) as (q' & Hq' & Hq'1).
    rewrite Hq in Hq'. by injection Hq' as <-.
Qed.

End Percentages.

Section Formatting.
Import JS Builtins Advisory.
#[local] Open Scope Q_scope.

(** The text of a number from 0 to 100: the tenths nearest to it, as
    digits, a point, and one digit. *)
Lemma toFixed1_percent (q : Q) :
  0 <= q → q <= inject_Z 100 →
  ∃ n : Z, (0 ≤ n ≤ 1000)%Z ∧ n = Qfloor (q * 10 + (1 # 2)) ∧
           toFixed1 (Finite q) = Some (tenths n).
Proof.
  intros H0 H100. exists (Qfloor (q * 10 + (1 # 2))).
  pose proof (Qabs_pos q H0) as Habs.
  assert (Qfloor (Qabs q * 10 + (1 # 2)) = Qfloor (q * 10 + (1 # 2))) as Hn.
  { apply Qfloor_comp. by rewrite Habs. }
  split; [|split; [done|]].
  - split.
    + rewrite <- (Qfloor_Z 0). apply Qfloor_resp_le.
      apply Qle_trans with (0 * 10 + (1 # 2)); [by vm_compute|].
      apply Qplus_le_l, Qmult_le_compat_r; [done | by vm_compute].
    + assert (Qfloor (q * 10 + (1 # 2))
              ≤ Qfloor (inject_Z 100 * 10 + (1 # 2)))%Z as Hle.
      { apply Qfloor_resp_le, Qplus_le_l, Qmult_le_compat_r; [done | by vm_compute]. }
      by vm_compute in Hle.
  - unfold toFixed1.
    assert (Qlt_bool q 0 = false) as ->.
    { unfold Qlt_bool. apply negb_false_iff. by apply Qle_bool_iff. }
    assert (Qle_bool (inject_Z (10 ^ 21)) (Qabs q) = false) as ->.
    { apply not_true_iff_false. rewrite Qle_bool_iff, Habs. intros Hbig.
      assert (inject_Z (10 ^ 21) <= inject_Z 100) as Habsurd by by eapply Qle_trans.
      by vm_compute in Habsurd. }
    cbn zeta. by rewrite Hn.
Qed.

End Formatting.

(** A loop that keeps the first best of a list: what [for ... in] does
    twice in one pass, for the least and for the greatest percentage. *)
Section FirstBest.
Import JS Builtins Advisory.
#[local] Open Scope list_scope.
Context {A : Type} (value : A → number) (better : number → number → bool).

Hypothesis better_trans : ∀ x s y,
  finite x → finite s → finite y →
  better x s = true → better s y = true → better x y = true.
Hypothesis better_weak : ∀ x s y,
  finite x → finite s → finite y →
  better x s = true → better y s = false → better x y = true.

Lemma pick_first_best (init : string * number) (l : list (string * A)) :
  finite init.2 → Forall (λ x, finite (value x.2)) l →
  let best := foldl (pick value better) init l in
  (best = init ∧ Forall (λ x, better (value x.2) init.2 = false) l) ∨
  (∃ pre x post,
     l = pre ++ x :: post ∧ best = (x.1, value x.2) ∧
     better (value x.2) init.2 = true ∧
     Forall (λ y, better (value x.2) (value y.2) = true) pre ∧
     Forall (λ y, better (value y.2) (value x.2) = false) post).
Proof.
  intros Hinit Hfin. cbn zeta.
  induction l as [|z l IH] using rev_ind; [by left|].
  apply Forall_app in Hfin as [Hfin Hz]. rewrite Forall_singleton in Hz.
  rewrite foldl_app. cbn [foldl].
  destruct (IH Hfin) as [[-> Hnone] | (pre & x & post & -> & -> & Hx & Hpre & Hpost)].
  - unfold pick. destruct (better (value z.2) init.2) eqn:Hb.
    + right. exists l, z, []. split; [done|]. split; [done|]. split; [done|].
      split; [|done]. rewrite Forall_forall in Hnone, Hfin |- *. intros y Hy.
      apply (better_weak _ init.2); eauto.
    + left. split; [done|]. apply Forall_app. by split; [|apply Forall_singleton].
  - apply Forall_app in Hfin as [Hfpre Hfx]. apply Forall_cons in Hfx as [Hfx Hfpost].
    unfold pick. cbn [snd fst]. destruct (better (value z.2) (value x.2)) eqn:Hb.
    + right. exists (pre ++ x :: post), z, []. split; [done|]. split; [done|].
      split; [by apply (better_trans _ (value x.2))|]. split; [|done].
      apply Forall_app. split; [|apply Forall_cons; split].
      * rewrite Forall_forall in Hpre, Hfpre |- *. intros y Hy.
        apply (better_trans _ (value x.2)); eauto.
      * done.
      * rewrite Forall_forall in Hpost, Hfpost |- *. intros y Hy.
        apply (better_weak _ (value x.2)); eauto.
    + right. exists pre, x, (post ++ [z]). split; [by rewrite <- app_assoc|].
      split; [done|]. split; [done|]. split; [done|].
      apply Forall_app. by split; [|apply Forall_singleton].
Qed.

End FirstBest.

Section Extremes.
Import JS Builtins Advisory.
#[local] Open Scope list_scope.
Implicit Types (attendance : list AttendanceRecord.t) (k : string) (s : Stat).

Lemma subjectStats_NoDup attendance : NoDup (fst <$> subjectStats attendance).
Proof.
  induction attendance as [|record attendance IH] using rev_ind; [constructor|].
  rewrite subjectStats_snoc. unfold count.
  destruct (PlainObject.inherited _); [done|].
  rewrite keys_modify.
  assert (NoDup (fst <$> match PlainObject.get (subjectStats attendance)
                                 (AttendanceRecord.subject record) with
                         | Some _ => subjectStats attendance
                         | None => PlainObject.set (subjectStats attendance)
                                     (AttendanceRecord.subject record)
                                     {| present := 0; total := 0 |}
                         end)) as Hnd.
  { destruct (PlainObject.get _ _) eqn:Hg; [done|].
    rewrite keys_set, Hg. apply NoDup_app. split; [done|]. split.
    - intros k Hk ->%list_elem_of_singleton. by apply get_None in Hg.
    - apply NoDup_singleton. }
  destruct (isPresent record); by rewrite ?keys_modify.
Qed.

(** The counts of an entry are sound: some record has the subject, and
    the present ones are among them. *)
Lemma subjectStats_entry attendance k s :
  (k, s) ∈ subjectStats attendance →
  PlainObject.inherited k = false ∧ (0 ≤ present s ≤ total s)%Z ∧ (0 < total s)%Z.
Proof.
  intros Hin. apply elem_of_get in Hin; [|apply subjectStats_NoDup].
  rewrite subjectStats_get in Hin.
  destruct (PlainObject.inherited k); [done|]. cbn in Hin.
  case_bool_decide as Hnil; [done|]. injection Hin as <-. cbn.
  split; [done|]. split.
  - split; [lia|]. apply inj_le, length_filter.
  - destruct (recordsOf k attendance); [done|]. cbn. lia.
Qed.

Lemma entries_finite attendance :
  Forall (λ x, finite (percentage x.2))
    (PlainObject.entries (subjectStats attendance)).
Proof.
  rewrite Forall_forall. intros [k s] Hin. rewrite entries_perm in Hin.
  apply subjectStats_entry in Hin as (_ & Hp & Ht).
  destruct (percent_range _ _ Hp Ht) as (q & Hq & _). by exists q.
Qed.

Lemma entries_range attendance k s :
  (k, s) ∈ PlainObject.entries (subjectStats attendance) →
  ∃ q, percentage s = Finite q ∧ (0 <= q)%Q ∧ (q <= inject_Z 100)%Q.
Proof.
  intros Hin. rewrite entries_perm in Hin.
  apply subjectStats_entry in Hin as (_ & Hp & Ht).
  destruct (percent_range _ _ Hp Ht) as (q & Hq & ? & ? & _). by exists q.
Qed.

Lemma lt_trans' (x s y : number) :
  finite x → finite s → finite y →
  lt x s = true → lt s y = true → lt x y = true.
Proof.
  intros [a ->] [b ->] [c ->]. unfold lt, gt, Qlt_bool.
  rewrite !negb_true_iff, <- !not_true_iff_false, !Qle_bool_iff.
  intros H1 H2 H3. apply Qnot_le_lt in H1, H2.
  apply (Qlt_irrefl a). apply Qlt_trans with b; [done|]. by apply Qlt_le_trans with c.
Qed.

Lemma lt_weak (x s y : number) :
  finite x → finite s → finite y →
  lt x s = true → lt y s = false → lt x y = true.
Proof.
  intros [a ->] [b ->] [c ->]. unfold lt, gt, Qlt_bool.
  rewrite negb_false_iff, !negb_true_iff, <- !not_true_iff_false, !Qle_bool_iff.
  intros H1 H2 H3. apply Qnot_le_lt in H1.
  apply (Qlt_irrefl a). apply Qlt_le_trans with b; [done|]. by apply Qle_trans with c.
Qed.

Lemma gt_trans' (x s y : number) :
  finite x → finite s → finite y →
  gt x s = true → gt s y = true → gt x y = true.
Proof. intros Hx Hs Hy H1 H2. by apply (lt_trans' y s x). Qed.

Lemma gt_weak (x s y : number) :
  finite x → finite s → finite y →
  gt x s = true → gt y s = false → gt x y = true.
Proof.
  intros [a ->] [b ->] [c ->]. unfold gt, Qlt_bool.
  rewrite negb_false_iff, !negb_true_iff, <- !not_true_iff_false, !Qle_bool_iff.
  intros H1 H2 H3. apply Qnot_le_lt in H1.
  apply (Qlt_irrefl b). apply Qlt_le_trans with a; [done|]. by apply Qle_trans with c.
Qed.

(** The loop keeps the first least and the first greatest percentage,
    each on its own. *)
Lemma compare_picks (e : Extremes) (x : string * Stat) :
  (weakestSubject (compare e x), minPercentage (compare e x))
    = pick percentage lt (weakestSubject e, minPercentage e) x ∧
  (strongestSubject (compare e x), maxPercentage (compare e x))
    = pick percentage gt (strongestSubject e, maxPercentage e) x.
Proof.
  destruct x as [k s]. unfold compare, pick. cbn.
  destruct (lt (percentage s) (minPercentage e)); cbn;
    destruct (gt (percentage s) (maxPercentage e)); done.
Qed.

Lemma foldl_compare_picks (e : Extremes) (l : list (string * Stat)) :
  (weakestSubject (foldl compare e l), minPercentage (foldl compare e l))
    = foldl (pick percentage lt) (weakestSubject e, minPercentage e) l ∧
  (strongestSubject (foldl compare e l), maxPercentage (foldl compare e l))
    = foldl (pick percentage gt) (strongestSubject e, maxPercentage e) l.
Proof.
  revert e. induction l as [|x l IH]; intros e; [done|]. cbn [foldl].
  destruct (compare_picks e x) as [<- <-]. apply IH.
Qed.

(** The weakest subject is the first, in the order of [for ... in], among
    those with the least percentage, and the strongest the first among
    those with the greatest. *)
Lemma extremes_first_best (none : string) attendance :
  let l := PlainObject.entries (subjectStats attendance) in
  let e := extremes none (subjectStats attendance) in
  l ≠ [] →
  (∃ pre s post,
     l = pre ++ (weakestSubject e, s) :: post ∧ minPercentage e = percentage s ∧
     Forall (λ y, lt (percentage s) (percentage y.2) = true) pre ∧
     Forall (λ y, lt (percentage y.2) (percentage s) = false) post) ∧
  (∃ pre s post,
     l = pre ++ (strongestSubject e, s) :: post ∧ maxPercentage e = percentage s ∧
     Forall (λ y, gt (percentage s) (percentage y.2) = true) pre ∧
     Forall (λ y, gt (percentage y.2) (percentage s) = false) post).
Proof.
  intros l e Hne. subst e. unfold extremes. fold l.
  set (init := {| weakestSubject := none; strongestSubject := none;
                  minPercentage := ofZ 101; maxPercentage := ofZ (-1) |}).
  destruct (foldl_compare_picks init l) as [Hw Hs].
  pose proof (entries_finite attendance) as Hfin. fold l in Hfin.
  assert (∃ x, x ∈ l) as [[k0 s0] Hx0].
  { destruct l as [|x l']; [done|]. exists x. by left. }
  destruct (entries_range attendance k0 s0 Hx0) as (q0 & Hq0 & Hq00 & Hq01).
  split.
  - destruct (pick_first_best percentage lt lt_trans' lt_weak
                (none, ofZ 101) l)
      as [[_ Hnone] | (pre & [k s] & post & Hl & Hbest & _ & Hpre & Hpost)];
      [by eexists | done | |].
    + exfalso. rewrite Forall_forall in Hnone. specialize (Hnone _ Hx0).
      cbn in Hnone. rewrite Hq0 in Hnone. unfold lt, gt, ofZ, Qlt_bool in Hnone.
      apply negb_false_iff, Qle_bool_iff in Hnone.
      assert (inject_Z 101 <= inject_Z 100)%Q as Habs by by eapply Qle_trans.
      by vm_compute in Habs.
    + cbn in Hw, Hbest. rewrite Hbest in Hw. injection Hw as Hk Hm.
      exists pre, s, post. by rewrite Hk.
  - destruct (pick_first_best percentage gt gt_trans' gt_weak
                (none, ofZ (-1)) l)
      as [[_ Hnone] | (pre & [k s] & post & Hl & Hbest & _ & Hpre & Hpost)];
      [by eexists | done | |].
    + exfalso. rewrite Forall_forall in Hnone. specialize (Hnone _ Hx0).
      cbn in Hnone. rewrite Hq0 in Hnone. unfold gt, ofZ, Qlt_bool in Hnone.
      apply negb_false_iff, Qle_bool_iff in Hnone.
      assert (0 <= inject_Z (-1))%Q as Habs by by eapply Qle_trans.
      by vm_compute in Habs.
    + cbn in Hs, Hbest. rewrite Hbest in Hs. injection Hs as Hk Hm.
      exists pre, s, post. by rewrite Hk.
Qed.

Lemma lt_Finite (a b : Q) :
  (lt (Finite a) (Finite b) = true → (a < b)%Q) ∧
  (lt (Finite a) (Finite b) = false → (b <= a)%Q).
Proof.
  unfold lt, gt, Qlt_bool.
  rewrite negb_true_iff, negb_false_iff, <- not_true_iff_false, !Qle_bool_iff.
  split; [apply Qnot_le_lt | done].
Qed.

Lemma gt_Finite (a b : Q) :
  (gt (Finite a) (Finite b) = true → (b < a)%Q) ∧
  (gt (Finite a) (Finite b) = false → (a <= b)%Q).
Proof. apply (lt_Finite b a). Qed.

(** The statistics of a subject are the counts of its records: all of
    them in [total], the present ones in [present]. A subject without
    records has no entry, and neither has a subject that names a property of
    [Object.prototype]. No subject has two entries. *)
Theorem subject_statistics_count_records attendance k :
  PlainObject.get (subjectStats attendance) k =
    (if PlainObject.inherited k || bool_decide (recordsOf k attendance = [])
     then None
     else Some {| present := Z.of_nat (length (filter (λ r, isPresent r = true)
                                                 (recordsOf k attendance)));
                  total := Z.of_nat (length (recordsOf k attendance)) |}) ∧
  NoDup (PlainObject.keys (subjectStats attendance)).
Proof.
  split; [apply subjectStats_get|].
  change (NoDup (PlainObject.entries (subjectStats attendance)).*1).
  rewrite entries_perm. apply subjectStats_NoDup.
Qed.

(** The search for the weakest and the strongest subject, when some
    subject has statistics: it ends with the least and the greatest of the
    percentages, and names the first subject, in the order of [for ... in],
    that has the least one and the first that has the greatest one. *)
Theorem weakest_and_strongest_subject (none : string) attendance :
  let l := PlainObject.entries (subjectStats attendance) in
  let e := extremes none (subjectStats attendance) in
  l ≠ [] →
  ∃ lo hi : Q,
    minPercentage e = Finite lo ∧ maxPercentage e = Finite hi ∧
    (∀ k s, (k, s) ∈ l →
       ∃ q, percentage s = Finite q ∧ (lo <= q)%Q ∧ (q <= hi)%Q) ∧
    (∃ pre s post,
       l = pre ++ (weakestSubject e, s) :: post ∧ percentage s = Finite lo ∧
       Forall (λ y, ∃ q, percentage y.2 = Finite q ∧ (lo < q)%Q) pre) ∧
    (∃ pre s post,
       l = pre ++ (strongestSubject e, s) :: post ∧ percentage s = Finite hi ∧
       Forall (λ y, ∃ q, percentage y.2 = Finite q ∧ (q < hi)%Q) pre).
Proof.
  intros l e Hne.
  destruct (extremes_first_best none attendance Hne)
    as [(pre & sw & post & Hw & Hmin & Hpre & Hpost)
        (pre' & ss & post' & Hs & Hmax & Hpre' & Hpost')].
  fold l e in Hw, Hs, Hmin, Hmax.
  assert (∀ y, y ∈ l → ∃ q, percentage y.2 = Finite q) as Hfin.
  { intros [k s] Hy. destruct (entries_range attendance k s Hy) as (q & Hq & _).
    by exists q. }
  destruct (Hfin (weakestSubject e, sw)) as [lo Hlo];
    [rewrite Hw; apply elem_of_app; right; by left|].
  destruct (Hfin (strongestSubject e, ss)) as [hi Hhi];
    [rewrite Hs; apply elem_of_app; right; by left|].
  cbn [snd] in Hlo, Hhi. rewrite Hlo in Hmin, Hpre, Hpost.
  rewrite Hhi in Hmax, Hpre', Hpost'.
  rewrite Forall_forall in Hpre, Hpost, Hpre', Hpost'.
  exists lo, hi. split; [done|]. split; [done|]. split; [|split].
  - intros k s Hin. destruct (Hfin _ Hin) as [q Hq]. cbn [snd] in Hq.
    exists q. split; [done|]. split.
    + rewrite Hw in Hin.
      apply elem_of_app in Hin as [Hin|[Heq|Hin]%elem_of_cons].
      * specialize (Hpre _ Hin). cbn [snd] in Hpre. rewrite Hq in Hpre.
        by apply Qlt_le_weak, lt_Finite.
      * injection Heq as _ ->. rewrite Hlo in Hq. injection Hq as <-. apply Qle_refl.
      * specialize (Hpost _ Hin). cbn [snd] in Hpost. rewrite Hq in Hpost.
        by apply lt_Finite.
    + rewrite Hs in Hin.
      apply elem_of_app in Hin as [Hin|[Heq|Hin]%elem_of_cons].
      * specialize (Hpre' _ Hin). cbn [snd] in Hpre'. rewrite Hq in Hpre'.
        by apply Qlt_le_weak, gt_Finite.
      * injection Heq as _ ->. rewrite Hhi in Hq. injection Hq as <-. apply Qle_refl.
      * specialize (Hpost' _ Hin). cbn [snd] in Hpost'. rewrite Hq in Hpost'.
        by apply gt_Finite.
  - exists pre, sw, post. split; [done|]. split; [done|].
    rewrite Forall_forall. intros y Hy.
    destruct (Hfin y) as [q Hq]; [rewrite Hw; apply elem_of_app; by left|].
    exists q. split; [done|]. specialize (Hpre _ Hy). rewrite Hq in Hpre.
    by apply lt_Finite.
  - exists pre', ss, post'. split; [done|]. split; [done|].
    rewrite Forall_forall. intros y Hy.
    destruct (Hfin y) as [q Hq]; [rewrite Hs; apply elem_of_app; by left|].
    exists q. split; [done|]. specialize (Hpre' _ Hy). rewrite Hq in Hpre'.
    by apply gt_Finite.
Qed.

End Extremes.

Section PromptData.
Import JS Builtins Advisory.
#[local] Open Scope list_scope.
Implicit Types (attendance : list AttendanceRecord.t) (student : Student.t).

(** The text of a percentage of [p] out of [t]. *)
Lemma percent_text (p t : Z) :
  (0 ≤ p ≤ t)%Z → (0 < t)%Z →
  ∃ n, (0 ≤ n ≤ 1000)%Z ∧
       toFixed1 (mul (div (ofZ p) (ofZ t)) (ofZ 100)) = Some (tenths n) ∧
       (p = 0%Z → n = 0%Z) ∧ (p = t → n = 1000%Z).
Proof.
  intros Hp Ht.
  destruct (percent_range p t Hp Ht) as (q & -> & Hq0 & Hq1 & Hnone & Hall).
  destruct (toFixed1_percent q Hq0 Hq1) as (n & Hn & Hfloor & Htext).
  exists n. split; [done|]. split; [done|]. split.
  - intros Hz. rewrite Hfloor.
    assert (q * 10 + (1 # 2) == 1 # 2)%Q as -> by (rewrite (Hnone Hz); ring). done.
  - intros Hz. rewrite Hfloor.
    assert (q * 10 + (1 # 2) == 2001 # 2)%Q as -> by (rewrite (Hall Hz); ring). done.
Qed.

(** The overall attendance that goes into the prompts is the text of a
    percentage from 0.0 to 100.0 with one digit after the point: 100.0 when
    every record is present, and when there is no record at all; 0.0 when
    there are records and none is present. *)
Lemma attendance_text attendance :
  ∃ n, (0 ≤ n ≤ 1000)%Z ∧
       toFixed1 (attendancePercentage attendance) = Some (tenths n) ∧
       (Forall (λ r, isPresent r = true) attendance → n = 1000%Z) ∧
       (attendance ≠ [] → Forall (λ r, isPresent r ≠ true) attendance → n = 0%Z).
Proof.
  unfold attendancePercentage. destruct attendance as [|r attendance].
  - exists 1000%Z. by repeat split.
  - set (a := r :: attendance).
    assert (0 < Z.of_nat (length a))%Z as Ht by (cbn; lia).
    rewrite (proj2 (Z.ltb_lt _ _) Ht).
    destruct (percent_text (Z.of_nat (length (filter (λ r, isPresent r = true) a)))
                (Z.of_nat (length a))) as (n & Hn & Htext & Hnone & Hall);
      [split; [lia | apply inj_le, length_filter] | done |].
    exists n. split; [done|]. split; [done|]. split.
    + intros Hpresent. apply Hall. by rewrite filter_all.
    + intros _ Habsent. apply Hnone. by rewrite filter_none.
Qed.

(** No subject has statistics exactly when every record's subject names
    a property of [Object.prototype]; so when there is no record. *)
Lemma subjectStats_nil attendance :
  subjectStats attendance = []
  ↔ Forall (λ r, PlainObject.inherited (AttendanceRecord.subject r) = true) attendance.
Proof.
  split.
  - intros Hnil. rewrite Forall_forall. intros r Hr.
    destruct (PlainObject.inherited (AttendanceRecord.subject r)) eqn:Hinh; [done|].
    pose proof (subjectStats_get attendance (AttendanceRecord.subject r)) as Hc.
    rewrite Hnil, Hinh in Hc. cbn in Hc.
    case_bool_decide as Hrs; [|done]. unfold recordsOf in Hrs.
    assert (r ∈ filter (λ r', AttendanceRecord.subject r' = AttendanceRecord.subject r)
                  attendance) as Hin by by apply list_elem_of_filter.
    rewrite Hrs in Hin. by apply elem_of_nil in Hin.
  - induction attendance as [|r attendance IH] using rev_ind; [done|].
    intros [Hall Hr]%Forall_app. rewrite Forall_singleton in Hr.
    rewrite subjectStats_snoc. unfold count. rewrite Hr. by apply IH.
Qed.

(** From a first entry on, the names the search starts with are gone. *)
Lemma extremes_start (none1 none2 : string) attendance :
  subjectStats attendance ≠ [] →
  extremes none1 (subjectStats attendance) = extremes none2 (subjectStats attendance).
Proof.
  intros Hne. unfold extremes.
  destruct (PlainObject.entries (subjectStats attendance)) as [|[k s] l] eqn:Hl.
  { destruct Hne. apply Permutation_nil_r. rewrite <- Hl. symmetry. apply entries_perm. }
  destruct (entries_range attendance k s) as (q & Hq & Hq0 & Hq1);
    [rewrite Hl; by left|].
  assert (lt (Finite q) (ofZ 101) = true) as Hlt.
  { unfold lt, gt, ofZ, Qlt_bool. apply negb_true_iff, not_true_iff_false.
    rewrite Qle_bool_iff. intros Habs.
    assert (inject_Z 101 <= inject_Z 100)%Q as Habs' by by eapply Qle_trans.
    by vm_compute in Habs'. }
  assert (gt (Finite q) (ofZ (-1)) = true) as Hgt.
  { unfold gt, ofZ, Qlt_bool. apply negb_true_iff, not_true_iff_false.
    rewrite Qle_bool_iff. intros Habs.
    assert (0 <= inject_Z (-1))%Q as Habs' by by eapply Qle_trans.
    by vm_compute in Habs'. }
  cbn [foldl]. f_equal. unfold compare. cbn zeta.
  cbn [minPercentage maxPercentage weakestSubject strongestSubject].
  rewrite Hq, Hlt. cbn [minPercentage maxPercentage weakestSubject strongestSubject].
  by rewrite Hgt.
Qed.

Lemma inputData_Some student :
  let stats := subjectStats (Student.attendance student) in
  ∃ d, inputData student = Some d ∧
    student_id d = Student.id student ∧
    toFixed1 (attendancePercentage (Student.attendance student))
      = Some (attendance_percentage d) ∧
    weakest_subject d = weakestSubject (extremes "General Studies" stats) ∧
    strongest_subject d = strongestSubject (extremes "General Studies" stats) ∧
    Forall2 (λ entry p,
               performanceSubject p = entry.1 ∧
               ∃ n, (0 ≤ n ≤ 1000)%Z ∧ score p = tenths n ++ "% attendance")%string
      (PlainObject.entries stats) (subject_performance d).
Proof.
  intros stats. unfold inputData. fold stats.
  destruct (attendance_text (Student.attendance student))
    as (n & _ & -> & _).
  cbn [mbind option_bind].
  assert (∃ ps, mapM subjectPerformance (PlainObject.entries stats) = Some ps ∧
                Forall2 (λ entry p,
                           performanceSubject p = entry.1 ∧
                           ∃ n, (0 ≤ n ≤ 1000)%Z ∧
                                score p = tenths n ++ "% attendance")%string
                  (PlainObject.entries stats) ps) as (ps & -> & Hps).
  { assert (Forall (λ x, ∃ q, percentage x.2 = Finite q ∧ (0 <= q)%Q ∧
                              (q <= inject_Z 100)%Q)
              (PlainObject.entries stats)) as Hrange.
    { rewrite Forall_forall. intros [k s]. apply entries_range. }
    induction Hrange as [|[k s] l (q & Hq & Hq0 & Hq1) Hl (ps & Hps & Hall)].
    - by exists [].
    - destruct (toFixed1_percent q Hq0 Hq1) as (m & Hm & _ & Htext).
      eexists. split.
      + apply mapM_Some. constructor; [|by apply mapM_Some].
        cbn [snd] in Hq. unfold subjectPerformance. cbn [snd fst].
        by rewrite Hq, Htext.
      + constructor; [|done]. split; [done|]. by exists m. }
  eexists. by repeat split.
Qed.

(** [predictStudentPerformance] finds the same weakest and strongest
    subject, and the same overall attendance, as
    [generatePersonalizedLearningPath] as soon as one record has a subject
    with statistics; without any, it names both subjects N/A where the other
    says General Studies. *)
Theorem prediction_names_the_same_subjects student :
  let stats := subjectStats (Student.attendance student) in
  ∃ d p, inputData student = Some d ∧ predictionData student = Some p ∧
    overallAttendance p = attendance_percentage d ∧
    (stats ≠ [] →
       weakest p = weakest_subject d ∧ strongest p = strongest_subject d) ∧
    (stats = [] →
       weakest p = "N/A" ∧ strongest p = "N/A" ∧
       weakest_subject d = "General Studies" ∧
       strongest_subject d = "General Studies").
Proof.
  intros stats. destruct (inputData_Some student) as (d & Hd & _ & Ho & Hw & Hs & _).
  fold stats in Hw, Hs. exists d. unfold predictionData, predictionExtremes. fold stats.
  assert (length (PlainObject.keys stats) = length stats) as Hlen.
  { unfold PlainObject.keys. rewrite length_map. apply Permutation_length, entries_perm. }
  rewrite Hlen, Ho. destruct (decide (stats = [])) as [Hnil|Hne].
  - rewrite bool_decide_eq_false_2 by (rewrite Hnil; cbn; lia). cbn.
    eexists. split; [done|]. split; [done|]. cbn.
    split; [done|]. split; [done|]. intros _. by rewrite Hw, Hs, Hnil.
  - rewrite bool_decide_eq_true_2 by (destruct stats; [done | cbn; lia]). cbn.
    eexists. split; [done|]. split; [done|]. cbn. split; [done|]. split; [|done].
    intros _. rewrite Hw, Hs. unfold stats.
    by rewrite (extremes_start "N/A" "General Studies").
Qed.

(** The data that [generatePersonalizedLearningPath] puts into its prompt
    is always there, whatever the records: the student's id; the overall
    attendance, the text of a percentage from 0.0 to 100.0, which is 100.0
    when every record is present, also when there is no record, and 0.0 when
    there are records and none is present; one line per subject in the order
    of [Object.keys], each with a score that is the text of a percentage from
    0.0 to 100.0 followed by the words % attendance; and the weakest and the
    strongest subject of the search. *)
Theorem inputData_defined student :
  let attendance := Student.attendance student in
  let stats := subjectStats attendance in
  ∃ d, inputData student = Some d ∧
    student_id d = Student.id student ∧
    (∃ n, (0 ≤ n ≤ 1000)%Z ∧ attendance_percentage d = tenths n) ∧
    (Forall (λ r, isPresent r = true) attendance → attendance_percentage d = "100.0") ∧
    (attendance ≠ [] → Forall (λ r, isPresent r ≠ true) attendance →
     attendance_percentage d = "0.0") ∧
    weakest_subject d = weakestSubject (extremes "General Studies" stats) ∧
    strongest_subject d = strongestSubject (extremes "General Studies" stats) ∧
    Forall2 (λ entry p,
               performanceSubject p = entry.1 ∧
               ∃ n, (0 ≤ n ≤ 1000)%Z ∧ score p = tenths n ++ "% attendance")%string
      (PlainObject.entries stats) (subject_performance d).
Proof.
  intros attendance stats.
  destruct (inputData_Some student) as (d & Hd & Hid & Ho & Hw & Hs & Hps).
  destruct (attendance_text attendance) as (n & Hn & Htext & Hall & Hnone).
  fold attendance in Ho. rewrite Htext in Ho. injection Ho as Ho.
  exists d. split; [done|]. split; [done|]. split; [by exists n|].
  split; [|split; [|by repeat split]].
  - intros Hpresent. by rewrite <- Ho, (Hall Hpresent).
  - intros Hne Habsent. by rewrite <- Ho, (Hnone Hne Habsent).
Qed.

End PromptData.

Section Suggestions.
Import JS Builtins Advisory.
#[local] Open Scope list_scope.
#[local] Open Scope Z_scope.
Implicit Types (attendance : list AttendanceRecord.t) (k : string).
Implicit Types (l : list (string * Tally)) (x y : string * Tally).

Lemma tally_get (acc : PlainObject.t Tally) (curr : AttendanceRecord.t) k :
  PlainObject.inherited k = false →
  PlainObject.get (tally acc curr) k =
    if decide (AttendanceRecord.subject curr = k)
    then Some match PlainObject.get acc k with
              | Some (Count n) => Count (n + 1)
              | Some Text => Text
              | None => Count 1
              end
    else PlainObject.get acc k.
Proof.
  intros Hk. unfold tally. case_decide as Heq.
  - subst k. rewrite Hk.
    destruct (PlainObject.get acc (AttendanceRecord.subject curr)) as [[n|]|];
      cbn beta iota; by rewrite get_set, decide_True.
  - destruct (PlainObject.get acc (AttendanceRecord.subject curr)) as [[n|]|];
      cbn beta iota; rewrite ?get_set, ?decide_False by done; try done.
    destruct (PlainObject.inherited (AttendanceRecord.subject curr)); cbn beta iota.
    2: { by rewrite get_set, decide_False. }
    destruct (String.eqb _ _); cbn beta iota; [done|].
    by rewrite get_set, decide_False.
Qed.

(** The value kept for a subject is the number of its present records. *)
Lemma highAttendanceSubjects_counts attendance k :
  PlainObject.inherited k = false →
  PlainObject.get (highAttendanceSubjects attendance) k =
    if decide (presences k attendance = 0) then None
    else Some (Count (presences k attendance)).
Proof.
  intros Hk. unfold highAttendanceSubjects, presences, recordsOf.
  induction (filter (λ a, isPresent a = true) attendance) as [|r l IH] using rev_ind.
  - done.
  - rewrite foldl_app, filter_app, length_app, filter_cons, filter_nil.
    cbn [foldl]. rewrite tally_get, IH by done. clear IH.
    set (m := length (filter (λ r, AttendanceRecord.subject r = k) l)).
    destruct (decide (AttendanceRecord.subject r = k)) as [Heq|Hne]; cbn [length].
    + rewrite (decide_False (P := Z.of_nat (m + 1) = 0)) by lia. f_equal.
      destruct (decide (Z.of_nat m = 0)) as [Hz|Hz]; f_equal; lia.
    + by rewrite Nat.add_0_r.
Qed.

Lemma insert_perm x l : insert x l ≡ₚ x :: l.
Proof.
  induction l as [|y l IH]; cbn; [done|].
  destruct (sortsBefore y x); [|done]. rewrite IH. apply Permutation_swap.
Qed.

Lemma sort_perm l : sort l ≡ₚ l.
Proof.
  induction l as [|x l IH]; cbn; [done|]. by rewrite insert_perm, IH.
Qed.

Lemma sortsBefore_counts x y :
  isCount x → isCount y → sortsBefore y x = bool_decide (countOf x < countOf y).
Proof.
  intros [n Hn] [m Hm]. unfold sortsBefore, comparator, countOf. rewrite Hn, Hm.
  case_bool_decide; [apply Z.ltb_lt | apply Z.ltb_ge]; lia.
Qed.

(** Inserting into a list in descending order keeps the order. *)
Lemma insert_sorted x l :
  isCount x → Forall isCount l →
  StronglySorted (λ a b, countOf b ≤ countOf a) l →
  StronglySorted (λ a b, countOf b ≤ countOf a) (insert x l).
Proof.
  intros Hx Hl Hsorted. induction Hsorted as [|y l Hs IH Hy]; cbn.
  - repeat constructor.
  - apply Forall_cons in Hl as [Hcy Hl].
    rewrite sortsBefore_counts by done. case_bool_decide as Hlt.
    + constructor; [by apply IH|]. rewrite insert_perm. constructor; [lia|done].
    + constructor; [by constructor|]. constructor; [lia|].
      eapply Forall_impl; [exact Hy|]. intros z Hz. cbn in Hz. lia.
Qed.

(** Inserting puts the new element before the elements with its count. *)
Lemma insert_stable x l (n : Z) :
  isCount x → Forall isCount l →
  filter (λ e, countOf e = n) (insert x l)
  = filter (λ e, countOf e = n) (x :: l).
Proof.
  intros Hx Hl. induction Hl as [|y l Hy Hl IH]; cbn [insert]; [done|].
  rewrite sortsBefore_counts by done. case_bool_decide as Hlt; [|done].
  rewrite (filter_cons _ y), IH, !filter_cons.
  repeat case_decide; try done; lia.
Qed.

Lemma sort_isCount l : Forall isCount l → Forall isCount (sort l).
Proof. intros Hl. by rewrite sort_perm. Qed.

(** On counts, the sort puts the greater counts first and keeps the
    order of equal ones. *)
Lemma sort_descending_stable l :
  Forall isCount l →
  StronglySorted (λ a b, countOf b ≤ countOf a) (sort l) ∧
  ∀ n, filter (λ e, countOf e = n) (sort l) = filter (λ e, countOf e = n) l.
Proof.
  intros Hl. induction Hl as [|x l Hx Hl [IHs IHf]]; cbn [sort foldr].
  - split; [constructor | done].
  - fold (sort l). split.
    + apply insert_sorted; [done | by apply sort_isCount | done].
    + intros n. rewrite insert_stable by (done || by apply sort_isCount).
      by rewrite !filter_cons, IHf.
Qed.

Lemma Forall_set {V} (P : string * V → Prop) (o : PlainObject.t V) k (v : V) :
  Forall P o → P (k, v) → Forall P (PlainObject.set o k v).
Proof.
  intros Ho Hkv. induction Ho as [|[k0 v0] o H0 Ho IH]; cbn.
  - by constructor.
  - rewrite eqb_decide. case_bool_decide; [subst|]; constructor; done.
Qed.

(** With ordinary subjects only, the tally keeps one count per subject. *)
Lemma highAttendanceSubjects_inv attendance :
  Forall (λ r, PlainObject.inherited (AttendanceRecord.subject r) = false)
    (filter (λ a, isPresent a = true) attendance) →
  NoDup (highAttendanceSubjects attendance).*1 ∧
  Forall (λ x, PlainObject.inherited x.1 = false ∧ isCount x)
    (highAttendanceSubjects attendance).
Proof.
  unfold highAttendanceSubjects.
  induction (filter (λ a, isPresent a = true) attendance) as [|r l IH] using rev_ind.
  - intros _. split; constructor.
  - intros [Hl Hr]%Forall_app. rewrite Forall_singleton in Hr.
    destruct (IH Hl) as [Hnd Hall]. rewrite foldl_app. cbn [foldl].
    set (acc := foldl tally [] l) in *. unfold tally. rewrite Hr.
    destruct (PlainObject.get acc (AttendanceRecord.subject r)) as [v|] eqn:Hg.
    + assert (isCount (AttendanceRecord.subject r, v)) as [n Hn].
      { apply get_Some_elem_of in Hg. rewrite Forall_forall in Hall.
        by apply (Hall _ Hg). }
      cbn in Hn. subst v. split.
      * by rewrite keys_set, Hg.
      * apply Forall_set; [done|]. split; [done|]. by eexists.
    + split.
      * rewrite keys_set, Hg. apply NoDup_app. split; [done|]. split.
        -- intros k Hk ->%list_elem_of_singleton. by apply get_None in Hg.
        -- apply NoDup_singleton.
      * apply Forall_set; [done|]. split; [done|]. by eexists.
Qed.

Lemma presences_ordinary attendance k :
  Forall (λ r, PlainObject.inherited (AttendanceRecord.subject r) = false)
    (filter (λ a, isPresent a = true) attendance) →
  0 < presences k attendance → PlainObject.inherited k = false.
Proof.
  intros Hall Hpos. unfold presences, recordsOf in Hpos.
  destruct (filter (λ r, AttendanceRecord.subject r = k) _) as [|r rs] eqn:Hf;
    [cbn in Hpos; lia|].
  assert (r ∈ filter (λ r, AttendanceRecord.subject r = k)
                (filter (λ a, isPresent a = true) attendance)) as Hin
    by (rewrite Hf; by left).
  apply list_elem_of_filter in Hin as [<- Hin].
  rewrite Forall_forall in Hall. by apply Hall.
Qed.

(** The subjects named in the summary. With ordinary subject names, the
    sorted entries are the subjects with a present record, each once and
    with the number of its present records, the greater numbers first and
    equal numbers in the order of [Object.entries]; so none of the subjects
    after the first two has more present records than one of the two. *)
Theorem sortedSubjects_by_presences attendance :
  Forall (λ r, PlainObject.inherited (AttendanceRecord.subject r) = false)
    (filter (λ a, isPresent a = true) attendance) →
  let sorted := sortedSubjects attendance in
  (∀ k v, (k, v) ∈ sorted
          ↔ 0 < presences k attendance ∧ v = Count (presences k attendance)) ∧
  NoDup sorted.*1 ∧
  StronglySorted (λ a b, countOf b ≤ countOf a) sorted ∧
  (∀ n, filter (λ e, countOf e = n) sorted
        = filter (λ e, countOf e = n)
            (PlainObject.entries (highAttendanceSubjects attendance))) ∧
  (∀ x y, x ∈ take 2 sorted → y ∈ drop 2 sorted → countOf y ≤ countOf x).
Proof.
  intros Hord sorted. subst sorted. unfold sortedSubjects.
  destruct (highAttendanceSubjects_inv attendance Hord) as [Hnd Hall].
  set (o := highAttendanceSubjects attendance) in *.
  assert (Forall isCount (PlainObject.entries o)) as Hcounts.
  { rewrite entries_perm. eapply Forall_impl; [exact Hall|]. by intros x [_ ?]. }
  destruct (sort_descending_stable _ Hcounts) as [Hsorted Hstable].
  split; [|split; [|split; [|split]]].
  - intros k v. rewrite sort_perm, entries_perm. split.
    + intros Hin. rewrite Forall_forall in Hall.
      destruct (Hall _ Hin) as [Hk _]. cbn in Hk.
      apply elem_of_get in Hin; [|done]. unfold o in Hin.
      rewrite highAttendanceSubjects_counts in Hin by done.
      case_decide as Hz; [done|]. injection Hin as <-.
      split; [unfold presences in *; lia | done].
    + intros [Hpos ->]. apply get_Some_elem_of. unfold o.
      rewrite highAttendanceSubjects_counts by by eapply presences_ordinary.
      rewrite decide_False by lia. done.
  - by rewrite sort_perm, entries_perm.
  - done.
  - done.
  - intros x y Hx Hy. rewrite <- (take_drop 2 (sort _)) in Hsorted.
    by eapply (StronglySorted_app_1_elem_of _ _ _ x y) in Hsorted.
Qed.

End Suggestions.

Section SubjectOrder.
Import JS Builtins Advisory.
#[local] Open Scope list_scope.
Implicit Types (attendance : list AttendanceRecord.t) (k : string).

Lemma subjectStats_creation_order attendance :
  (subjectStats attendance).*1
  = firstOccurrences (filter (λ k, PlainObject.inherited k = false)
                        (AttendanceRecord.subject <$> attendance)).
Proof.
  unfold firstOccurrences.
  induction attendance as [|record attendance IH] using rev_ind; [done|].
  rewrite subjectStats_snoc, fmap_app, filter_app, foldl_app. cbn [fmap list_fmap].
  rewrite filter_cons, filter_nil. unfold count.
  destruct (PlainObject.inherited (AttendanceRecord.subject record)) eqn:Hinh.
  { by rewrite decide_False by done. }
  rewrite decide_True by done. cbn [foldl]. rewrite <- IH. clear IH.
  rewrite keys_modify.
  assert ((if isPresent record
           then PlainObject.modify
                  match PlainObject.get (subjectStats attendance)
                          (AttendanceRecord.subject record) with
                  | Some _ => subjectStats attendance
                  | None => PlainObject.set (subjectStats attendance)
                              (AttendanceRecord.subject record)
                              {| present := 0; total := 0 |}
                  end (AttendanceRecord.subject record)
                  (λ s, {| present := (present s + 1)%Z; total := total s |})
           else match PlainObject.get (subjectStats attendance)
                        (AttendanceRecord.subject record) with
                | Some _ => subjectStats attendance
                | None => PlainObject.set (subjectStats attendance)
                            (AttendanceRecord.subject record)
                            {| present := 0; total := 0 |}
                end).*1
          = (match PlainObject.get (subjectStats attendance)
                     (AttendanceRecord.subject record) with
             | Some _ => subjectStats attendance
             | None => PlainObject.set (subjectStats attendance)
                         (AttendanceRecord.subject record)
                         {| present := 0; total := 0 |}
             end).*1) as ->.
  { destruct (isPresent record); by rewrite ?keys_modify. }
  destruct (PlainObject.get _ _) eqn:Hg.
  - rewrite decide_True; [done|].
    apply get_Some_elem_of in Hg. apply list_elem_of_fmap. by eexists (_, _).
  - rewrite keys_set, Hg. apply get_None in Hg. by rewrite decide_False.
Qed.

(** When no subject is an array index, the subjects are visited in the
    order of their first record; it is the first of two subjects with equal
    percentages in that order that the search keeps. *)
Theorem subjects_in_order_of_first_record attendance :
  Forall (λ r, PlainObject.arrayIndex (AttendanceRecord.subject r) = None) attendance →
  PlainObject.keys (subjectStats attendance)
  = firstOccurrences (filter (λ k, PlainObject.inherited k = false)
                        (AttendanceRecord.subject <$> attendance)).
Proof.
  intros Hplain. unfold PlainObject.keys.
  rewrite entries_creation_order; [apply subjectStats_creation_order|].
  rewrite Forall_forall. intros [k s] Hin. cbn.
  apply elem_of_get in Hin; [|apply subjectStats_NoDup].
  rewrite subjectStats_get in Hin.
  destruct (PlainObject.inherited k); [done|]. cbn in Hin.
  case_bool_decide as Hnil; [done|]. unfold recordsOf in Hnil.
  destruct (filter _ attendance) as [|r rs] eqn:Hf; [done|].
  assert (r ∈ filter (λ r, AttendanceRecord.subject r = k) attendance) as Hr
    by (rewrite Hf; by left).
  apply list_elem_of_filter in Hr as [<- Hr].
  rewrite Forall_forall in Hplain. by apply Hplain.
Qed.

(** When all subjects have the same percentage, as when there is one
    subject only, the weakest and the strongest subject are both the first
    one. *)
Theorem equal_percentages_name_the_first_subject (none : string) attendance k s l :
  PlainObject.entries (subjectStats attendance) = (k, s) :: l →
  Forall (λ y, percentage y.2 = percentage s) l →
  weakestSubject (extremes none (subjectStats attendance)) = k ∧
  strongestSubject (extremes none (subjectStats attendance)) = k.
Proof.
  intros Hl Hsame.
  destruct (entries_range attendance k s) as (q & Hq & _); [rewrite Hl; by left|].
  assert (lt (Finite q) (Finite q) = false ∧ gt (Finite q) (Finite q) = false)
    as [Hlt Hgt].
  { unfold lt, gt, Qlt_bool. split; apply negb_false_iff, Qle_bool_iff, Qle_refl. }
  destruct (extremes_first_best none attendance)
    as [(pre & sw & post & Hw & _ & Hpre & _) (pre' & ss & post' & Hs & _ & Hpre' & _)];
    [by rewrite Hl|].
  rewrite Hl in Hw, Hs.
  assert (∀ (pre post : list (string * Stat)) (w : string) (sw : Stat)
            (better : number → number → bool),
            better (Finite q) (Finite q) = false →
            (k, s) :: l = pre ++ (w, sw) :: post →
            Forall (λ y, better (percentage sw) (percentage y.2) = true) pre →
            w = k) as Hfirst.
  { intros pre0 post0 w sw0 better Hirr Heq Hbetter.
    destruct pre0 as [|y pre0]; [by simplify_eq/=|].
    exfalso. cbn in Heq. injection Heq as Hy0 Heq. subst y.
    apply Forall_cons in Hbetter as [Hy _]. cbn in Hy. rewrite Hq in Hy.
    assert (percentage sw0 = Finite q) as Hsw.
    { rewrite <- Hq. rewrite Forall_forall in Hsame. apply (Hsame (w, sw0)).
      rewrite Heq. apply elem_of_app. right. by left. }
    rewrite Hsw in Hy. congruence. }
  split; [by eapply (Hfirst pre post _ sw lt) | by eapply (Hfirst pre' post' _ ss gt)].
Qed.

End SubjectOrder.

Section AdvisoryExamples.
Import JS Builtins Advisory.
#[local] Open Scope list_scope.
#[local] Open Scope Z_scope.

(** What the three functions compute for Ravi. *)
Example ravi_inputData :
  inputData Examples.ravi
  = Some {| student_id := "stu2"; attendance_percentage := "66.7";
            subject_performance :=
              [ {| performanceSubject := "Math"; score := "50.0% attendance" |};
                {| performanceSubject := "Physics"; score := "66.7% attendance" |};
                {| performanceSubject := "Art"; score := "100.0% attendance" |} ];
            weakest_subject := "Math"; strongest_subject := "Art" |}.
Proof. vm_compute. reflexivity. Qed.

Example ravi_sortedSubjects :
  sortedSubjects (Student.attendance Examples.ravi)
  = [("Physics", Count 2); ("Math", Count 1); ("Art", Count 1)].
Proof. vm_compute. reflexivity. Qed.

Example ravi_performanceSummary :
  performanceSummary Examples.ravi
  = ("The student, Ravi, has the following academic profile:" ++ newline
     ++ "- In Math, their overall grade is B+. Teacher feedback: "
     ++ quote ++ "Steady work" ++ quote ++ newline
     ++ "- They have high attendance in: Physics, Math." ++ newline)%string.
Proof. vm_compute. reflexivity. Qed.

(** The course number is visited first, and the method name is not
    counted at all, though its record counts in the overall attendance. *)
Example asha_inputData :
  inputData Examples.asha
  = Some {| student_id := "stu1"; attendance_percentage := "50.0";
            subject_performance :=
              [ {| performanceSubject := "101"; score := "0.0% attendance" |};
                {| performanceSubject := "Math"; score := "50.0% attendance" |} ];
            weakest_subject := "101"; strongest_subject := "Math" |}.
Proof. vm_compute. reflexivity. Qed.

(** Ravi's percentages lie between those of the two subjects named. *)
Lemma extremes_witness :
  let l := PlainObject.entries (subjectStats (Student.attendance Examples.ravi)) in
  let e := extremes "General Studies" (subjectStats (Student.attendance Examples.ravi)) in
  ∃ lo hi : Q,
    minPercentage e = Finite lo ∧ maxPercentage e = Finite hi ∧
    ∀ k s, (k, s) ∈ l → ∃ q, percentage s = Finite q ∧ (lo <= q)%Q ∧ (q <= hi)%Q.
Proof.
  destruct (weakest_and_strongest_subject "General Studies"
              (Student.attendance Examples.ravi))
    as (lo & hi & Hlo & Hhi & Hall & _).
  - vm_compute. discriminate.
  - exists lo, hi. split; [exact Hlo|]. split; [exact Hhi | exact Hall].
Defined.

Lemma sortedSubjects_witness :
  let sorted := sortedSubjects (Student.attendance Examples.ravi) in
  NoDup sorted.*1 ∧ StronglySorted (λ a b, countOf b ≤ countOf a) sorted.
Proof.
  destruct (sortedSubjects_by_presences (Student.attendance Examples.ravi))
    as (_ & Hnd & Hsorted & _).
  - repeat constructor.
  - split; [exact Hnd | exact Hsorted].
Defined.

Lemma subjects_order_witness :
  PlainObject.keys (subjectStats (Student.attendance Examples.ravi))
  = firstOccurrences
      (filter (λ k, PlainObject.inherited k = false)
         (AttendanceRecord.subject <$> Student.attendance Examples.ravi)).
Proof.
  apply (subjects_in_order_of_first_record (Student.attendance Examples.ravi)).
  repeat constructor.
Defined.

Lemma equal_percentages_witness :
  weakestSubject (extremes "N/A" (subjectStats (Student.attendance Examples.meera)))
    = "Math" ∧
  strongestSubject (extremes "N/A" (subjectStats (Student.attendance Examples.meera)))
    = "Math".
Proof.
  apply (equal_percentages_name_the_first_subject "N/A"
           (Student.attendance Examples.meera) "Math"
           {| present := 1; total := 2 |} []).
  - vm_compute. reflexivity.
  - constructor.
Defined.

End AdvisoryExamples.
